(** * CapDB: the receipt categorizer ([receipt_processor.py])

    A shallow embedding of [DbCategorizer]: the two category tables, the
    SQLite store behind [add_receipt] / [update_receipt], the aggregation
    queries, the line parser of [process_receipt], and the parts of the
    Python library the class calls ([str] methods, [re], [difflib]).

    Conventions.
    - A Python [str] is the list of its code points ([list Z]); literals
      are written as UTF-8 text and decoded by [u].
    - A Python [dict] whose iteration order is observable is an
      association list in insertion order; the dictionaries private to
      [difflib] are [gmap]s.
    - [None] is [None]; a function that may leave through its [except]
      clause returns the value that clause returns. *)

From Stdlib Require Import ZArith Lia List String Ascii QArith Floats Uint63.
From stdpp Require Import gmap list gmultiset sorting.
Import ListNotations.

Local Open Scope nat_scope.

(** ** Python strings *)

Abbreviation str := (list Z).

Module PyStr.

(** UTF-8 decoding of the literals of this file. *)
Fixpoint utf8 (bs : list Z) : str :=
  match bs with
  | [] => []
  | b0 :: r0 =>
    if (b0 <? 128)%Z then b0 :: utf8 r0
    else match r0 with
    | [] => []
    | b1 :: r1 =>
      if (b0 <? 224)%Z then ((b0 - 192) * 64 + (b1 - 128))%Z :: utf8 r1
      else match r1 with
      | [] => []
      | b2 :: r2 =>
        if (b0 <? 240)%Z
        then ((b0 - 224) * 4096 + (b1 - 128) * 64 + (b2 - 128))%Z :: utf8 r2
        else match r2 with
        | [] => []
        | b3 :: r3 =>
          ((b0 - 240) * 262144 + (b1 - 128) * 4096
           + (b2 - 128) * 64 + (b3 - 128))%Z :: utf8 r3
        end
      end
    end
  end.

Definition u (s : string) : str :=
  utf8 (map (fun c => Z.of_N (N_of_ascii c)) (list_ascii_of_string s)).

Arguments u s%_string.

(** [c.isspace()], which is also the class [\s] of [re] on [str]
    patterns: the 29 white-space code points of CPython. *)
Definition isspace (c : Z) : bool :=
  ((9 <=? c) && (c <=? 13) || (28 <=? c) && (c <=? 32)
   || (c =? 133) || (c =? 160) || (c =? 5760)
   || (8192 <=? c) && (c <=? 8202)
   || (c =? 8232) || (c =? 8233) || (c =? 8239) || (c =? 8287)
   || (c =? 12288))%Z.

(** The code points of value zero of the decimal-digit blocks
    (general category Nd, Unicode 14.0 as shipped with CPython 3.11);
    each block is ten consecutive code points 0..9. *)
Definition decimal_zeros : list Z :=
  [48; 1632; 1776; 1984; 2406; 2534; 2662; 2790; 2918; 3046; 3174; 3302;
   3430; 3558; 3664; 3792; 3872; 4160; 4240; 6112; 6160; 6470; 6608; 6784;
   6800; 6992; 7088; 7232; 7248; 42528; 43216; 43264; 43472; 43504; 43600;
   44016; 65296; 66720; 68912; 69734; 69872; 69942; 70096; 70384; 70736;
   70864; 71248; 71360; 71472; 71904; 72016; 72784; 73040; 73120; 92768;
   92864; 93008; 120782; 120792; 120802; 120812; 120822; 123200; 123632;
   125264; 130032]%Z.

(** [unicodedata.decimal(c)], [None] when [c] is not a decimal digit. *)
Definition decimal (c : Z) : option Z :=
  match List.find (fun z => (z <=? c) && (c <? z + 10))%Z decimal_zeros with
  | Some z => Some (c - z)%Z
  | None => None
  end.

(** [c.isdecimal()], the class [\d] of [re]. *)
Definition isdecimal (c : Z) : bool :=
  match decimal c with Some _ => true | None => false end.

(** Code points with a digit value that are not decimal digits
    (superscripts, circled digits, ...), as inclusive ranges. *)
Definition digit_ranges : list (Z * Z) :=
  [(178, 179); (185, 185); (4969, 4977); (6618, 6618); (8304, 8304);
   (8308, 8313); (8320, 8329); (9312, 9320); (9332, 9340); (9352, 9360);
   (9450, 9450); (9461, 9469); (9471, 9471); (10102, 10110);
   (10112, 10120); (10122, 10130); (68160, 68163); (69216, 69224);
   (69714, 69722); (127232, 127242)]%Z.

(** [c.isdigit()]. *)
Definition isdigit (c : Z) : bool :=
  isdecimal c
  || existsb (fun '(lo, hi) => (lo <=? c) && (c <=? hi))%Z digit_ranges.

(** [s.strip()] *)
Fixpoint lstrip (s : str) : str :=
  match s with
  | c :: r => if isspace c then lstrip r else s
  | [] => []
  end.

Definition rstrip (s : str) : str := rev (lstrip (rev s)).

Definition strip (s : str) : str := rstrip (lstrip s).

Fixpoint startswith (p s : str) : bool :=
  match p, s with
  | [], _ => true
  | _ :: _, [] => false
  | x :: p', y :: s' => (x =? y)%Z && startswith p' s'
  end.

(** [p in s] *)
Fixpoint contains (p s : str) : bool :=
  startswith p s
  || match s with
     | [] => false
     | _ :: r => contains p r
     end.

(** [s.replace(old, new)] for a non-empty [old]: occurrences are taken
    left to right without overlap; [skip] counts the characters of the
    occurrence just replaced that are still to be dropped. *)
Fixpoint replace_from (old new : str) (skip : nat) (s : str) : str :=
  match s with
  | [] => []
  | c :: r =>
    match skip with
    | S k => replace_from old new k r
    | O =>
      if startswith old s
      then new ++ replace_from old new (length old - 1) r
      else c :: replace_from old new 0 r
    end
  end.

Definition replace (old new s : str) : str := replace_from old new 0 s.

(** [s.split(sep)] for a non-empty [sep]; [cur] is the current field,
    last character first. *)
Fixpoint split_from (sep : str) (skip : nat) (cur : str) (s : str)
  : list str :=
  match s with
  | [] => [rev cur]
  | c :: r =>
    match skip with
    | S k => split_from sep k cur r
    | O =>
      if startswith sep s
      then rev cur :: split_from sep (length sep - 1) [] r
      else split_from sep 0 (c :: cur) r
    end
  end.

Definition split (sep s : str) : list str := split_from sep 0 [] s.

(** [x < y] on strings: lexicographic on code points. *)
Fixpoint str_lt (x y : str) : bool :=
  match x, y with
  | _, [] => false
  | [], _ :: _ => true
  | a :: x', b :: y' => (a <? b)%Z || ((a =? b)%Z && str_lt x' y')
  end.

(** *** [int(s)]

    CPython first maps the text to ASCII: a non-ASCII white-space
    character becomes a blank, a non-ASCII decimal digit becomes its
    ASCII digit, any other non-ASCII character ends the text with a
    character that is no digit.  The ASCII text is then read as
    blanks, an optional sign, digits with single underscores between
    them, blanks. *)
Definition to_ascii (c : Z) : Z :=
  if (c <=? 127)%Z then c
  else if isspace c then 32%Z
  else match decimal c with
       | Some d => (48 + d)%Z
       | None => 63%Z
       end.

Definition c_isspace (c : Z) : bool :=
  ((9 <=? c) && (c <=? 13) || (c =? 32))%Z.

Definition c_isdigit (c : Z) : bool := ((48 <=? c) && (c <=? 57))%Z.

Fixpoint skip_blanks (s : str) : str :=
  match s with
  | c :: r => if c_isspace c then skip_blanks r else s
  | [] => []
  end.

(** Reads digits and underscores; [prev] tells whether the previous
    character was a digit.  Returns the value and the unread rest. *)
Fixpoint read_digits (acc : Z) (prev : bool) (s : str) : option (Z * str) :=
  match s with
  | c :: r =>
    if c_isdigit c then read_digits (10 * acc + (c - 48))%Z true r
    else if (c =? 95)%Z then
      if prev then
        match r with
        | d :: _ => if c_isdigit d then read_digits acc false r else None
        | [] => None
        end
      else None
    else if prev then Some (acc, s) else None
  | [] => if prev then Some (acc, []) else None
  end.

Definition int (s : str) : option Z :=
  let t := skip_blanks (map to_ascii s) in
  let '(sign, t) :=
    match t with
    | c :: r => if (c =? 45)%Z then ((-1)%Z, r)
                else if (c =? 43)%Z then (1%Z, r) else (1%Z, t)
    | [] => (1%Z, t)
    end in
  match read_digits 0 false t with
  | Some (n, rest) =>
    match skip_blanks rest with
    | [] => Some (sign * n)%Z
    | _ :: _ => None
    end
  | None => None
  end.

End PyStr.

Import PyStr.

(** ** Regular expressions ([re]) *)

Module Re.

(** The pattern constructs the source uses.  [Grp] is the capturing
    group: no pattern of the source has more than one. *)
Inductive regex : Type :=
| Lit (c : Z)
| Cls (p : Z -> bool)
| Cat (r1 r2 : regex)
| Star (r : regex)
| Opt (r : regex)
| Grp (r : regex).

Definition Plus (r : regex) : regex := Cat r (Star r).

Fixpoint Lits (s : str) : regex :=
  match s with
  | [] => Star (Cls (fun _ => false))
  | [c] => Lit c
  | c :: r => Cat (Lit c) (Lits r)
  end.

(** Backtracking matcher, in the order CPython's engine tries the
    alternatives: a greedy quantifier first takes one more repetition
    and, if the rest of the pattern then fails, gives it back.  [k] is
    the rest of the pattern; [cap] the text of the group so far. *)
Fixpoint exec {A : Type} (r : regex) (s : str) (cap : option str)
    (k : str -> option str -> option A) {struct r} : option A :=
  match r with
  | Lit c =>
    match s with
    | x :: t => if (x =? c)%Z then k t cap else None
    | [] => None
    end
  | Cls p =>
    match s with
    | x :: t => if p x then k t cap else None
    | [] => None
    end
  | Cat r1 r2 => exec r1 s cap (fun s1 cap1 => exec r2 s1 cap1 k)
  | Opt r1 =>
    match exec r1 s cap k with
    | Some x => Some x
    | None => k s cap
    end
  | Star r1 =>
    (fix star (fuel : nat) (s : str) (cap : option str) : option A :=
       match fuel with
       | O => k s cap
       | S f =>
         match exec r1 s cap
                 (fun s1 cap1 =>
                    if length s1 <? length s then star f s1 cap1 else None)
         with
         | Some x => Some x
         | None => k s cap
         end
       end) (length s) s cap
  | Grp r1 =>
    exec r1 s cap
      (fun s1 _ => k s1 (Some (take (length s - length s1) s)))
  end.

(** A match object: [group()] and [group(1)]. *)
Record match_object : Type :=
  { group0 : str; group1 : option str }.

(** [re.match(r, s)]: a match at the start of [s]. *)
Definition match_here (r : regex) (s : str) : option match_object :=
  exec r s None
    (fun s1 cap =>
       Some {| group0 := take (length s - length s1) s; group1 := cap |}).

(** [re.search(r, s)]: the match at the leftmost position that has
    one. *)
Fixpoint search (r : regex) (s : str) : option match_object :=
  match match_here r s with
  | Some m => Some m
  | None =>
    match s with
    | [] => None
    | _ :: t => search r t
    end
  end.

(** [re.sub(r, repl, s)] for a pattern that matches no empty text:
    every match, left to right without overlap, is replaced. *)
Fixpoint sub_from (r : regex) (repl : str) (skip : nat) (s : str) : str :=
  match s with
  | [] => []
  | c :: t =>
    match skip with
    | S n => sub_from r repl n t
    | O =>
      match match_here r s with
      | Some m => repl ++ sub_from r repl (length (group0 m) - 1) t
      | None => c :: sub_from r repl 0 t
      end
    end
  end.

Definition sub (r : regex) (repl s : str) : str := sub_from r repl 0 s.

End Re.

(** ** [difflib]: [SequenceMatcher] and [get_close_matches] *)

Module Difflib.

(** [Match(a, b, size)] *)
Record Match : Type := { m_a : nat; m_b : nat; m_size : nat }.

(** [s[i]]; every index the matcher forms lies inside the string. *)
Definition getitem (s : str) (i : nat) : Z := nth i s 0%Z.

Section matcher.

(** [self.a] and [self.b]; [get_close_matches] sets [b] to the word
    and [a] to each possibility in turn. *)
Variables a b : str.

(** [__chain_b]: [b2j[x]] lists the indices of [x] in [b], ascending.
    [isjunk] is [None], so no element is junk; with [autojunk] an
    element of a text of 200 or more that fills more than 1% + 1 of
    it is popular and loses its entry. *)
Definition b2j_all : gmap Z (list nat) :=
  fold_left
    (fun (m : gmap Z (list nat)) '(i, elt) =>
       <[elt := default [] (m !! elt) ++ [i]]> m)
    (zip (seq 0 (length b)) b) ∅.

Definition b2j : gmap Z (list nat) :=
  let n := length b in
  if 200 <=? n
  then filter (fun p : Z * list nat => length p.2 <= n / 100 + 1) b2j_all
  else b2j_all.

(** [self.bjunk.__contains__], the empty set here. *)
Definition isbjunk (c : Z) : bool := false.

(** The body of [for j in b2j.get(a[i], nothing)], with its
    [continue] and [break]; [j2len] is keyed by integers because
    the source looks up [j-1]. *)
Fixpoint longest_inner (i blo bhi : nat) (j2len : gmap Z nat)
    (js : list nat) (newj2len : gmap Z nat) (best : Match)
  : gmap Z nat * Match :=
  match js with
  | [] => (newj2len, best)
  | j :: js' =>
    if j <? blo then longest_inner i blo bhi j2len js' newj2len best
    else if bhi <=? j then (newj2len, best)
    else
      let k := default 0 (j2len !! (Z.of_nat j - 1)%Z) + 1 in
      let newj2len := <[Z.of_nat j := k]> newj2len in
      let best :=
        if m_size best <? k
        then {| m_a := Z.to_nat (Z.of_nat i - Z.of_nat k + 1);
                m_b := Z.to_nat (Z.of_nat j - Z.of_nat k + 1);
                m_size := k |}
        else best in
      longest_inner i blo bhi j2len js' newj2len best
  end.

(** [for i in range(alo, ahi)] *)
Definition longest_outer (alo ahi blo bhi : nat) : gmap Z nat * Match :=
  fold_left
    (fun '(j2len, best) i =>
       longest_inner i blo bhi j2len
         (default [] (b2j !! getitem a i)) ∅ best)
    (seq alo (ahi - alo))
    (∅, {| m_a := alo; m_b := blo; m_size := 0 |}).

(** [while besti > alo and bestj > blo and <junk test> and
    a[besti-1] == b[bestj-1]] *)
Fixpoint extend_left (junk : bool) (alo blo : nat)
    (besti bestj bestsize : nat) {struct besti} : Match :=
  match besti, bestj with
  | S i1, S j1 =>
    if (alo <? besti) && (blo <? bestj)
       && eqb (isbjunk (getitem b j1)) junk
       && (getitem a i1 =? getitem b j1)%Z
    then extend_left junk alo blo i1 j1 (bestsize + 1)
    else {| m_a := besti; m_b := bestj; m_size := bestsize |}
  | _, _ => {| m_a := besti; m_b := bestj; m_size := bestsize |}
  end.

(** [while besti+bestsize < ahi and bestj+bestsize < bhi and
    <junk test> and a[besti+bestsize] == b[bestj+bestsize]]; the
    loop stops at [ahi] at the latest, which is what [fuel] counts. *)
Fixpoint extend_right (junk : bool) (ahi bhi besti bestj : nat)
    (fuel bestsize : nat) : nat :=
  match fuel with
  | O => bestsize
  | S f =>
    if (besti + bestsize <? ahi) && (bestj + bestsize <? bhi)
       && eqb (isbjunk (getitem b (bestj + bestsize))) junk
       && (getitem a (besti + bestsize) =? getitem b (bestj + bestsize))%Z
    then extend_right junk ahi bhi besti bestj f (bestsize + 1)
    else bestsize
  end.

Definition extend (junk : bool) (alo ahi blo bhi : nat) (m : Match)
  : Match :=
  let m1 := extend_left junk alo blo (m_a m) (m_b m) (m_size m) in
  {| m_a := m_a m1; m_b := m_b m1;
     m_size := extend_right junk ahi bhi (m_a m1) (m_b m1)
                 (ahi - (m_a m1 + m_size m1)) (m_size m1) |}.

Definition find_longest_match (alo ahi blo bhi : nat) : Match :=
  let best := (longest_outer alo ahi blo bhi).2 in
  let best := extend false alo ahi blo bhi best in
  extend true alo ahi blo bhi best.

(** The [while queue:] loop of [get_matching_blocks].  The queue is a
    stack ([pop()] and [append] work on the same end): its top is
    the head of the list.  One unit of [fuel] is one iteration. *)
Fixpoint blocks_loop (fuel : nat) (queue : list (nat * nat * nat * nat))
    (matching_blocks : list Match) : list Match :=
  match fuel, queue with
  | S f, (alo, ahi, blo, bhi) :: queue =>
    let x := find_longest_match alo ahi blo bhi in
    let '(i, j, k) := (m_a x, m_b x, m_size x) in
    if k =? 0 then blocks_loop f queue matching_blocks
    else
      let queue :=
        if (alo <? i) && (blo <? j)
        then (alo, i, blo, j) :: queue else queue in
      let queue :=
        if (i + k <? ahi) && (j + k <? bhi)
        then (i + k, ahi, j + k, bhi) :: queue else queue in
      blocks_loop f queue (matching_blocks ++ [x])
  | _, _ => matching_blocks
  end.

(** The loop as a relation, without fuel. *)
Inductive blocks_run
  : list (nat * nat * nat * nat) -> list Match -> list Match -> Prop :=
| run_done mbs : blocks_run [] mbs mbs
| run_empty alo ahi blo bhi queue mbs res :
    m_size (find_longest_match alo ahi blo bhi) = 0 ->
    blocks_run queue mbs res ->
    blocks_run ((alo, ahi, blo, bhi) :: queue) mbs res
| run_block alo ahi blo bhi queue mbs res :
    let x := find_longest_match alo ahi blo bhi in
    m_size x <> 0 ->
    blocks_run
      ((if (m_a x + m_size x <? ahi) && (m_b x + m_size x <? bhi)
        then [(m_a x + m_size x, ahi, m_b x + m_size x, bhi)] else [])
       ++ (if (alo <? m_a x) && (blo <? m_b x)
           then [(alo, m_a x, blo, m_b x)] else [])
       ++ queue)
      (mbs ++ [x]) res ->
    blocks_run ((alo, ahi, blo, bhi) :: queue) mbs res.

(** Tuple order of [matching_blocks.sort()]. *)
Definition match_le (x y : Match) : Prop :=
  m_a x < m_a y
  \/ (m_a x = m_a y
      /\ (m_b x < m_b y \/ (m_b x = m_b y /\ m_size x <= m_size y))).

#[global] Instance match_le_dec (x y : Match) : Decision (match_le x y).
Proof. unfold match_le. apply _. Defined.

(** The second loop of [get_matching_blocks], which merges adjacent
    blocks; [(i1, j1, k1)] is the block being grown. *)
Fixpoint collapse (i1 j1 k1 : nat) (blocks : list Match) : list Match :=
  match blocks with
  | [] => if k1 =? 0 then [] else [{| m_a := i1; m_b := j1; m_size := k1 |}]
  | x :: rest =>
    if (i1 + k1 =? m_a x) && (j1 + k1 =? m_b x)
    then collapse i1 j1 (k1 + m_size x) rest
    else
      (if k1 =? 0 then [] else [{| m_a := i1; m_b := j1; m_size := k1 |}])
      ++ collapse (m_a x) (m_b x) (m_size x) rest
  end.

Definition get_matching_blocks : list Match :=
  let la := length a in
  let lb := length b in
  let matching_blocks :=
    blocks_loop (2 * la + 1) [(0, la, 0, lb)] [] in
  let matching_blocks := merge_sort match_le matching_blocks in
  collapse 0 0 0 matching_blocks
  ++ [{| m_a := la; m_b := lb; m_size := 0 |}].

(** [_calculate_ratio].  The source computes the quotient in binary64
    and compares quotients with each other and with the cutoff; the
    quotient is kept exact here.  For texts of fewer than 2^25
    characters two quotients [2*m/n] compare in binary64 as they do
    exactly, because distinct ones differ by more than two roundings;
    [binary64_agrees] checks it on short texts. *)
Definition _calculate_ratio (matches length : nat) : Q :=
  if length =? 0 then 1%Q
  else Qmake (2 * Z.of_nat matches) (Pos.of_nat length).

Definition ratio : Q :=
  let matches := sum_list (map m_size get_matching_blocks) in
  _calculate_ratio matches (length a + length b).

(** [quick_ratio]: [fullbcount] counts the elements of [b]; [avail[x]]
    is that count less the occurrences of [x] seen in [a] so far, and
    may go below zero. *)
Definition fullbcount : gmap Z Z :=
  fold_left
    (fun (m : gmap Z Z) elt => <[elt := (default 0 (m !! elt) + 1)%Z]> m)
    b ∅.

Definition quick_step (st : gmap Z Z * nat) (elt : Z) : gmap Z Z * nat :=
  let '(avail, matches) := st in
  let numb :=
    match avail !! elt with
    | Some n => n
    | None => default 0%Z (fullbcount !! elt)
    end in
  (<[elt := (numb - 1)%Z]> avail,
   if (0 <? numb)%Z then matches + 1 else matches).

Definition quick_matches : nat := (fold_left quick_step a (∅, 0)).2.

Definition quick_ratio : Q :=
  _calculate_ratio quick_matches (length a + length b).

Definition real_quick_ratio : Q :=
  _calculate_ratio (Nat.min (length a) (length b)) (length a + length b).

End matcher.

(** Python's [>] on the tuples [(score, x)]. *)
Definition tuple_gt (p q : Q * str) : bool :=
  Qle_bool q.1 p.1
  && (negb (Qeq_bool q.1 p.1) || str_lt q.2 p.2).

(** [max(it)]: the first of the greatest elements. *)
Definition py_max (l : list (Q * str)) : option (Q * str) :=
  match l with
  | [] => None
  | x :: rest =>
    Some (fold_left (fun cur y => if tuple_gt y cur then y else cur) rest x)
  end.

(** [get_close_matches(word, possibilities, n=1, cutoff)]: [heapq]'s
    [nlargest(1, result)] is [max(result)]. *)
Definition get_close_matches (word : str) (possibilities : list str)
    (cutoff : Q) : list str :=
  let result :=
    omap (fun x =>
            if Qle_bool cutoff (real_quick_ratio x word)
               && Qle_bool cutoff (quick_ratio x word)
               && Qle_bool cutoff (ratio x word)
            then Some (ratio x word, x) else None)
         possibilities in
  match py_max result with
  | Some (_, x) => [x]
  | None => []
  end.

End Difflib.

(** ** The SQLite store

    The four tables of [_init_db], each a list of rows in rowid order.
    The column [created_at] (the clock at insertion) is read by no
    statement of the class and is not stored in the rows; it is listed in
    the schemas, against which column names are resolved. *)

Module Store.

Record main_category_row : Type := { mc_id : Z; mc_name : str }.

Record sub_category_row : Type :=
  { sc_id : Z; sc_main_category_id : Z; sc_name : str }.

Record receipt_row : Type :=
  { r_id : Z; r_store_name : str; r_date : str; r_total_amount : Z }.

Record item_row : Type :=
  { i_id : Z; i_receipt_id : Z; i_name : str;
    i_main_category_id : Z; i_sub_category_id : Z; i_amount : Z }.

#[global] Instance main_category_row_eq_dec : EqDecision main_category_row.
Proof. solve_decision. Defined.

#[global] Instance sub_category_row_eq_dec : EqDecision sub_category_row.
Proof. solve_decision. Defined.

(** The content of the database file.  The [seq_] fields are the rows of
    [sqlite_sequence]: the largest id each AUTOINCREMENT table ever
    held. *)
Record database : Type :=
  { main_categories : list main_category_row;
    sub_categories : list sub_category_row;
    receipts : list receipt_row;
    items : list item_row;
    seq_main_categories : Z;
    seq_sub_categories : Z;
    seq_receipts : Z;
    seq_items : Z }.

(** Column names, as [CREATE TABLE] declares them. *)
Definition receipts_columns : list string :=
  ["id"; "store_name"; "date"; "total_amount"; "created_at"]%string.

(** Binding a Python [int]: SQLite integers are signed 64-bit, a larger
    one raises [OverflowError]. *)
Definition int64_ok (n : Z) : bool :=
  ((- 2 ^ 63 <=? n) && (n <? 2 ^ 63))%Z.

(** Binding a Python [str]: it is encoded in UTF-8, which a surrogate
    code point does not have. *)
Definition encodable (s : str) : bool :=
  forallb (fun c => ((0 <=? c) && (c <? 55296)
                     || (57344 <=? c) && (c <=? 1114111))%Z) s.

(** The id an AUTOINCREMENT table gives its next row; there is none
    once the largest 64-bit integer was used. *)
Definition next_id (seq : Z) (ids : list Z) : option Z :=
  let n := (fold_right Z.max seq ids + 1)%Z in
  if int64_ok n then Some n else None.

(** [INSERT INTO receipts (store_name, date, total_amount) VALUES
    (?, ?, ?)] and [cursor.lastrowid]; [None] when the statement
    raises. *)
Definition insert_receipt (db : database) (store_name date : str)
    (total_amount : Z) : option (Z * database) :=
  if encodable store_name && encodable date && int64_ok total_amount then
    match next_id (seq_receipts db) (map r_id (receipts db)) with
    | Some id =>
      Some (id,
            {| main_categories := main_categories db;
               sub_categories := sub_categories db;
               receipts := receipts db
                 ++ [{| r_id := id; r_store_name := store_name;
                        r_date := date; r_total_amount := total_amount |}];
               items := items db;
               seq_main_categories := seq_main_categories db;
               seq_sub_categories := seq_sub_categories db;
               seq_receipts := id;
               seq_items := seq_items db |})
    | None => None
    end
  else None.

(** [INSERT INTO items (receipt_id, name, main_category_id,
    sub_category_id, amount) VALUES (?, ?, ?, ?, ?)].  The foreign keys
    of the schema are not enforced: the connection never turns
    [PRAGMA foreign_keys] on. *)
Definition insert_item (db : database) (receipt_id : Z) (name : str)
    (main_id sub_id amount : Z) : option database :=
  if int64_ok receipt_id && encodable name && int64_ok main_id
     && int64_ok sub_id && int64_ok amount then
    match next_id (seq_items db) (map i_id (items db)) with
    | Some id =>
      Some {| main_categories := main_categories db;
              sub_categories := sub_categories db;
              receipts := receipts db;
              items := items db
                ++ [{| i_id := id; i_receipt_id := receipt_id;
                       i_name := name; i_main_category_id := main_id;
                       i_sub_category_id := sub_id; i_amount := amount |}];
              seq_main_categories := seq_main_categories db;
              seq_sub_categories := seq_sub_categories db;
              seq_receipts := seq_receipts db;
              seq_items := id |}
    | None => None
    end
  else None.

(** [UPDATE receipts SET store_name = ?, date = ?, total_amount = ?
    WHERE id = ?] *)
Definition update_receipt_row (db : database) (receipt_id : Z)
    (store_name date : str) (total_amount : Z) : option database :=
  if encodable store_name && encodable date && int64_ok total_amount
     && int64_ok receipt_id then
    Some {| main_categories := main_categories db;
            sub_categories := sub_categories db;
            receipts :=
              map (fun r =>
                     if (r_id r =? receipt_id)%Z
                     then {| r_id := r_id r; r_store_name := store_name;
                             r_date := date;
                             r_total_amount := total_amount |}
                     else r) (receipts db);
            items := items db;
            seq_main_categories := seq_main_categories db;
            seq_sub_categories := seq_sub_categories db;
            seq_receipts := seq_receipts db;
            seq_items := seq_items db |}
  else None.

(** [DELETE FROM items WHERE receipt_id = ?] *)
Definition delete_items (db : database) (receipt_id : Z) : database :=
  {| main_categories := main_categories db;
     sub_categories := sub_categories db;
     receipts := receipts db;
     items := filter (fun i => i_receipt_id i <> receipt_id) (items db);
     seq_main_categories := seq_main_categories db;
     seq_sub_categories := seq_sub_categories db;
     seq_receipts := seq_receipts db;
     seq_items := seq_items db |}.

(** [INSERT OR IGNORE INTO main_categories (name) VALUES (?)]: the
    row is dropped when the name is taken ([name] is UNIQUE). *)
Definition insert_main_category (db : database) (name : str) : database :=
  if existsb (fun r => bool_decide (mc_name r = name)) (main_categories db)
  then db
  else
    match next_id (seq_main_categories db)
                  (map mc_id (main_categories db)) with
    | Some id =>
      {| main_categories := main_categories db
           ++ [{| mc_id := id; mc_name := name |}];
         sub_categories := sub_categories db;
         receipts := receipts db;
         items := items db;
         seq_main_categories := id;
         seq_sub_categories := seq_sub_categories db;
         seq_receipts := seq_receipts db;
         seq_items := seq_items db |}
    | None => db
    end.

(** [INSERT OR IGNORE INTO sub_categories (main_category_id, name)
    SELECT id, ? FROM main_categories WHERE name = ?]: one row for the
    main category of that name, dropped when the pair is taken. *)
Definition insert_sub_category (db : database) (sub_cat main_cat : str)
  : database :=
  match List.find (fun r => bool_decide (mc_name r = main_cat))
                  (main_categories db) with
  | None => db
  | Some m =>
    if existsb (fun r => (sc_main_category_id r =? mc_id m)%Z
                         && bool_decide (sc_name r = sub_cat))
               (sub_categories db)
    then db
    else
      match next_id (seq_sub_categories db)
                    (map sc_id (sub_categories db)) with
      | Some id =>
        {| main_categories := main_categories db;
           sub_categories := sub_categories db
             ++ [{| sc_id := id; sc_main_category_id := mc_id m;
                    sc_name := sub_cat |}];
           receipts := receipts db;
           items := items db;
           seq_main_categories := seq_main_categories db;
           seq_sub_categories := id;
           seq_receipts := seq_receipts db;
           seq_items := seq_items db |}
      | None => db
      end
  end.

(** The file after the [DROP TABLE] and [CREATE TABLE] statements. *)
Definition empty_database : database :=
  {| main_categories := []; sub_categories := []; receipts := [];
     items := []; seq_main_categories := 0; seq_sub_categories := 0;
     seq_receipts := 0; seq_items := 0 |}.

End Store.

Import Store.

(** ** [DbCategorizer] *)

(** A [dict] with [str] keys, in insertion order. *)
Definition dict_get {K V : Type} `{EqDecision K} (d : list (K * V)) (key : K)
  : option V :=
  match List.find (fun p => bool_decide (p.1 = key)) d with
  | Some p => Some p.2
  | None => None
  end.

(** [d[key] = v]: an existing key keeps its place. *)
Fixpoint dict_set {K V : Type} `{EqDecision K} (d : list (K * V)) (key : K)
    (v : V) : list (K * V) :=
  match d with
  | [] => [(key, v)]
  | p :: rest =>
    if bool_decide (p.1 = key) then (key, v) :: rest
    else p :: dict_set rest key v
  end.

(** The (category, subcategory) pairs of a category table. *)
Definition pairs (table : list (str * list str)) : list (str * str) :=
  '(cat, subs) ← table; sub ← subs; [(cat, sub)].

(** [self.valid_categories], set in [__init__]. *)
Definition valid_categories : list (str * list str) :=
  [ (u "미용", [u "피부 미용"; u "헤어"; u "화장"]);
    (u "쇼핑", [u "생필품"; u "의류"; u "가전"; u "가구"; u "식재료";
                u "장난감"; u "화장품"; u "스마트기기"]);
    (u "교통", [u "택시"; u "대중교통"; u "여객선"; u "기차"; u "항공기";
                u "주유"]);
    (u "의료", [u "약품"; u "진료"]);
    (u "여행", [u "식비"; u "숙박비"; u "티켓"]);
    (u "음식", [u "아침"; u "점심"; u "저녁"; u "간식"; u "음료"; u "과일";
                u "디저트"; u "유제품"]);
    (u "취미", [u "게임"; u "영화"; u "공연"; u "놀이공원"; u "운동";
                u "도서"]);
    (u "투자", [u "교육"; u "보험"; u "주식"; u "부동산"; u "신용카드"]);
    (u "공과금", [u "통신비"; u "전기세"; u "가스비"; u "구독료"; u "멤버십";
                  u "인터넷 요금"; u "휴대폰 요금"; u "세금"]) ].

(** The table local to [_is_valid_category]. *)
Definition parser_categories : list (str * list str) :=
  [ (u "음식", [u "음료"; u "간식"; u "아침"; u "점심"; u "저녁"; u "디저트";
                u "과일"; u "유제품"]);
    (u "쇼핑", [u "생필품"; u "의류"; u "가전"; u "가구"; u "식재료";
                u "장난감"; u "화장품"; u "스마트기기"]);
    (u "교통", [u "택시"; u "대중교통"; u "여객선"; u "기차"; u "항공기";
                u "주유"]);
    (u "미용", [u "피부 미용"; u "헤어"; u "화장"; u "세정"]);
    (u "취미", [u "게임"; u "영화"; u "공연"; u "놀이공원"; u "운동";
                u "도서"]) ].

Definition _is_valid_category (category subcategory : str) : bool :=
  let category := strip category in
  let subcategory := strip subcategory in
  match dict_get parser_categories category with
  | None => false
  | Some subs => bool_decide (subcategory ∈ subs)
  end.

(** [_init_db]: the tables are dropped, created again and seeded from
    [valid_categories]. *)
Definition _init_db : database :=
  let db :=
    fold_left (fun db cat => insert_main_category db cat)
              (map fst valid_categories) empty_database in
  fold_left
    (fun db '(main_cat, sub_cats) =>
       fold_left (fun db sub_cat => insert_sub_category db sub_cat main_cat)
                 sub_cats db)
    valid_categories db.

(** [_get_category_ids]; [(None, None)] is also what its [except] clause
    returns when a text cannot be bound. *)
Definition _get_category_ids (db : database) (main_category sub_category : str)
  : option Z * option Z :=
  if encodable main_category then
    match List.find (fun r => bool_decide (mc_name r = main_category))
                    (main_categories db) with
    | None => (None, None)
    | Some m =>
      if encodable sub_category then
        (Some (mc_id m),
         match List.find
                 (fun r => (sc_main_category_id r =? mc_id m)%Z
                           && bool_decide (sc_name r = sub_category))
                 (sub_categories db) with
         | Some s => Some (sc_id s)
         | None => None
         end)
      else (None, None)
    end
  else (None, None).

(** An element of the [items] argument. *)
Record item : Type :=
  { name : str; category : str; subcategory : str; amount : Z }.

(** Truth value of an id or [None]. *)
Definition truthy (x : option Z) : bool :=
  match x with
  | Some n => negb (n =? 0)%Z
  | None => false
  end.

(** The resolution of one item, the same text in [add_receipt] and in
    [update_receipt]: the exact lookup, then the closest subcategory of
    the category at cutoff 0.4.  [db] is the committed content: the
    lookups run on a connection of their own. *)
Definition resolve (db : database) (it : item) : option (Z * Z) :=
  let ids := _get_category_ids db (category it) (subcategory it) in
  let ids :=
    if negb (truthy ids.1 && truthy ids.2) then
      let valid_subcats :=
        default [] (dict_get valid_categories (category it)) in
      match Difflib.get_close_matches (subcategory it) valid_subcats (2 # 5)
      with
      | best :: _ => _get_category_ids db (category it) best
      | [] => ids
      end
    else ids in
  match ids with
  | (Some main_id, Some sub_id) =>
    if truthy ids.1 && truthy ids.2 then Some (main_id, sub_id) else None
  | _ => None
  end.

(** How the [for item in items] loop ends: after the last item, at the
    [return] of the [else] branch, or by an exception. *)
Inductive loop_end : Type :=
| Completed (db : database)
| Unresolved (db : database)
| Raised.

Fixpoint insert_items (committed : database) (receipt_id : Z)
    (items : list item) (db : database) : loop_end :=
  match items with
  | [] => Completed db
  | it :: rest =>
    match resolve committed it with
    | Some (main_id, sub_id) =>
      match insert_item db receipt_id (name it) main_id sub_id (amount it) with
      | Some db1 => insert_items committed receipt_id rest db1
      | None => Raised
      end
    | None => Unresolved db
    end
  end.

(** [add_receipt].  Leaving the [with] block by [return] commits, leaving
    it by an exception rolls back. *)
Definition add_receipt (db : database) (store_name date : str)
    (items : list item) (total_amount : Z) : option Z * database :=
  match insert_receipt db store_name date total_amount with
  | None => (None, db)
  | Some (receipt_id, db1) =>
    match insert_items db receipt_id items db1 with
    | Completed db2 => (Some receipt_id, db2)
    | Unresolved db2 => (None, db2)
    | Raised => (None, db)
    end
  end.

(** [update_receipt] *)
Definition update_receipt (db : database) (receipt_id : Z)
    (store_name date : str) (items : list item) (total_amount : Z)
  : bool * database :=
  match update_receipt_row db receipt_id store_name date total_amount with
  | None => (false, db)
  | Some db1 =>
    match insert_items db receipt_id items (delete_items db1 receipt_id) with
    | Completed db2 => (true, db2)
    | Unresolved db2 => (false, db2)
    | Raised => (false, db)
    end
  end.

(** *** Aggregation *)

(** A value read from a column. *)
Inductive value : Type :=
| VNull
| VInt (n : Z)
| VText (s : str).

#[global] Instance value_eq_dec : EqDecision value.
Proof. solve_decision. Defined.

(** The columns of a [receipts] row the rows of this model store. *)
Definition receipt_column (r : receipt_row) (c : string) : value :=
  if bool_decide (c = "id"%string) then VInt (r_id r)
  else if bool_decide (c = "store_name"%string) then VText (r_store_name r)
  else if bool_decide (c = "date"%string) then VText (r_date r)
  else if bool_decide (c = "total_amount"%string) then VInt (r_total_amount r)
  else VNull.

(** Preparing a statement fails with [sqlite3.OperationalError] ("no
    such column") unless every column it names is in the schema. *)
Definition columns_exist (schema cols : list string) : bool :=
  forallb (fun c => bool_decide (c ∈ schema)) cols.

(** Order of [TEXT] and of a nullable [TEXT]: NULL sorts first. *)
Definition text_le (x y : str) : Prop := str_lt y x = false.

#[global] Instance text_le_dec x y : Decision (text_le x y).
Proof. unfold text_le. apply _. Defined.

Definition null_text_lt (x y : option str) : bool :=
  match x, y with
  | None, Some _ => true
  | Some a, Some b => str_lt a b
  | _, None => false
  end.

(** [ORDER BY period] on the nullable period. *)
Definition period_asc (x y : option str) : Prop := null_text_lt y x = false.

#[global] Instance period_asc_dec x y : Decision (period_asc x y).
Proof. unfold period_asc. apply _. Defined.

(** [ORDER BY date DESC] on [receipts]. *)
Definition date_desc (x y : receipt_row) : Prop :=
  text_le (r_date y) (r_date x).

#[global] Instance date_desc_dec x y : Decision (date_desc x y).
Proof. unfold date_desc. apply _. Defined.

(** [SUM] over 64-bit integers, which fails on overflow. *)
Definition sum_int64 (l : list Z) : option Z :=
  fold_left
    (fun acc v =>
       match acc with
       | Some s => if int64_ok (s + v) then Some (s + v)%Z else None
       | None => None
       end)
    l (Some 0%Z).

(** The date format of a period name: the [dict] literal with its
    [.get(period, '%Y-%m')]. *)
Definition date_format (period : str) : str :=
  default (u "%Y-%m")
    (dict_get [ (u "daily", u "%Y-%m-%d"); (u "monthly", u "%Y-%m");
                (u "yearly", u "%Y") ] period).

(** A row of [receipts r JOIN items i JOIN main_categories mc JOIN
    sub_categories sc] with the selected expressions. *)
Record joined_row : Type :=
  { j_period : option str; j_main_category : str; j_sub_category : str;
    j_amount : Z }.

(** A row of the grouped result. *)
Record group_row : Type :=
  { g_period : option str; g_main_category : str; g_sub_category : str;
    g_count : Z; g_total_amount : Z }.

Definition group_key (j : joined_row) : option str * str * str :=
  (j_period j, j_main_category j, j_sub_category j).

(** Keys in order of first appearance. *)
Fixpoint distinct {K : Type} `{EqDecision K} (seen l : list K) : list K :=
  match l with
  | [] => []
  | x :: r =>
    if bool_decide (x ∈ seen) then distinct seen r
    else x :: distinct (x :: seen) r
  end.

(** [ORDER BY period DESC, total_amount DESC]: [x] may come before [y]. *)
Definition stat_order (x y : group_row) : Prop :=
  null_text_lt (g_period y) (g_period x) = true
  \/ (g_period x = g_period y /\ (g_total_amount y <= g_total_amount x)%Z).

#[global] Instance stat_order_dec x y : Decision (stat_order x y).
Proof. unfold stat_order. apply _. Defined.

(** The nested result of [get_statistics]. *)
Record leaf_stats : Type := { count : Z; leaf_total_amount : Z }.

Record category_stats : Type :=
  { cat_total_amount : Z; subcategories : list (str * leaf_stats) }.

Record period_stats : Type :=
  { total_amount : Z; categories : list (str * category_stats) }.

(** The body of [for row in results]. *)
Definition add_stat_row (stats : list (option str * period_stats))
    (row : group_row) : list (option str * period_stats) :=
  let period := g_period row in
  let main_cat := g_main_category row in
  let total := g_total_amount row in
  let p :=
    default {| total_amount := 0; categories := [] |}
            (dict_get stats period) in
  let c :=
    default {| cat_total_amount := 0; subcategories := [] |}
            (dict_get (categories p) main_cat) in
  let c :=
    {| cat_total_amount := (cat_total_amount c + total)%Z;
       subcategories :=
         dict_set (subcategories c) (g_sub_category row)
           {| count := g_count row; leaf_total_amount := total |} |} in
  dict_set stats period
    {| total_amount := (total_amount p + total)%Z;
       categories := dict_set (categories p) main_cat c |}.

Section aggregation.

(** SQLite's [strftime(format, timestring)]; [None] is NULL. *)
Variable strftime : str -> str -> option str.

(** The rows the joins give for one receipt. *)
Definition receipt_rows (fmt : str) (db : database) (r : receipt_row)
  : list joined_row :=
  i ← filter (fun i => i_receipt_id i = r_id r) (items db);
  mc ← filter (fun m => mc_id m = i_main_category_id i) (main_categories db);
  sc ← filter (fun s => sc_id s = i_sub_category_id i) (sub_categories db);
  [ {| j_period := strftime fmt (r_date r); j_main_category := mc_name mc;
       j_sub_category := sc_name sc; j_amount := i_amount i |} ].

Definition joined_rows (fmt : str) (db : database) : list joined_row :=
  r ← receipts db; receipt_rows fmt db r.

(** [GROUP BY period, main_category, sub_category] with [COUNT] and
    [SUM]; [None] when a sum overflows.  Groups that tie on both keys
    of the [ORDER BY] stay in order of first appearance (SQL leaves
    their order open). *)
Definition grouped_rows (rows : list joined_row) : option (list group_row) :=
  mapM (fun key =>
          let members := filter (fun j => group_key j = key) rows in
          total ← sum_int64 (map j_amount members);
          Some {| g_period := key.1.1; g_main_category := key.1.2;
                  g_sub_category := key.2;
                  g_count := Z.of_nat (length members);
                  g_total_amount := total |})
       (distinct [] (map group_key rows)).

(** [get_statistics]; [None] from the [except] clause. *)
Definition get_statistics (db : database) (period : str)
  : option (list (option str * period_stats)) :=
  match grouped_rows (joined_rows (date_format period) db) with
  | Some groups =>
    Some (fold_left add_stat_row (merge_sort stat_order groups) [])
  | None => None
  end.

(** [get_receipts].  The statement names the columns [category] and
    [subcategory]; [sqlite3.OperationalError] is an [sqlite3.Error],
    for which the function returns the empty list. *)
Record receipt_dict : Type :=
  { rd_store_name : value; rd_date : value; rd_total_amount : value;
    rd_category : value; rd_subcategory : value }.

Definition get_receipts (db : database) : list receipt_dict :=
  if columns_exist receipts_columns
       ["store_name"; "date"; "total_amount"; "category"; "subcategory";
        "date"]%string
  then
    map (fun r =>
           {| rd_store_name := receipt_column r "store_name";
              rd_date := receipt_column r "date";
              rd_total_amount := receipt_column r "total_amount";
              rd_category := receipt_column r "category";
              rd_subcategory := receipt_column r "subcategory" |})
        (merge_sort date_desc (receipts db))
  else [].

(** [get_expense_trends].  The statement reads [date], [amount] and,
    with a category, [category] from [receipts]. *)
Record trends : Type :=
  { periods : list (option str); amounts : list Z; total : Z }.

Definition int_of_value (v : value) : option Z :=
  match v with VInt n => Some n | _ => None end.

Definition get_expense_trends (db : database) (category : option str)
    (period : str) : option trends :=
  let fmt := date_format period in
  let filtered := match category with Some (_ :: _) => true | _ => false end in
  if columns_exist receipts_columns
       (if filtered
        then ["date"%string; "amount"%string; "category"%string]
        else ["date"%string; "amount"%string])
  then
    let rows :=
      filter (fun r => filtered = false
                       \/ Some (receipt_column r "category")
                          = VText <$> category) (receipts db) in
    let keys :=
      merge_sort period_asc
        (distinct [] (map (fun r => strftime fmt (r_date r)) rows)) in
    results ←
      mapM (fun key =>
              amount ←
                mapM (fun r => int_of_value (receipt_column r "amount"))
                     (filter (fun r => strftime fmt (r_date r) = key) rows)
                ≫= sum_int64;
              Some (key, amount)) keys;
    Some {| periods := map fst results; amounts := map snd results;
            total := fold_left Z.add (map snd results) 0%Z |}
  else None.

End aggregation.

(** *** The parser of [process_receipt] *)

Import Re.

(** [\d{4}-\d{2}-\d{2}] *)
Definition date_pattern : regex :=
  let d := Cls isdecimal in
  Cat d (Cat d (Cat d (Cat d (Cat (Lit 45)
    (Cat d (Cat d (Cat (Lit 45) (Cat d d)))))))).

(** [\(([^)]+)\)] *)
Definition amount_pattern : regex :=
  Cat (Lit 40) (Cat (Grp (Plus (Cls (fun c => negb (c =? 41)%Z)))) (Lit 41)).

(** The tail every total pattern shares: [\s*[:：]?\s*([\d,\s]+)] *)
Definition total_tail : regex :=
  let ws := Star (Cls isspace) in
  Cat ws
    (Cat (Opt (Cls (fun c => (c =? 58) || (c =? 65306))%Z))
       (Cat ws
          (Grp (Plus (Cls (fun c => isdecimal c || (c =? 44)%Z
                                    || isspace c)))))).

Definition total_patterns : list regex :=
  let ws := Star (Cls isspace) in
  [ Cat (Lits (u "총")) (Cat ws (Cat (Lits (u "결제"))
      (Cat ws (Cat (Lits (u "금액")) total_tail))));
    Cat (Lits (u "총결제금액")) total_tail;
    Cat (Lits (u "합계")) total_tail;
    Cat (Lits (u "총액")) total_tail;
    Cat (Lits (u "결제금액")) total_tail;
    Cat (Lits (u "총금액")) total_tail ].

Definition _parse_store_name (line : str) : str :=
  let line := strip (replace (u "가게명:") [] line) in
  strip (sub date_pattern [] line).

Definition _parse_date (line : str) : option str :=
  let line := strip (replace (u "날짜:") [] line) in
  match search date_pattern line with
  | Some m => Some (group0 m)
  | None => None
  end.

(** A statement that may raise: [Exn] is the exception reaching the
    [except] clause of [process_receipt]. *)
Inductive result (A : Type) : Type :=
| Ok (x : A)
| Exn.

Arguments Ok {A} x.
Arguments Exn {A}.

(** [for pattern in patterns: match = re.search(pattern, text); if match:
    total_amount = int(...); break] *)
Fixpoint scan_total (patterns : list regex) (text : str)
    (total_amount : option Z) : result (option Z) :=
  match patterns with
  | [] => Ok total_amount
  | pattern :: rest =>
    match search pattern text with
    | Some m =>
      match int (replace (u " ") [] (replace (u ",") []
                   (default [] (group1 m)))) with
      | Some n => Ok (Some n)
      | None => Exn
      end
    | None => scan_total rest text total_amount
    end
  end.

(** The four variables of the line loop. *)
Record draft : Type :=
  { d_store_name : option str; d_date : option str; d_items : list item;
    d_total_amount : option Z }.

Definition str_truthy (s : option str) : bool :=
  match s with
  | Some (_ :: _) => true
  | _ => false
  end.

(** The item branch: [None] when the line adds no item. *)
Definition parse_item (line : str) : result (option item) :=
  if contains (u ":") line && contains (u "(") line && contains (u ")") line
  then
    let parts := split (u ":") line in
    if 3 <=? length parts then
      let item_name := strip (nth 0 parts []) in
      let category := strip (nth 1 parts []) in
      let subcategory := strip (nth 0 (split (u "(") (nth 2 parts [])) []) in
      match search amount_pattern line with
      | Some amount_str =>
        match int (replace (u "원") [] (replace (u ",") []
                     (default [] (group1 amount_str)))) with
        | Some amount =>
          if _is_valid_category category subcategory
          then Ok (Some {| name := item_name; category := category;
                           subcategory := subcategory; amount := amount |})
          else Ok None
        | None => Exn
        end
      | None => Ok None
      end
    else Ok None
  else Ok None.

(** The part of the loop body after the store name and the date: the
    item, then the total.  The closing [if total_amount: continue] is the
    last statement of the body and changes nothing. *)
Definition parse_item_total (d : draft) (line : str) : result draft :=
  match parse_item line with
  | Exn => Exn
  | Ok it =>
    let items :=
      match it with
      | Some i => d_items d ++ [i]
      | None => d_items d
      end in
    match scan_total total_patterns line (d_total_amount d) with
    | Exn => Exn
    | Ok total_amount =>
      Ok {| d_store_name := d_store_name d; d_date := d_date d;
            d_items := items; d_total_amount := total_amount |}
    end
  end.

(** The date branch and what follows it. *)
Definition parse_date_on (d : draft) (line : str) : result draft :=
  if negb (str_truthy (d_date d))
     && (contains (u "날짜:") line
         || match search date_pattern line with
            | Some _ => true
            | None => false
            end)
  then
    let d := {| d_store_name := d_store_name d; d_date := _parse_date line;
                d_items := d_items d; d_total_amount := d_total_amount d |} in
    if str_truthy (d_date d) then Ok d else parse_item_total d line
  else parse_item_total d line.

(** One pass of [for line in lines]. *)
Definition parse_line (d : draft) (line : str) : result draft :=
  let line := strip line in
  match line with
  | [] => Ok d
  | _ :: _ =>
    if negb (str_truthy (d_store_name d))
       && (contains (u "가게명:") line || negb (existsb isdigit line))
    then
      let d := {| d_store_name := Some (_parse_store_name line);
                  d_date := d_date d; d_items := d_items d;
                  d_total_amount := d_total_amount d |} in
      if str_truthy (d_store_name d) then Ok d else parse_date_on d line
    else parse_date_on d line
  end.

Fixpoint parse_lines (d : draft) (lines : list str) : result draft :=
  match lines with
  | [] => Ok d
  | line :: rest =>
    match parse_line d line with
    | Ok d1 => parse_lines d1 rest
    | Exn => Exn
    end
  end.

(** The lines of the model's answer ([split('\n')], code point 10),
    parsed from the empty draft. *)
Definition parse_response (response : str) : result draft :=
  parse_lines {| d_store_name := None; d_date := None; d_items := [];
                 d_total_amount := None |}
              (split [10%Z] (strip response)).

(** [process_receipt], given what [_call_ollama_api] returned for the
    receipt text ([None] when the call failed). *)
Definition process_receipt (db : database) (response : option str)
    (receipt_text : str) : bool * database :=
  match response with
  | None | Some [] => (false, db)
  | Some ((_ :: _) as response) =>
    match parse_response response with
    | Exn => (false, db)
    | Ok d =>
      if negb (str_truthy (d_store_name d)) then (false, db)
      else if negb (str_truthy (d_date d)) then (false, db)
      else match d_items d with
      | [] => (false, db)
      | _ :: _ =>
        let total :=
          if truthy (d_total_amount d) then Ok (d_total_amount d)
          else scan_total total_patterns receipt_text (d_total_amount d) in
        match total with
        | Exn => (false, db)
        | Ok total_amount =>
          match total_amount with
          | Some total_amount =>
            if (total_amount =? 0)%Z then (false, db)
            else
              let '(result, db1) :=
                add_receipt db (default [] (d_store_name d))
                            (default [] (d_date d)) (d_items d) total_amount in
              (truthy result, db1)
          | None => (false, db)
          end
        end
      end
    end
  end.

(** ** Vocabulary of the properties *)

(** [s[lo:hi]] *)
Definition slice (s : str) (lo hi : nat) : str := take (hi - lo) (drop lo s).

(** The number of elements two texts share, as multisets. *)
Definition common (x y : str) : nat :=
  size (list_to_set_disj x ∩ list_to_set_disj y : gmultiset Z).

(** [a[i:i+k] == b[j:j+k]], element by element. *)
Definition agree (a b : str) (i j k : nat) : Prop :=
  forall t, t < k -> Difflib.getitem a (i + t) = Difflib.getitem b (j + t).

(** [m] is a matching block inside [a[alo:ahi]] and [b[blo:bhi]]. *)
Definition block_in (a b : str) (alo ahi blo bhi : nat) (m : Difflib.Match)
  : Prop :=
  alo <= Difflib.m_a m /\ Difflib.m_a m + Difflib.m_size m <= ahi
  /\ blo <= Difflib.m_b m /\ Difflib.m_b m + Difflib.m_size m <= bhi
  /\ agree a b (Difflib.m_a m) (Difflib.m_b m) (Difflib.m_size m).

(** The comment of the source on [j2len], at the start of iteration [i]:
    [j2len[j]] is the length of a match ending with [a[i-1]] and
    [b[j]]. *)
Definition j2len_ok (a b : str) (alo blo bhi i : nat) (j2len : gmap Z nat)
  : Prop :=
  forall z k,
    j2len !! z = Some k ->
    exists j, z = Z.of_nat j /\ 1 <= k /\ alo + k <= i /\ blo + k <= j + 1
              /\ j < bhi /\ agree a b (i - k) (j + 1 - k) k.

(** A queue entry of [get_matching_blocks] delimits two slices. *)
Definition range_ok (a b : str) (e : nat * nat * nat * nat) : Prop :=
  e.1.1.1 <= e.1.1.2 <= length a /\ e.1.2 <= e.2 <= length b.

(** What the queue entry can still contribute, and the bound on the
    iterations it can still cause. *)
Definition range_common (a b : str) (e : nat * nat * nat * nat) : nat :=
  common (slice a e.1.1.1 e.1.1.2) (slice b e.1.2 e.2).

Definition range_fuel (e : nat * nat * nat * nat) : nat :=
  2 * (e.1.1.2 - e.1.1.1) + 1.

(** What [strftime] gives for the three formats of the source on a text
    that is a calendar date written [YYYY-MM-DD]: the leading part of
    the text.  It stands for SQLite's function on such dates only. *)
Definition strftime_of_date (fmt date : str) : option str :=
  if bool_decide (fmt = u "%Y") then Some (take 4 date)
  else if bool_decide (fmt = u "%Y-%m") then Some (take 7 date)
  else if bool_decide (fmt = u "%Y-%m-%d") then Some (take 10 date)
  else None.

(** [db1] differs from [db] in the [items] table at most. *)
Definition items_only (db db1 : database) : Prop :=
  main_categories db1 = main_categories db
  /\ sub_categories db1 = sub_categories db
  /\ receipts db1 = receipts db
  /\ seq_receipts db1 = seq_receipts db.

(** Row [r] is what the loop inserts for item [x] of receipt [id]. *)
Definition row_of (committed : database) (id : Z) (r : item_row) (x : item)
  : Prop :=
  i_receipt_id r = id /\ i_name r = name x /\ i_amount r = amount x
  /\ resolve committed x = Some (i_main_category_id r, i_sub_category_id r).

(** The joined row of an item of March 2024. *)
Definition march_row (cat sub : str) (amount : Z) : joined_row :=
  {| j_period := Some (u "2024-03"); j_main_category := cat;
     j_sub_category := sub; j_amount := amount |}.

(** [_calculate_ratio] as the source computes it, in binary64, and the
    cutoff [0.4] as Python reads it (the nearest binary64 number). *)
Definition float_of_nat (n : nat) : float :=
  PrimFloat.of_uint63 (Uint63.of_Z (Z.of_nat n)).

Definition binary64_ratio (matches length : nat) : float :=
  if length =? 0 then 1%float
  else (2 * float_of_nat matches / float_of_nat length)%float.

Definition binary64_cutoff : float := 0x1.999999999999ap-2%float.

(** The exact quotient and the binary64 quotient pass the cutoff
    together, for all lengths below [n]. *)
Definition cutoff_agrees (n : nat) : bool :=
  forallb
    (fun length =>
       forallb
         (fun matches =>
            Bool.eqb
              (PrimFloat.leb binary64_cutoff (binary64_ratio matches length))
              (Qle_bool (2 # 5) (Difflib._calculate_ratio matches length)))
         (seq 0 (length + 1)))
    (seq 0 n).

(** Two exact quotients and their binary64 quotients compare alike, for
    all lengths below [n]. *)
Definition order_agrees (n : nat) : bool :=
  forallb
    (fun length1 =>
       forallb
         (fun matches1 =>
            forallb
              (fun length2 =>
                 forallb
                   (fun matches2 =>
                      Bool.eqb
                        (PrimFloat.leb (binary64_ratio matches1 length1)
                                       (binary64_ratio matches2 length2))
                        (Qle_bool
                           (Difflib._calculate_ratio matches1 length1)
                           (Difflib._calculate_ratio matches2 length2)))
                   (seq 0 (length2 + 1)))
              (seq 0 n))
         (seq 0 (length1 + 1)))
    (seq 0 n).

(** [y] is a subcategory of [subs] that no other one of [subs] beats in
    similarity ([ratio]) to [word]. *)
Definition closest (word : str) (subs : list str) (y : str) : Prop :=
  y ∈ subs
  /\ forall z, z ∈ subs -> (Difflib.ratio z word <= Difflib.ratio y word)%Q.

(** A call of one of the two writing operations. *)
Inductive call : Type :=
| Add (store_name date : str) (items : list item) (total_amount : Z)
| Update (receipt_id : Z) (store_name date : str) (items : list item)
    (total_amount : Z).

Definition run_call (db : database) (c : call) : database :=
  match c with
  | Add store_name date items total_amount =>
    (add_receipt db store_name date items total_amount).2
  | Update receipt_id store_name date items total_amount =>
    (update_receipt db receipt_id store_name date items total_amount).2
  end.

(** The store after [_init_db] and a sequence of calls. *)
Definition run (calls : list call) : database :=
  fold_left run_call calls _init_db.

(** The subcategory of an item row belongs to the row's main category
    in [valid_categories]: the two ids are those of a seeded main
    category and of a seeded subcategory of it. *)
Definition item_in_taxonomy (db : database) (r : item_row) : Prop :=
  exists cat sub,
    (cat, sub) ∈ pairs valid_categories
    /\ {| mc_id := i_main_category_id r; mc_name := cat |}
       ∈ main_categories db
    /\ {| sc_id := i_sub_category_id r;
          sc_main_category_id := i_main_category_id r; sc_name := sub |}
       ∈ sub_categories db.

(** The category tables are as [_init_db] seeded them. *)
Definition seeded (db : database) : Prop :=
  main_categories db = main_categories _init_db
  /\ sub_categories db = sub_categories _init_db.

(** ** Further vocabulary *)

(** The largest id a table holds or ever held. *)
Definition largest_id (seq : Z) (ids : list Z) : Z := fold_right Z.max seq ids.

(** The table can still number [n] new rows. *)
Definition room (seq : Z) (ids : list Z) (n : nat) : Prop :=
  (0 <= seq)%Z /\ (largest_id seq ids + Z.of_nat n < 2 ^ 63)%Z.

(** The arguments of a call can be bound to a statement. *)
Definition receipt_bindable (store_name date : str) (total_amount : Z)
  : Prop :=
  encodable store_name = true /\ encodable date = true
  /\ int64_ok total_amount = true.

Definition item_bindable (it : item) : Prop :=
  encodable (name it) = true /\ int64_ok (amount it) = true.

(** The row [UPDATE receipts ... WHERE id = ?] leaves in place of [r]. *)
Definition updated_row (receipt_id : Z) (store_name date : str)
    (total_amount : Z) (r : receipt_row) : receipt_row :=
  if (r_id r =? receipt_id)%Z
  then {| r_id := r_id r; r_store_name := store_name; r_date := date;
          r_total_amount := total_amount |}
  else r.

(** Ten characters [dddd-dd-dd], [d] a decimal digit ([\d]). *)
Definition is_date_text (t : str) : bool :=
  match t with
  | [y1; y2; y3; y4; h1; m1; m2; h2; d1; d2] =>
    isdecimal y1 && isdecimal y2 && isdecimal y3 && isdecimal y4
    && (h1 =? 45)%Z && isdecimal m1 && isdecimal m2 && (h2 =? 45)%Z
    && isdecimal d1 && isdecimal d2
  | _ => false
  end.

(** The first character of a text, if any, is no white space. *)
Definition clean_head (s : str) : Prop :=
  match s with
  | [] => True
  | c :: _ => isspace c = false
  end.

(** What the line loop keeps true of its draft: a date, once found, has
    the shape of a date, and every item is a pair of the table of
    [_is_valid_category]. *)
Definition draft_ok (d : draft) : Prop :=
  (forall t, d_date d = Some t -> is_date_text t = true)
  /\ Forall (fun it => (category it, subcategory it) ∈ pairs parser_categories)
            (d_items d).

(** The draft [d1] continues the draft [d]: a store name and a date
    that were found are kept, and the items are kept in order. *)
Definition continues (d d1 : draft) : Prop :=
  (str_truthy (d_store_name d) = true -> d_store_name d1 = d_store_name d)
  /\ (str_truthy (d_date d) = true -> d_date d1 = d_date d)
  /\ exists more, d_items d1 = d_items d ++ more.

(** ** More of [DbCategorizer] *)

(** [self.category_index], the reverse index built in [__init__]: each
    subcategory name is assigned its category, a later assignment to the
    same name replacing the earlier one. *)
Definition category_index : list (str * str) :=
  fold_left
    (fun index '(cat, subcats) =>
       fold_left (fun index subcat => dict_set index subcat cat)
                 subcats index)
    valid_categories [].

Section prepared_statements.

(** SQLite's REAL as Python reads it, and what the two statements below
    would yield once prepared: the engine is not part of the source. *)
Variable real : Type.

(** A row of the statement of [get_expense_analysis]. *)
Record analysis_row : Type :=
  { a_period : option str; a_category : value; a_subcategory : value;
    a_count : Z; a_total_amount : Z; a_avg_amount : real }.

Variable analysis_rows : str -> database -> list analysis_row.

Record analysis_leaf : Type :=
  { al_count : Z; al_total_amount : Z; al_avg_amount : real }.

Record analysis_category : Type :=
  { ac_total_amount : Z; ac_subcategories : list (value * analysis_leaf) }.

Record analysis_period : Type :=
  { ap_total_amount : Z; ap_categories : list (value * analysis_category) }.

(** The body of [for row in results] in [get_expense_analysis]. *)
Definition add_analysis_row
    (analysis : list (option str * analysis_period)) (row : analysis_row)
  : list (option str * analysis_period) :=
  let period := a_period row in
  let total := a_total_amount row in
  let p :=
    default {| ap_total_amount := 0; ap_categories := [] |}
            (dict_get analysis period) in
  let c :=
    default {| ac_total_amount := 0; ac_subcategories := [] |}
            (dict_get (ap_categories p) (a_category row)) in
  let c :=
    {| ac_total_amount := (ac_total_amount c + total)%Z;
       ac_subcategories :=
         dict_set (ac_subcategories c) (a_subcategory row)
           {| al_count := a_count row; al_total_amount := total;
              al_avg_amount := a_avg_amount row |} |} in
  dict_set analysis period
    {| ap_total_amount := (ap_total_amount p + total)%Z;
       ap_categories := dict_set (ap_categories p) (a_category row) c |}.

(** [get_expense_analysis].  Its statement reads [date], [category],
    [subcategory] and [amount] from [receipts]; [None] from the
    [except] clause. *)
Definition get_expense_analysis (db : database) (period : str)
  : option (list (option str * analysis_period)) :=
  let fmt := date_format period in
  if columns_exist receipts_columns
       ["date"%string; "category"%string; "subcategory"%string;
        "amount"%string]
  then Some (fold_left add_analysis_row (analysis_rows fmt db) [])
  else None.

(** A row of the statement of [get_category_insights] and the entry the
    loop makes of it. *)
Record insight : Type :=
  { in_count : Z; in_total_amount : Z; in_avg_amount : real;
    in_min_amount : Z; in_max_amount : Z }.

Variable insight_rows : database -> list (value * insight).

(** [get_category_insights].  Its statement reads [category] and
    [amount] from [receipts]. *)
Definition get_category_insights (db : database)
  : option (list (value * insight)) :=
  if columns_exist receipts_columns ["category"%string; "amount"%string]
  then
    Some (fold_left (fun insights row => dict_set insights row.1 row.2)
                    (insight_rows db) [])
  else None.

End prepared_statements.

(** ** [save_receipt] of [server.py] *)

(** The JSON body of a request, with the keys the handler reads;
    [receipt_id] is [None] when the key is missing or null. *)
Record save_request : Type :=
  { sr_receipt_id : option Z; sr_store_name : str; sr_date : str;
    sr_items : list item; sr_total_amount : Z }.

(** The body of the answer, which is always sent with status 200. *)
Record save_response : Type :=
  { db_saved : bool; receipt_id : option Z }.

Definition save_receipt (db : database) (data : save_request)
  : save_response * database :=
  let added :=
    let '(id, db1) :=
      add_receipt db (sr_store_name data) (sr_date data) (sr_items data)
                  (sr_total_amount data) in
    ({| db_saved := match id with Some _ => true | None => false end;
        receipt_id := id |}, db1) in
  match sr_receipt_id data with
  | Some id =>
    if (id =? 0)%Z then added
    else
      let '(save_success, db1) :=
        update_receipt db id (sr_store_name data) (sr_date data)
                       (sr_items data) (sr_total_amount data) in
      ({| db_saved := save_success; receipt_id := Some id |}, db1)
  | None => added
  end.

(** A use of the store by one of its two callers. *)
Inductive request : Type :=
| Save (data : save_request)
| Process (response : option str) (receipt_text : str).

Definition serve (db : database) (r : request) : database :=
  match r with
  | Save data => (save_receipt db data).2
  | Process response receipt_text =>
    (process_receipt db response receipt_text).2
  end.

(** ** Roll-up of the statistics *)

Definition leaf_sum (c : category_stats) : Z :=
  fold_right Z.add 0%Z (map (fun e => leaf_total_amount e.2) (subcategories c)).

Definition category_sum (p : period_stats) : Z :=
  fold_right Z.add 0%Z (map (fun e => cat_total_amount e.2) (categories p)).

(** Every period total is the sum of its category totals and every
    category total the sum of its subcategory totals. *)
Definition rolled_up (stats : list (option str * period_stats)) : Prop :=
  Forall
    (fun e =>
       total_amount e.2 = category_sum e.2
       /\ Forall (fun c => cat_total_amount c.2 = leaf_sum c.2)
                 (categories e.2))
    stats.

(** The (period, category, subcategory) keys a result holds. *)
Definition leaves (stats : list (option str * period_stats))
  : list (option str * str * str) :=
  e ← stats; c ← categories e.2; l ← subcategories c.2; [(e.1, c.1, l.1)].

Definition group_row_key (g : group_row) : option str * str * str :=
  (g_period g, g_main_category g, g_sub_category g).


(** ** Numbering of the rows *)

(** The ids of an AUTOINCREMENT table: positive, increasing in the order
    of insertion, and none beyond the table's row of [sqlite_sequence]. *)
Definition numbered (seq : Z) (ids : list Z) : Prop :=
  (0 <= seq)%Z /\ StronglySorted Z.lt ids
  /\ Forall (fun i => (0 < i <= seq)%Z) ids.

Definition well_numbered (db : database) : Prop :=
  numbered (seq_receipts db) (map r_id (receipts db))
  /\ numbered (seq_items db) (map i_id (items db)).

(** The sum of the period totals of a result of [get_statistics]. *)
Definition grand_total (stats : list (option str * period_stats)) : Z :=
  fold_right Z.add 0%Z (map (fun e => total_amount e.2) stats).

(** The sum of a list of amounts. *)
Definition sum_amounts (l : list Z) : Z := fold_right Z.add 0%Z l.
(** * Properties *)

(** The constants and the resolution are unfolded on request only. *)
Arguments u : simpl never.
Arguments valid_categories : simpl never.
Arguments parser_categories : simpl never.
Arguments _init_db : simpl never.
Arguments resolve : simpl never.
Arguments Difflib.get_close_matches : simpl never.

(** ** Validation by the parser *)

Lemma forallb_elem_of {A : Type} (f : A -> bool) (l : list A) (x : A) :
  forallb f l = true -> x ∈ l -> f x = true.
Proof.
  intros Hall Hin. rewrite forallb_forall in Hall.
  apply Hall. now apply list_elem_of_In.
Qed.

(** Closes a decidable closed goal by evaluation. *)
Ltac by_evaluation := apply (bool_decide_unpack _); vm_compute; exact I.

(** C1, as stated, fails: the pair (의료, 약품) is seeded by
    [valid_categories] and rejected by [_is_valid_category], whose own
    table has five categories. *)
Lemma seeded_pair_rejected :
  (u "의료", u "약품") ∈ pairs valid_categories
  /\ _is_valid_category (u "의료") (u "약품") = false.
Proof.
  split.
  - by_evaluation.
  - vm_compute. reflexivity.
Qed.

(** C1, amended: every seeded pair whose category is one of the five
    categories of the parser's table is accepted by
    [_is_valid_category]. *)
Theorem seeded_pair_of_parser_category_valid (cat sub : str) :
  (cat, sub) ∈ pairs valid_categories ->
  cat ∈ map fst parser_categories ->
  _is_valid_category cat sub = true.
Proof.
  intros Hpair Hcat.
  assert (Hall : forallb
            (fun p => implb (bool_decide (p.1 ∈ map fst parser_categories))
                            (_is_valid_category p.1 p.2))
            (pairs valid_categories) = true) by (vm_compute; reflexivity).
  pose proof (forallb_elem_of _ _ _ Hall Hpair) as H. simpl in H.
  rewrite bool_decide_eq_true_2 in H by exact Hcat. exact H.
Qed.

(** The pair (음식, 음료) is seeded, of a category the parser knows, and
    accepted. *)
Lemma seeded_pair_of_parser_category_valid_witness :
  (u "음식", u "음료") ∈ pairs valid_categories
  /\ u "음식" ∈ map fst parser_categories
  /\ _is_valid_category (u "음식") (u "음료") = true.
Proof.
  assert (Hp : (u "음식", u "음료") ∈ pairs valid_categories)
    by by_evaluation.
  assert (Hc : u "음식" ∈ map fst parser_categories) by by_evaluation.
  split; [exact Hp|]. split; [exact Hc|].
  exact (seeded_pair_of_parser_category_valid (u "음식") (u "음료") Hp Hc).
Defined.

(** The seeded categories outside the parser's table are rejected with
    every subcategory. *)
Lemma seeded_pair_of_other_category_rejected (cat sub : str) :
  cat ∈ [u "의료"; u "여행"; u "투자"; u "공과금"] ->
  _is_valid_category cat sub = false.
Proof.
  intros Hcat. unfold _is_valid_category.
  destruct (dict_get parser_categories (strip cat)) as [subs|] eqn:Hget;
    [|reflexivity].
  exfalso.
  repeat (apply elem_of_cons in Hcat as [-> | Hcat];
          [vm_compute in Hget; discriminate|]).
  now apply elem_of_nil in Hcat.
Qed.

(** ** The item loop of [add_receipt] and [update_receipt] *)

Lemma items_only_refl db : items_only db db.
Proof. repeat split. Qed.

Lemma items_only_trans db db1 db2 :
  items_only db db1 -> items_only db1 db2 -> items_only db db2.
Proof.
  unfold items_only. intros (?&?&?&?) (?&?&?&?). repeat split; congruence.
Qed.

Lemma insert_item_inv db id nm m s a db1 :
  insert_item db id nm m s a = Some db1 ->
  items_only db db1
  /\ exists k, items db1
       = items db ++ [{| i_id := k; i_receipt_id := id; i_name := nm;
                         i_main_category_id := m; i_sub_category_id := s;
                         i_amount := a |}].
Proof.
  unfold insert_item. intros H.
  destruct (_ && _); [|discriminate].
  destruct (next_id _ _) as [k|]; [|discriminate].
  injection H as <-. split; [repeat split|]. now exists k.
Qed.

Lemma insert_items_completed committed id its :
  forall db db1,
    insert_items committed id its db = Completed db1 ->
    items_only db db1
    /\ exists rows, items db1 = items db ++ rows
                    /\ Forall2 (row_of committed id) rows its.
Proof.
  induction its as [|x its IH]; simpl; intros db db1 H.
  - injection H as <-. split; [apply items_only_refl|].
    exists []. rewrite app_nil_r. split; [reflexivity|constructor].
  - destruct (resolve committed x) as [[m s]|] eqn:Hres; [|discriminate].
    destruct (insert_item db id (name x) m s (amount x)) as [db0|] eqn:Hins;
      [|discriminate].
    apply insert_item_inv in Hins as [Hframe [k Hk]].
    apply IH in H as [Hframe1 (rows & Hrows & Hall)].
    split; [eapply items_only_trans; eassumption|].
    eexists (_ :: rows). split.
    + rewrite Hrows, Hk, <- app_assoc. reflexivity.
    + constructor; [|exact Hall]. repeat split; simpl. exact Hres.
Qed.

Lemma insert_items_unresolved committed id pre x post :
  Forall (fun y => is_Some (resolve committed y)) pre ->
  resolve committed x = None ->
  forall db,
    insert_items committed id (pre ++ x :: post) db = Raised
    \/ exists db1,
         insert_items committed id (pre ++ x :: post) db = Unresolved db1
         /\ items_only db db1
         /\ exists rows, items db1 = items db ++ rows
                         /\ Forall2 (row_of committed id) rows pre.
Proof.
  intros Hpre Hx. induction Hpre as [|y pre [[m s] Hy] _ IH]; simpl; intros db.
  - right. exists db. rewrite Hx. split; [reflexivity|].
    split; [apply items_only_refl|].
    exists []. rewrite app_nil_r. split; [reflexivity|constructor].
  - rewrite Hy.
    destruct (insert_item db id (name y) m s (amount y)) as [db0|] eqn:Hins;
      [|now left].
    apply insert_item_inv in Hins as [Hframe [k Hk]].
    destruct (IH db0) as [->|(db1 & -> & Hframe1 & rows & Hrows & Hall)];
      [now left|].
    right. exists db1. split; [reflexivity|].
    split; [eapply items_only_trans; eassumption|].
    eexists (_ :: rows). split.
    + rewrite Hrows, Hk, <- app_assoc. reflexivity.
    + constructor; [|exact Hall]. repeat split; simpl. exact Hy.
Qed.

Lemma insert_receipt_inv db store date total id db1 :
  insert_receipt db store date total = Some (id, db1) ->
  main_categories db1 = main_categories db
  /\ sub_categories db1 = sub_categories db
  /\ items db1 = items db
  /\ receipts db1
     = receipts db ++ [{| r_id := id; r_store_name := store; r_date := date;
                          r_total_amount := total |}]
  /\ Forall (fun r => (r_id r < id)%Z) (receipts db).
Proof.
  unfold insert_receipt, next_id. intros H.
  destruct (_ && _); [|discriminate].
  destruct (int64_ok _); [|discriminate].
  injection H as <- <-. repeat split. simpl.
  apply Forall_forall. intros r Hr.
  assert (Hle : forall l : list Z, forall z, z ∈ l ->
            (z <= fold_right Z.max (seq_receipts db) l)%Z).
  { induction l as [|a l IHl]; intros z Hz.
    - now apply elem_of_nil in Hz.
    - apply elem_of_cons in Hz as [->|Hz]; simpl; [lia|].
      specialize (IHl z Hz). lia. }
  specialize (Hle (map r_id (receipts db)) (r_id r)).
  assert (r_id r ∈ map r_id (receipts db)) by (apply list_elem_of_fmap; eauto).
  specialize (Hle H). lia.
Qed.

(** ** Failure of [add_receipt] on an unresolvable item *)

(** C3: when the item list holds an item that does not resolve, [x]
    being the first such, [add_receipt] returns [None]; the call either
    leaves the store as it was (an exception rolled it back) or leaves
    the receipt row and one row for each item before [x], and no row
    for [x] or for an item after it. *)
Theorem add_receipt_unresolved_item (db : database) (store_name date : str)
    (pre : list item) (x : item) (post : list item) (total_amount : Z) :
  Forall (fun y => is_Some (resolve db y)) pre ->
  resolve db x = None ->
  let '(result, db1) :=
    add_receipt db store_name date (pre ++ x :: post) total_amount in
  result = None
  /\ (db1 = db
      \/ exists id rows,
           receipts db1
           = receipts db ++ [{| r_id := id; r_store_name := store_name;
                                r_date := date;
                                r_total_amount := total_amount |}]
           /\ items db1 = items db ++ rows
           /\ Forall2 (row_of db id) rows pre).
Proof.
  intros Hpre Hx. unfold add_receipt.
  destruct (insert_receipt db store_name date total_amount)
    as [[id db0]|] eqn:Hins; [|now split; [|left]].
  apply insert_receipt_inv in Hins as (_ & _ & Hitems & Hrec & _).
  destruct (insert_items_unresolved db id pre x post Hpre Hx db0)
    as [->|(db1 & -> & Hframe & rows & Hrows & Hall)];
    [now split; [|left]|].
  split; [reflexivity|]. right. exists id, rows.
  destruct Hframe as (_ & _ & Hr & _).
  rewrite Hr, Hrows, Hitems. auto.
Qed.

(** A receipt of three items on the seeded store, the second of which
    (쇼핑, 전자제품) does not resolve. *)
Lemma add_receipt_unresolved_item_witness :
  let db := _init_db in
  let ok := {| name := u "아메리카노"; category := u "음식";
               subcategory := u "음료"; amount := 4500 |} in
  let bad := {| name := u "충전기"; category := u "쇼핑";
                subcategory := u "전자제품"; amount := 9900 |} in
  let '(result, db1) :=
    add_receipt db (u "마트") (u "2024-03-15") ([ok] ++ bad :: [ok]) 18900 in
  result = None
  /\ (db1 = db
      \/ exists id rows,
           receipts db1
           = receipts db ++ [{| r_id := id; r_store_name := u "마트";
                                r_date := u "2024-03-15";
                                r_total_amount := 18900 |}]
           /\ items db1 = items db ++ rows
           /\ Forall2 (row_of db id) rows [ok]).
Proof.
  intros db ok bad.
  apply (add_receipt_unresolved_item db (u "마트") (u "2024-03-15")
           [ok] bad [ok] 18900).
  - repeat constructor. eexists. vm_compute. reflexivity.
  - vm_compute. reflexivity.
Defined.

(** ** The taxonomy invariant of the item rows *)

Lemma seeded_tables_consistent :
  forallb
    (fun s =>
       forallb
         (fun m =>
            implb (sc_main_category_id s =? mc_id m)%Z
                  (bool_decide ((mc_name m, sc_name s)
                                ∈ pairs valid_categories)))
         (main_categories _init_db))
    (sub_categories _init_db) = true.
Proof. vm_compute. reflexivity. Qed.

Lemma find_elem_of {A : Type} (f : A -> bool) (l : list A) (x : A) :
  List.find f l = Some x -> x ∈ l /\ f x = true.
Proof.
  intros H. apply find_some in H as [Hin Hf].
  split; [now apply list_elem_of_In|exact Hf].
Qed.

Lemma get_category_ids_inv db cat sub m s :
  _get_category_ids db cat sub = (Some m, Some s) ->
  {| mc_id := m; mc_name := cat |} ∈ main_categories db
  /\ {| sc_id := s; sc_main_category_id := m; sc_name := sub |}
     ∈ sub_categories db.
Proof.
  unfold _get_category_ids. intros H.
  destruct (encodable cat); [|discriminate].
  destruct (List.find _ (main_categories db)) as [mr|] eqn:Hm; [|discriminate].
  destruct (encodable sub); [|discriminate].
  destruct (List.find _ (sub_categories db)) as [sr|] eqn:Hs; [|discriminate].
  injection H as <- <-.
  apply find_elem_of in Hm as [Hm Hmn]. apply find_elem_of in Hs as [Hs Hsn].
  apply bool_decide_eq_true_1 in Hmn.
  apply andb_true_iff in Hsn as [Hid Hsn].
  apply bool_decide_eq_true_1 in Hsn. apply Z.eqb_eq in Hid.
  destruct mr as [mid mname], sr as [sid smid sname]; simpl in *; subst.
  split; assumption.
Qed.

Lemma seeded_rows_in_taxonomy db m s cat sub :
  seeded db ->
  {| mc_id := m; mc_name := cat |} ∈ main_categories db ->
  {| sc_id := s; sc_main_category_id := m; sc_name := sub |}
    ∈ sub_categories db ->
  (cat, sub) ∈ pairs valid_categories.
Proof.
  intros [Hm Hs] Hmr Hsr. rewrite Hm in Hmr. rewrite Hs in Hsr.
  pose proof (forallb_elem_of _ _ _ seeded_tables_consistent Hsr) as H.
  pose proof (forallb_elem_of _ _ _ H Hmr) as H1. simpl in H1.
  rewrite Z.eqb_refl in H1. simpl in H1.
  now apply bool_decide_eq_true_1 in H1.
Qed.

Lemma resolve_in_taxonomy db x m s :
  seeded db ->
  resolve db x = Some (m, s) ->
  exists cat sub,
    (cat, sub) ∈ pairs valid_categories
    /\ {| mc_id := m; mc_name := cat |} ∈ main_categories db
    /\ {| sc_id := s; sc_main_category_id := m; sc_name := sub |}
       ∈ sub_categories db.
Proof.
  intros Hseed. unfold resolve.
  set (ids := _get_category_ids db (category x) (subcategory x)).
  set (ids1 := if negb _ then _ else _).
  assert (Hids1 : exists sub, ids1 = _get_category_ids db (category x) sub).
  { subst ids1. destruct (negb _); [|now exists (subcategory x)].
    destruct (Difflib.get_close_matches _ _ _) as [|best ?];
      [now exists (subcategory x)|now exists best]. }
  destruct Hids1 as [sub Hsub].
  destruct ids1 as [[m1|] [s1|]]; try discriminate.
  destruct (_ && _); [|discriminate].
  intros [= <- <-]. symmetry in Hsub.
  apply get_category_ids_inv in Hsub as [Hm Hs].
  exists (category x), sub. split; [|split; assumption].
  eapply seeded_rows_in_taxonomy; eassumption.
Qed.

(** The invariant: seeded category tables, and every item row in the
    taxonomy. *)
Lemma insert_items_in_taxonomy committed id its db :
  seeded committed -> seeded db ->
  main_categories db = main_categories committed ->
  sub_categories db = sub_categories committed ->
  Forall (item_in_taxonomy db) (items db) ->
  match insert_items committed id its db with
  | Completed db1 | Unresolved db1 =>
    seeded db1 /\ Forall (item_in_taxonomy db1) (items db1)
  | Raised => True
  end.
Proof.
  intros Hc. revert db. induction its as [|x its IH]; simpl; intros db Hs Hm Hsub Hall.
  - split; assumption.
  - destruct (resolve committed x) as [[m s]|] eqn:Hres; [|split; assumption].
    destruct (insert_item db id (name x) m s (amount x)) as [db0|] eqn:Hins;
      [|exact I].
    apply insert_item_inv in Hins as [(Hm0 & Hs0 & _) [k Hk]].
    apply IH.
    + unfold seeded. rewrite Hm0, Hs0. exact Hs.
    + congruence.
    + congruence.
    + rewrite Hk. apply Forall_app. split.
      * eapply Forall_impl; [exact Hall|].
        intros r0 (c & sb & ? & ? & ?). exists c, sb. rewrite Hm0, Hs0. auto.
      * constructor; [|constructor].
        destruct (resolve_in_taxonomy _ _ _ _ Hc Hres) as (c & sb & ? & ? & ?).
        exists c, sb. simpl. rewrite Hm0, Hs0, Hm, Hsub. auto.
Qed.

Lemma init_db_seeded : seeded _init_db.
Proof. split; reflexivity. Qed.

Lemma item_in_taxonomy_same_tables db db1 r :
  main_categories db1 = main_categories db ->
  sub_categories db1 = sub_categories db ->
  item_in_taxonomy db r -> item_in_taxonomy db1 r.
Proof.
  intros Hm Hs (c & sb & ? & ? & ?). exists c, sb. rewrite Hm, Hs. auto.
Qed.

Lemma update_receipt_row_inv db rid st dt tot db0 :
  update_receipt_row db rid st dt tot = Some db0 ->
  main_categories db0 = main_categories db
  /\ sub_categories db0 = sub_categories db
  /\ items db0 = items db.
Proof.
  unfold update_receipt_row. intros H.
  destruct (_ && _); [|discriminate]. injection H as <-. auto.
Qed.

Lemma loop_end_in_taxonomy committed id its db :
  seeded committed ->
  main_categories db = main_categories committed ->
  sub_categories db = sub_categories committed ->
  Forall (item_in_taxonomy committed) (items db) ->
  match insert_items committed id its db with
  | Completed db1 | Unresolved db1 =>
    seeded db1 /\ Forall (item_in_taxonomy db1) (items db1)
  | Raised => True
  end.
Proof.
  intros Hc Hm Hs Hall. apply insert_items_in_taxonomy; try assumption.
  - unfold seeded. rewrite Hm, Hs. exact Hc.
  - eapply Forall_impl; [exact Hall|].
    intros r. apply item_in_taxonomy_same_tables; assumption.
Qed.

Lemma run_call_in_taxonomy db c :
  seeded db -> Forall (item_in_taxonomy db) (items db) ->
  seeded (run_call db c)
  /\ Forall (item_in_taxonomy (run_call db c)) (items (run_call db c)).
Proof.
  intros Hs Hall. destruct c as [st dt its tot|rid st dt its tot];
    unfold run_call.
  - unfold add_receipt.
    destruct (insert_receipt db st dt tot) as [[id db0]|] eqn:Hins;
      [|split; assumption].
    apply insert_receipt_inv in Hins as (Hm & Hsub & Hit & _).
    pose proof (loop_end_in_taxonomy db id its db0 Hs Hm Hsub) as H.
    rewrite Hit in H. specialize (H Hall).
    destruct (insert_items db id its db0); [exact H|exact H|split; assumption].
  - unfold update_receipt.
    destruct (update_receipt_row db rid st dt tot) as [db0|] eqn:Hupd;
      [|split; assumption].
    apply update_receipt_row_inv in Hupd as (Hm & Hsub & Hit).
    pose proof (loop_end_in_taxonomy db rid its (delete_items db0 rid) Hs
                  Hm Hsub) as H.
    assert (Hdel : Forall (item_in_taxonomy db)
                          (items (delete_items db0 rid))).
    { unfold delete_items, items at 1. rewrite Hit.
      apply Forall_forall. intros r Hr.
      apply list_elem_of_filter in Hr as [_ Hr].
      rewrite Forall_forall in Hall. auto. }
    specialize (H Hdel).
    destruct (insert_items db rid its (delete_items db0 rid));
      [exact H|exact H|split; assumption].
Qed.

(** C9: after [_init_db] and any sequence of [add_receipt] and
    [update_receipt] calls, the category tables are the seeded ones and
    every row of [items] carries the ids of a main category and of one
    of its subcategories in [valid_categories]. *)
Theorem items_stay_in_taxonomy (calls : list call) :
  seeded (run calls)
  /\ Forall (item_in_taxonomy (run calls)) (items (run calls)).
Proof.
  unfold run.
  assert (H : forall db,
             seeded db -> Forall (item_in_taxonomy db) (items db) ->
             seeded (fold_left run_call calls db)
             /\ Forall (item_in_taxonomy (fold_left run_call calls db))
                       (items (fold_left run_call calls db))).
  { induction calls as [|c calls IH]; simpl; intros db Hs Hall.
    - split; assumption.
    - destruct (run_call_in_taxonomy db c Hs Hall). now apply IH. }
  apply H; [apply init_db_seeded|]. vm_compute. constructor.
Qed.

(** ** [update_receipt] with an id that no receipt has *)

(** C8, the code at a failing input: on the freshly seeded store, which
    has no receipt, [update_receipt(999, ...)] with one resolvable item
    returns [True] and adds an item row for receipt 999. *)
Theorem update_missing_receipt_adds_item_row :
  let apple := {| name := u "사과"; category := u "음식";
                  subcategory := u "과일"; amount := 3000 |} in
  receipts _init_db = [] /\ items _init_db = []
  /\ exists db1,
       update_receipt _init_db 999 (u "마트") (u "2024-03-15") [apple] 3000
       = (true, db1)
       /\ receipts db1 = []
       /\ items db1
          = [{| i_id := 1; i_receipt_id := 999; i_name := u "사과";
                i_main_category_id := 6; i_sub_category_id := 28;
                i_amount := 3000 |}].
Proof.
  intros apple. split; [reflexivity|]. split; [reflexivity|].
  eexists. split; [vm_compute; reflexivity|]. split; reflexivity.
Qed.

(** With no item the same call changes no row. *)
Lemma update_missing_receipt_no_items (db : database) (receipt_id : Z)
    (store_name date : str) (total_amount : Z) :
  Forall (fun r => r_id r <> receipt_id) (receipts db) ->
  Forall (fun i => i_receipt_id i <> receipt_id) (items db) ->
  (update_receipt db receipt_id store_name date [] total_amount).2 = db.
Proof.
  intros Hr Hi. unfold update_receipt, update_receipt_row.
  destruct (_ && _); [|reflexivity].
  cbn [insert_items snd]. unfold delete_items. cbn [items receipts].
  destruct db as [mc sc rs its s1 s2 s3 s4]; cbn in *. f_equal.
  - clear Hi. induction Hr as [|r rs Hne _ IH]; [reflexivity|].
    cbn. rewrite IH. apply Z.eqb_neq in Hne. now rewrite Hne.
  - clear Hr. induction Hi as [|i its Hne _ IH]; [reflexivity|].
    rewrite filter_cons_True by exact Hne. now rewrite IH.
Qed.

(** ** Reading receipts back *)

Lemma get_receipts_empty (db : database) : get_receipts db = [].
Proof.
  unfold get_receipts.
  replace (columns_exist _ _) with false by (vm_compute; reflexivity).
  reflexivity.
Qed.

(** C4, the code at a failing input: an [add_receipt] whose two items
    both resolve returns the new id and stores two item rows for it, and
    [get_receipts] then returns the empty list, because its statement
    names columns that [receipts] does not have. *)
Theorem added_receipt_is_not_read_back :
  let items2 :=
    [ {| name := u "아메리카노"; category := u "음식";
         subcategory := u "음료"; amount := 4500 |};
      {| name := u "버스"; category := u "교통";
         subcategory := u "대중교통"; amount := 1500 |} ] in
  exists db1,
    add_receipt _init_db (u "스타벅스") (u "2024-03-15") items2 6000
    = (Some 1%Z, db1)
    /\ map r_id (receipts db1) = [1%Z]
    /\ length (filter (fun i => i_receipt_id i = 1%Z) (items db1))
       = length items2
    /\ get_receipts db1 = [].
Proof.
  intros items2. eexists. split; [vm_compute; reflexivity|].
  split; [reflexivity|]. split; [reflexivity|]. apply get_receipts_empty.
Qed.

(** ** Trends *)

(** C6, the code on every input: the statement of [get_expense_trends]
    sums a column [amount] of [receipts], which the table does not have,
    so the function returns [None] whatever the store, the category and
    the period. *)
Theorem get_expense_trends_returns_none
    (strftime : str -> str -> option str) (db : database)
    (category : option str) (period : str) :
  get_expense_trends strftime db category period = None.
Proof.
  unfold get_expense_trends.
  destruct category as [[|c s]|];
    replace (columns_exist _ _) with false by (vm_compute; reflexivity);
    reflexivity.
Qed.

(** ** The period argument of [get_statistics] *)

(** C10: a period name other than [daily], [monthly] and [yearly] gives
    the result of [monthly] on the same store. *)
Theorem unknown_period_is_monthly
    (strftime : str -> str -> option str) (db : database) (period : str) :
  period <> u "daily" -> period <> u "monthly" -> period <> u "yearly" ->
  get_statistics strftime db period
  = get_statistics strftime db (u "monthly").
Proof.
  intros Hd Hm Hy. unfold get_statistics.
  assert (Hfmt : date_format period = date_format (u "monthly")).
  { unfold date_format, dict_get. cbn [List.find fst snd].
    rewrite !bool_decide_eq_false_2 by (intros E; symmetry in E; tauto).
    reflexivity. }
  rewrite Hfmt. reflexivity.
Qed.

(** The period name [weekly] on the seeded store. *)
Lemma unknown_period_is_monthly_witness :
  u "weekly" <> u "daily" /\ u "weekly" <> u "monthly"
  /\ u "weekly" <> u "yearly"
  /\ get_statistics strftime_of_date _init_db (u "weekly")
     = get_statistics strftime_of_date _init_db (u "monthly").
Proof.
  assert (Hd : u "weekly" <> u "daily") by (vm_compute; discriminate).
  assert (Hm : u "weekly" <> u "monthly") by (vm_compute; discriminate).
  assert (Hy : u "weekly" <> u "yearly") by (vm_compute; discriminate).
  split; [exact Hd|]. split; [exact Hm|]. split; [exact Hy|].
  exact (unknown_period_is_monthly strftime_of_date _init_db (u "weekly")
           Hd Hm Hy).
Defined.

(** ** The total amount in [process_receipt] *)

(** C5, the code at a failing input: the fourth line matches the pattern
    of 총액 with 4,500 and the fifth the pattern of 합계 with 9,000; the
    parse ends with the total of the later line, which is what
    [process_receipt] stores. *)
Theorem later_total_line_overwrites :
  let response :=
    u "가게명: 스타벅스" ++ [10%Z] ++ u "날짜: 2024-03-15" ++ [10%Z]
    ++ u "아메리카노: 음식:음료 (4,500원)" ++ [10%Z]
    ++ u "총액: 4,500원" ++ [10%Z] ++ u "합계: 9,000원" in
  scan_total total_patterns (u "총액: 4,500원") None = Ok (Some 4500%Z)
  /\ scan_total total_patterns (u "합계: 9,000원") None = Ok (Some 9000%Z)
  /\ (exists d, parse_response response = Ok d
                /\ d_total_amount d = Some 9000%Z)
  /\ exists db1,
       process_receipt _init_db (Some response) [] = (true, db1)
       /\ map r_total_amount (receipts db1) = [9000%Z].
Proof.
  intros response.
  split; [vm_compute; reflexivity|]. split; [vm_compute; reflexivity|].
  split.
  - eexists. split; [vm_compute; reflexivity|reflexivity].
  - eexists. split; [vm_compute; reflexivity|reflexivity].
Qed.

(** ** Monthly statistics of two receipts of one month *)

Lemma seeded_main_id_unique db id nm :
  seeded db -> {| mc_id := id; mc_name := nm |} ∈ main_categories db ->
  filter (fun m1 => mc_id m1 = id) (main_categories db)
  = [{| mc_id := id; mc_name := nm |}].
Proof.
  intros [Hm _] Hin. rewrite Hm in *.
  assert (Hall : forallb
            (fun m =>
               bool_decide
                 (filter (fun m1 => mc_id m1 = mc_id m)
                         (main_categories _init_db) = [m]))
            (main_categories _init_db) = true) by (vm_compute; reflexivity).
  pose proof (forallb_elem_of _ _ _ Hall Hin) as H. cbv beta in H.
  apply bool_decide_eq_true_1 in H. exact H.
Qed.

Lemma seeded_sub_id_unique db id mid nm :
  seeded db ->
  {| sc_id := id; sc_main_category_id := mid; sc_name := nm |}
    ∈ sub_categories db ->
  filter (fun s1 => sc_id s1 = id) (sub_categories db)
  = [{| sc_id := id; sc_main_category_id := mid; sc_name := nm |}].
Proof.
  intros [_ Hs] Hin. rewrite Hs in *.
  assert (Hall : forallb
            (fun s =>
               bool_decide
                 (filter (fun s1 => sc_id s1 = sc_id s)
                         (sub_categories _init_db) = [s]))
            (sub_categories _init_db) = true) by (vm_compute; reflexivity).
  pose proof (forallb_elem_of _ _ _ Hall Hin) as H. cbv beta in H.
  apply bool_decide_eq_true_1 in H. exact H.
Qed.

Lemma two_elements {A : Type} (l : list A) (x y : A) :
  l ≡ₚ [x; y] -> l = [x; y] \/ l = [y; x].
Proof.
  intros H. symmetry in H. now apply Permutation_length_2_inv in H.
Qed.

Section march.

Variable strftime : str -> str -> option str.
Variable db : database.
Variables r1 r2 : receipt_row.
Variables i1 i2 : item_row.
Variables cat sub : str.

Hypothesis march_01 : strftime (u "%Y-%m") (u "2024-03-01") = Some (u "2024-03").
Hypothesis march_20 : strftime (u "%Y-%m") (u "2024-03-20") = Some (u "2024-03").
Hypothesis tables : seeded db.
Hypothesis two_receipts : receipts db ≡ₚ [r1; r2].
Hypothesis two_items : items db ≡ₚ [i1; i2].
Hypothesis ids_differ : r_id r1 <> r_id r2.
Hypothesis date1 : r_date r1 = u "2024-03-01".
Hypothesis date2 : r_date r2 = u "2024-03-20".
Hypothesis owner1 : i_receipt_id i1 = r_id r1.
Hypothesis owner2 : i_receipt_id i2 = r_id r2.
Hypothesis amount1 : i_amount i1 = 10000%Z.
Hypothesis amount2 : i_amount i2 = 5000%Z.
Hypothesis same_main : i_main_category_id i2 = i_main_category_id i1.
Hypothesis same_sub : i_sub_category_id i2 = i_sub_category_id i1.
Hypothesis main_row :
  {| mc_id := i_main_category_id i1; mc_name := cat |} ∈ main_categories db.
Hypothesis sub_row :
  {| sc_id := i_sub_category_id i1;
     sc_main_category_id := i_main_category_id i1; sc_name := sub |}
  ∈ sub_categories db.

Lemma receipt_rows_1 :
  receipt_rows strftime (u "%Y-%m") db r1 = [march_row cat sub 10000].
Proof using All.
  unfold receipt_rows.
  assert (Hf : filter (fun i => i_receipt_id i = r_id r1) (items db) = [i1]).
  { destruct (two_elements _ _ _ two_items) as [-> | ->].
    - rewrite filter_cons_True by exact owner1.
      rewrite filter_cons_False by congruence. reflexivity.
    - rewrite filter_cons_False by congruence.
      rewrite filter_cons_True by exact owner1. reflexivity. }
  rewrite Hf. cbn [mbind list_bind app].
  rewrite (seeded_main_id_unique db _ _ tables main_row).
  cbn [mbind list_bind app mc_name].
  rewrite (seeded_sub_id_unique db _ _ _ tables sub_row).
  cbn [mbind list_bind app sc_name].
  rewrite date1, march_01, amount1. reflexivity.
Qed.

Lemma receipt_rows_2 :
  receipt_rows strftime (u "%Y-%m") db r2 = [march_row cat sub 5000].
Proof using All.
  unfold receipt_rows.
  assert (Hf : filter (fun i => i_receipt_id i = r_id r2) (items db) = [i2]).
  { destruct (two_elements _ _ _ two_items) as [-> | ->].
    - rewrite filter_cons_False by congruence.
      rewrite filter_cons_True by exact owner2. reflexivity.
    - rewrite filter_cons_True by exact owner2.
      rewrite filter_cons_False by congruence. reflexivity. }
  rewrite Hf. cbn [mbind list_bind app]. rewrite same_main, same_sub.
  rewrite (seeded_main_id_unique db _ _ tables main_row).
  cbn [mbind list_bind app mc_name].
  rewrite (seeded_sub_id_unique db _ _ _ tables sub_row).
  cbn [mbind list_bind app sc_name].
  rewrite date2, march_20, amount2. reflexivity.
Qed.

Lemma grouped_two_rows (x y : Z) :
  int64_ok x = true -> int64_ok (x + y) = true ->
  grouped_rows [march_row cat sub x; march_row cat sub y]
  = Some [ {| g_period := Some (u "2024-03"); g_main_category := cat;
              g_sub_category := sub; g_count := 2;
              g_total_amount := (x + y)%Z |} ].
Proof using Type.
  intros Hx Hxy. unfold grouped_rows.
  cbn [map distinct group_key march_row j_period j_main_category j_sub_category].
  rewrite bool_decide_eq_false_2 by apply not_elem_of_nil.
  rewrite bool_decide_eq_true_2 by (apply elem_of_cons; left; reflexivity).
  cbn [mapM]. rewrite !filter_cons_True by reflexivity.
  rewrite filter_nil.
  cbn [map j_amount sum_int64 fold_left length march_row group_key fst snd
       j_period j_main_category j_sub_category].
  replace (0 + x)%Z with x by lia. rewrite Hx, Hxy.
  reflexivity.
Qed.

(** C7: a seeded store whose receipts are two, dated 2024-03-01 and
    2024-03-20, and whose items are two, one per receipt, of amounts
    10000 and 5000, with the ids of one main category [cat] and of one
    of its subcategories [sub], has as monthly statistics the single
    period 2024-03 of total 15000, its single category [cat] of total
    15000, and the single leaf [sub] of count 2 and total 15000. *)
Theorem march_statistics :
  get_statistics strftime db (u "monthly")
  = Some
      [ (Some (u "2024-03"),
         {| total_amount := 15000;
            categories :=
              [ (cat,
                 {| cat_total_amount := 15000;
                    subcategories :=
                      [ (sub, {| count := 2;
                                 leaf_total_amount := 15000 |}) ] |}) ] |}) ].
Proof using All.
  unfold get_statistics.
  replace (date_format (u "monthly")) with (u "%Y-%m")
    by (vm_compute; reflexivity).
  unfold joined_rows.
  destruct (two_elements _ _ _ two_receipts) as [-> | ->];
    cbn [mbind list_bind app]; rewrite receipt_rows_1, receipt_rows_2;
    cbn [app]; rewrite grouped_two_rows by reflexivity; reflexivity.
Qed.

End march.

(** The store after [_init_db] and two [add_receipt] calls, one item
    (음식, 음료) each. *)
Lemma march_statistics_witness :
  let latte := {| name := u "카페라떼"; category := u "음식";
                  subcategory := u "음료"; amount := 10000 |} in
  let americano := {| name := u "아메리카노"; category := u "음식";
                      subcategory := u "음료"; amount := 5000 |} in
  let db := run [ Add (u "스타벅스") (u "2024-03-01") [latte] 10000;
                  Add (u "스타벅스") (u "2024-03-20") [americano] 5000 ] in
  get_statistics strftime_of_date db (u "monthly")
  = Some
      [ (Some (u "2024-03"),
         {| total_amount := 15000;
            categories :=
              [ (u "음식",
                 {| cat_total_amount := 15000;
                    subcategories :=
                      [ (u "음료", {| count := 2;
                                      leaf_total_amount := 15000 |}) ] |}) ]
         |}) ].
Proof.
  intros latte americano db.
  apply (march_statistics strftime_of_date db
           {| r_id := 1; r_store_name := u "스타벅스";
              r_date := u "2024-03-01"; r_total_amount := 10000 |}
           {| r_id := 2; r_store_name := u "스타벅스";
              r_date := u "2024-03-20"; r_total_amount := 5000 |}
           {| i_id := 1; i_receipt_id := 1; i_name := u "카페라떼";
              i_main_category_id := 6; i_sub_category_id := 27;
              i_amount := 10000 |}
           {| i_id := 2; i_receipt_id := 2; i_name := u "아메리카노";
              i_main_category_id := 6; i_sub_category_id := 27;
              i_amount := 5000 |}
           (u "음식") (u "음료")).
  - vm_compute. reflexivity.
  - vm_compute. reflexivity.
  - split; vm_compute; reflexivity.
  - replace (receipts db) with
      [ {| r_id := 1; r_store_name := u "스타벅스";
           r_date := u "2024-03-01"; r_total_amount := 10000 |};
        {| r_id := 2; r_store_name := u "스타벅스";
           r_date := u "2024-03-20"; r_total_amount := 5000 |} ]
      by (vm_compute; reflexivity).
    reflexivity.
  - replace (items db) with
      [ {| i_id := 1; i_receipt_id := 1; i_name := u "카페라떼";
           i_main_category_id := 6; i_sub_category_id := 27;
           i_amount := 10000 |};
        {| i_id := 2; i_receipt_id := 2; i_name := u "아메리카노";
           i_main_category_id := 6; i_sub_category_id := 27;
           i_amount := 5000 |} ]
      by (vm_compute; reflexivity).
    reflexivity.
  - vm_compute. discriminate.
  - reflexivity.
  - reflexivity.
  - reflexivity.
  - reflexivity.
  - reflexivity.
  - reflexivity.
  - reflexivity.
  - reflexivity.
  - by_evaluation.
  - by_evaluation.
Defined.

(** ** [SequenceMatcher]: every block is a match *)

Import Difflib.

Section matcher_facts.

Variables a b : str.

Lemma zip_seq_lookup (l : str) (k i : nat) (c : Z) :
  (i, c) ∈ zip (seq k (length l)) l -> k <= i /\ l !! (i - k) = Some c.
Proof.
  revert k. induction l as [|x l IH]; intros k H; cbn in H.
  - now apply elem_of_nil in H.
  - apply elem_of_cons in H as [[= -> ->]|H].
    + split; [lia|]. now rewrite Nat.sub_diag.
    + apply IH in H as [Hle Hl]. split; [lia|].
      replace (i - k) with (S (i - S k)) by lia. exact Hl.
Qed.

Lemma b2j_all_sound (c : Z) (js : list nat) (j : nat) :
  b2j_all b !! c = Some js -> j ∈ js -> b !! j = Some c.
Proof.
  unfold b2j_all.
  assert (H : forall (l : list (nat * Z)) (m : gmap Z (list nat)),
             (forall i e, (i, e) ∈ l -> b !! i = Some e) ->
             (forall c js j, m !! c = Some js -> j ∈ js -> b !! j = Some c) ->
             forall c js j,
               fold_left
                 (fun (m : gmap Z (list nat)) '(i, elt) =>
                    <[elt := default [] (m !! elt) ++ [i]]> m) l m !! c
               = Some js ->
               j ∈ js -> b !! j = Some c).
  { induction l as [|[i e] l IH]; intros m Hl Hm; cbn [fold_left].
    - exact Hm.
    - apply IH.
      + intros i0 e0 Hin. apply Hl. now right.
      + intros c0 js0 j0 Hlook Hj.
        destruct (decide (e = c0)) as [->|Hne].
        * rewrite lookup_insert_eq in Hlook. injection Hlook as <-.
          apply elem_of_app in Hj as [Hj|Hj].
          -- destruct (m !! c0) as [js1|] eqn:Hc0; cbn in Hj.
             ++ eapply Hm; eassumption.
             ++ now apply elem_of_nil in Hj.
          -- apply list_elem_of_singleton in Hj as ->. apply Hl. now left.
        * rewrite lookup_insert_ne in Hlook by exact Hne.
          eapply Hm; eassumption. }
  apply H.
  - intros i e Hin. apply zip_seq_lookup in Hin as [_ Hin].
    now rewrite Nat.sub_0_r in Hin.
  - intros c0 js0 j0 Hlook. now rewrite lookup_empty in Hlook.
Qed.

Lemma b2j_sound (c : Z) (js : list nat) (j : nat) :
  b2j b !! c = Some js -> j ∈ js -> j < length b /\ getitem b j = c.
Proof.
  intros Hlook Hj.
  assert (Hb : b !! j = Some c).
  { unfold b2j in Hlook. destruct (200 <=? length b).
    - apply map_lookup_filter_Some in Hlook as [Hlook _].
      eapply b2j_all_sound; eassumption.
    - eapply b2j_all_sound; eassumption. }
  split; [eapply lookup_lt_Some; eassumption|].
  unfold getitem. now apply nth_lookup_Some.
Qed.

Lemma agree_zero (i j : nat) : agree a b i j 0.
Proof. intros t Ht. lia. Qed.

Lemma agree_extend_right (i j k : nat) :
  agree a b i j k -> getitem a (i + k) = getitem b (j + k) -> agree a b i j (k + 1).
Proof.
  intros H He t Ht. destruct (decide (t = k)) as [->|Hne]; [exact He|].
  apply H. lia.
Qed.

Lemma agree_extend_left (i j k : nat) :
  agree a b (S i) (S j) k -> getitem a i = getitem b j -> agree a b i j (k + 1).
Proof.
  intros H He t Ht. destruct t as [|t].
  - now rewrite !Nat.add_0_r.
  - replace (i + S t) with (S i + t) by lia.
    replace (j + S t) with (S j + t) by lia. apply H. lia.
Qed.

Lemma extend_left_block (junk : bool) (alo ahi blo bhi : nat) :
  forall i j k,
    block_in a b alo ahi blo bhi {| m_a := i; m_b := j; m_size := k |} ->
    block_in a b alo ahi blo bhi (extend_left a b junk alo blo i j k).
Proof.
  induction i as [|i IH]; intros j k Hb; cbn [extend_left]; [exact Hb|].
  destruct j as [|j]; [exact Hb|].
  destruct (_ && _) eqn:Hc; [|exact Hb].
  apply IH. apply andb_true_iff in Hc as [Hc He].
  apply andb_true_iff in Hc as [Hc _]. apply andb_true_iff in Hc as [Hi Hj].
  apply Nat.ltb_lt in Hi, Hj. apply Z.eqb_eq in He.
  destruct Hb as (H1 & H2 & H3 & H4 & H5). cbn in *.
  repeat split; cbn; try lia. now apply agree_extend_left.
Qed.

Lemma extend_right_block (junk : bool) (alo ahi blo bhi i j : nat) :
  forall fuel k,
    block_in a b alo ahi blo bhi {| m_a := i; m_b := j; m_size := k |} ->
    block_in a b alo ahi blo bhi
      {| m_a := i; m_b := j;
         m_size := extend_right a b junk ahi bhi i j fuel k |}.
Proof.
  induction fuel as [|fuel IH]; intros k Hb; cbn [extend_right]; [exact Hb|].
  destruct (_ && _) eqn:Hc; [|exact Hb].
  apply IH. apply andb_true_iff in Hc as [Hc He].
  apply andb_true_iff in Hc as [Hc _]. apply andb_true_iff in Hc as [Hi Hj].
  apply Nat.ltb_lt in Hi, Hj. apply Z.eqb_eq in He.
  destruct Hb as (H1 & H2 & H3 & H4 & H5). cbn in *.
  repeat split; cbn; try lia. now apply agree_extend_right.
Qed.

Lemma extend_block (junk : bool) (alo ahi blo bhi : nat) (m : Match) :
  block_in a b alo ahi blo bhi m ->
  block_in a b alo ahi blo bhi (extend a b junk alo ahi blo bhi m).
Proof.
  intros Hb. unfold extend.
  pose proof (extend_left_block junk alo ahi blo bhi (m_a m) (m_b m)
                (m_size m)) as Hl.
  destruct m as [i j k]. specialize (Hl Hb). cbn [m_a m_b m_size] in *.
  destruct (extend_left a b junk alo blo i j k) as [i1 j1 k1] eqn:E.
  cbn [m_a m_b m_size]. now apply extend_right_block.
Qed.

Lemma longest_inner_ok (alo ahi blo bhi i : nat) (j2len : gmap Z nat) :
  alo <= i -> i < ahi ->
  j2len_ok a b alo blo bhi i j2len ->
  forall js newj2len best,
    Forall (fun j => getitem b j = getitem a i) js ->
    j2len_ok a b alo blo bhi (i + 1) newj2len ->
    block_in a b alo ahi blo bhi best ->
    j2len_ok a b alo blo bhi (i + 1)
      (longest_inner i blo bhi j2len js newj2len best).1
    /\ block_in a b alo ahi blo bhi
         (longest_inner i blo bhi j2len js newj2len best).2.
Proof.
  intros Hlo Hhi Hold. induction js as [|j js IH];
    intros newj2len best Hjs Hnew Hbest; cbn [longest_inner].
  - split; assumption.
  - apply Forall_cons in Hjs as [Hj Hjs].
    destruct (j <? blo) eqn:Hblo; [now apply IH|].
    destruct (bhi <=? j) eqn:Hbhi; [split; assumption|].
    apply Nat.ltb_ge in Hblo. apply Nat.leb_gt in Hbhi.
    set (k := default 0 (j2len !! (Z.of_nat j - 1)%Z) + 1).
    assert (Hk : 1 <= k /\ alo + k <= i + 1 /\ blo + k <= j + 1
                 /\ agree a b (i + 1 - k) (j + 1 - k) k).
    { subst k. destruct (j2len !! (Z.of_nat j - 1)%Z) as [k0|] eqn:Hlook;
        cbn [default from_option id].
      - apply Hold in Hlook as (j0 & Hz & H1 & H2 & H3 & H4 & H5).
        assert (j0 = j - 1) by lia. subst j0.
        repeat split; try lia.
        replace (i + 1 - (k0 + 1)) with (i - k0) by lia.
        replace (j + 1 - (k0 + 1)) with (j - 1 + 1 - k0) by lia.
        apply agree_extend_right; [exact H5|].
        replace (i - k0 + k0) with i by lia.
        replace (j - 1 + 1 - k0 + k0) with j by lia. now symmetry.
      - repeat split; try lia.
        replace (i + 1 - (0 + 1)) with i by lia.
        replace (j + 1 - (0 + 1)) with j by lia.
        intros t Ht. replace t with 0 by lia.
        rewrite !Nat.add_0_r. now symmetry. }
    destruct Hk as (Hk1 & Hk2 & Hk3 & Hk4).
    apply IH; [exact Hjs| |].
    + intros z k1 Hlook. destruct (decide (Z.of_nat j = z)) as [<-|Hne].
      * rewrite lookup_insert_eq in Hlook. injection Hlook as <-.
        exists j. repeat split; try lia. exact Hk4.
      * rewrite lookup_insert_ne in Hlook by exact Hne. now apply Hnew.
    + destruct (m_size best <? k); [|exact Hbest].
      replace (Z.to_nat (Z.of_nat i - Z.of_nat k + 1)) with (i + 1 - k)
        by lia.
      replace (Z.to_nat (Z.of_nat j - Z.of_nat k + 1)) with (j + 1 - k)
        by lia.
      repeat split; cbn [m_a m_b m_size]; try lia. exact Hk4.
Qed.

Lemma longest_outer_ok (alo ahi blo bhi : nat) :
  alo <= ahi -> blo <= bhi ->
  block_in a b alo ahi blo bhi (longest_outer a b alo ahi blo bhi).2.
Proof.
  intros Ha Hb. unfold longest_outer.
  assert (H : forall n i st,
             alo <= i -> i + n <= ahi ->
             j2len_ok a b alo blo bhi i st.1 ->
             block_in a b alo ahi blo bhi st.2 ->
             block_in a b alo ahi blo bhi
               (fold_left
                  (fun '(j2len, best) i =>
                     longest_inner i blo bhi j2len
                       (default [] (b2j b !! getitem a i)) ∅ best)
                  (seq i n) st).2).
  { induction n as [|n IH]; intros i [j2len best] Hi Hn Hj Hbest;
      cbn [seq fold_left]; [exact Hbest|].
    cbn [fst snd] in Hj, Hbest.
    assert (Hjs : Forall (fun j => getitem b j = getitem a i)
                         (default [] (b2j b !! getitem a i))).
    { destruct (b2j b !! getitem a i) as [js|] eqn:Hlook; cbn [default from_option id];
        [|constructor].
      apply Forall_forall. intros j Hin.
      now destruct (b2j_sound _ _ _ Hlook Hin). }
    assert (Hempty : j2len_ok a b alo blo bhi (i + 1) ∅).
    { intros z k Hz. now rewrite lookup_empty in Hz. }
    destruct (longest_inner_ok alo ahi blo bhi i j2len Hi ltac:(lia) Hj
                _ ∅ best Hjs Hempty Hbest) as [Hj1 Hb1].
    apply IH; try lia.
    - replace (S i) with (i + 1) by lia. exact Hj1.
    - exact Hb1. }
  apply H; cbn [fst snd]; try lia.
  - intros z k Hz. now rewrite lookup_empty in Hz.
  - repeat split; cbn [m_a m_b m_size]; try lia. apply agree_zero.
Qed.

Lemma find_longest_match_block (alo ahi blo bhi : nat) :
  alo <= ahi -> blo <= bhi ->
  block_in a b alo ahi blo bhi (find_longest_match a b alo ahi blo bhi).
Proof.
  intros Ha Hb. unfold find_longest_match.
  do 2 apply extend_block. now apply longest_outer_ok.
Qed.

End matcher_facts.

(** ** [SequenceMatcher]: the blocks fit in the common elements *)

Lemma size_list_to_set_disj (l : str) :
  size (list_to_set_disj l : gmultiset Z) = length l.
Proof.
  induction l as [|x l IH]; [reflexivity|].
  rewrite list_to_set_disj_cons, gmultiset_size_disj_union,
    gmultiset_size_singleton, IH. reflexivity.
Qed.

Lemma common_le_l (x y : str) : common x y <= length x.
Proof.
  unfold common. rewrite <- (size_list_to_set_disj x).
  apply gmultiset_subseteq_size. multiset_solver.
Qed.

Lemma common_le_r (x y : str) : common x y <= length y.
Proof.
  unfold common. rewrite <- (size_list_to_set_disj y).
  apply gmultiset_subseteq_size. multiset_solver.
Qed.

Lemma common_split (x1 x2 y1 y2 m : str) :
  common x1 y1 + length m + common x2 y2
  <= common (x1 ++ m ++ x2) (y1 ++ m ++ y2).
Proof.
  unfold common. rewrite !list_to_set_disj_app.
  rewrite <- (size_list_to_set_disj m), <- !gmultiset_size_disj_union.
  apply gmultiset_subseteq_size. multiset_solver.
Qed.

Lemma slice_length (s : str) (lo hi : nat) :
  hi <= length s -> length (slice s lo hi) = hi - lo.
Proof.
  intros H. unfold slice. rewrite length_take, length_drop. lia.
Qed.

Lemma slice_split (s : str) (lo mid hi : nat) :
  lo <= mid -> mid <= hi ->
  slice s lo hi = slice s lo mid ++ slice s mid hi.
Proof.
  intros H1 H2. unfold slice.
  replace (hi - lo) with ((mid - lo) + (hi - mid)) by lia.
  rewrite <- take_take_drop, drop_drop.
  replace (lo + (mid - lo)) with mid by lia. reflexivity.
Qed.

Lemma slice_full (s : str) : slice s 0 (length s) = s.
Proof.
  unfold slice. rewrite drop_0, Nat.sub_0_r. apply firstn_all.
Qed.

Lemma agree_slices (a b : str) (i j k : nat) :
  i + k <= length a -> j + k <= length b -> agree a b i j k ->
  slice a i (i + k) = slice b j (j + k).
Proof.
  intros Ha Hb Hag. unfold slice.
  replace (i + k - i) with k by lia. replace (j + k - j) with k by lia.
  apply list_eq. intros t.
  destruct (decide (t < k)) as [Ht|Ht].
  - rewrite !lookup_take_lt, !lookup_drop by exact Ht.
    specialize (Hag t Ht). unfold getitem in Hag. rewrite !nth_lookup in Hag.
    destruct (lookup_lt_is_Some_2 a (i + t) ltac:(lia)) as [x Hx].
    destruct (lookup_lt_is_Some_2 b (j + t) ltac:(lia)) as [y Hy].
    rewrite Hx, Hy in *. cbn in Hag. now subst.
  - rewrite !lookup_take_ge by lia. reflexivity.
Qed.

Section blocks_facts.

Variables a b : str.

Lemma block_common (alo ahi blo bhi : nat) (m : Match) :
  range_ok a b (alo, ahi, blo, bhi) ->
  block_in a b alo ahi blo bhi m ->
  range_common a b (alo, m_a m, blo, m_b m) + m_size m
  + range_common a b (m_a m + m_size m, ahi, m_b m + m_size m, bhi)
  <= range_common a b (alo, ahi, blo, bhi).
Proof.
  unfold range_ok, range_common. cbn [fst snd].
  intros [Ha Hb] (H1 & H2 & H3 & H4 & H5). destruct m as [i j k].
  cbn [m_a m_b m_size] in *.
  rewrite (slice_split a alo i ahi), (slice_split a i (i + k) ahi) by lia.
  rewrite (slice_split b blo j bhi), (slice_split b j (j + k) bhi) by lia.
  rewrite (agree_slices a b i j k) by (try exact H5; lia).
  pose proof (common_split (slice a alo i) (slice a (i + k) ahi)
                (slice b blo j) (slice b (j + k) bhi)
                (slice b j (j + k))) as H.
  rewrite slice_length in H by lia. lia.
Qed.

Lemma blocks_loop_bound :
  forall fuel queue mbs,
    Forall (range_ok a b) queue ->
    sum_list (map m_size (blocks_loop a b fuel queue mbs))
    <= sum_list (map m_size mbs) + sum_list (map (range_common a b) queue).
Proof.
  induction fuel as [|fuel IH]; intros queue mbs Hq; cbn [blocks_loop];
    [lia|].
  destruct queue as [|[[[alo ahi] blo] bhi] queue]; [lia|].
  apply Forall_cons in Hq as [He Hq].
  pose proof (find_longest_match_block a b alo ahi blo bhi) as Hb.
  destruct He as [Ha Hbb]. cbn [fst snd] in Ha, Hbb.
  specialize (Hb ltac:(lia) ltac:(lia)).
  pose proof (block_common alo ahi blo bhi _ ltac:(split; assumption) Hb) as Hc.
  set (x := find_longest_match a b alo ahi blo bhi) in *.
  destruct Hb as (H1 & H2 & H3 & H4 & _).
  destruct (m_size x =? 0) eqn:Hk.
  - etransitivity; [apply IH; exact Hq|]. cbn [map sum_list_with id]. lia.
  - etransitivity; [apply IH|].
    + destruct (_ && _); destruct (_ && _); repeat constructor;
        cbn [fst snd]; try lia; exact Hq.
    + rewrite map_app, sum_list_with_app. cbn [map sum_list_with id].
      destruct (_ && _); destruct (_ && _); cbn [map sum_list_with id]; lia.
Qed.

Lemma collapse_sum (blocks : list Match) :
  forall i1 j1 k1,
    sum_list (map m_size (collapse i1 j1 k1 blocks))
    = k1 + sum_list (map m_size blocks).
Proof.
  induction blocks as [|x blocks IH]; intros i1 j1 k1; cbn [collapse].
  - destruct (k1 =? 0) eqn:Hk; cbn; [apply Nat.eqb_eq in Hk|]; lia.
  - destruct (_ && _).
    + rewrite IH. cbn [map sum_list_with id]. lia.
    + rewrite map_app, sum_list_with_app, IH. cbn [map sum_list_with id].
      destruct (k1 =? 0) eqn:Hk; cbn; [apply Nat.eqb_eq in Hk|]; lia.
Qed.

(** The loop of [get_matching_blocks] ends within the fuel it is given:
    what [blocks_loop] returns is the result of the loop. *)
Lemma blocks_loop_runs :
  forall fuel queue mbs,
    Forall (range_ok a b) queue ->
    sum_list (map range_fuel queue) <= fuel ->
    blocks_run a b queue mbs (blocks_loop a b fuel queue mbs).
Proof.
  induction fuel as [|fuel IH]; intros queue mbs Hq Hfuel.
  - destruct queue as [|e queue]; [constructor|].
    cbn [map sum_list_with id] in Hfuel. unfold range_fuel in Hfuel at 1. lia.
  - destruct queue as [|[[[alo ahi] blo] bhi] queue]; [constructor|].
    cbn [blocks_loop]. cbn [map sum_list_with id] in Hfuel.
    unfold range_fuel in Hfuel at 1. cbn [fst snd] in Hfuel.
    apply Forall_cons in Hq as [[Ha Hb] Hq]. cbn [fst snd] in Ha, Hb.
    pose proof (find_longest_match_block a b alo ahi blo bhi
                  ltac:(lia) ltac:(lia)) as (H1 & H2 & H3 & H4 & _).
    destruct (m_size (find_longest_match a b alo ahi blo bhi) =? 0) eqn:Hk.
    + apply Nat.eqb_eq in Hk. apply run_empty; [exact Hk|].
      apply IH; [exact Hq|lia].
    + apply Nat.eqb_neq in Hk. apply run_block; [exact Hk|].
      set (x := find_longest_match a b alo ahi blo bhi) in *.
      assert (Hrf_eq : forall p q r s,
                 range_fuel (p, q, r, s) = 2 * (q - p) + 1)
        by reflexivity.
      destruct ((alo <? m_a x) && (blo <? m_b x)) eqn:Hc1;
        destruct ((m_a x + m_size x <? ahi) && (m_b x + m_size x <? bhi))
          eqn:Hc2;
        cbn [app]; apply IH;
        repeat (apply Forall_cons; split);
        try exact Hq; try (split; cbn [fst snd]; lia);
        cbn [map sum_list_with id];
        rewrite ?Hrf_eq; lia.
Qed.

Lemma get_matching_blocks_runs :
  blocks_run a b [(0, length a, 0, length b)] []
    (blocks_loop a b (2 * length a + 1) [(0, length a, 0, length b)] []).
Proof.
  apply blocks_loop_runs.
  - repeat constructor; cbn [fst snd]; lia.
  - cbn [map sum_list_with id]. unfold range_fuel. cbn [fst snd]. lia.
Qed.

(** The number [ratio] counts is at most the number [quick_ratio]
    counts, which is at most the length of either text. *)
Lemma matches_le_common :
  sum_list (map m_size (get_matching_blocks a b)) <= common a b.
Proof.
  unfold get_matching_blocks.
  rewrite map_app, sum_list_with_app, collapse_sum. cbn [map sum_list_with id m_size].
  rewrite (merge_sort_Permutation match_le).
  pose proof (blocks_loop_bound (2 * length a + 1)
                [(0, length a, 0, length b)] []) as H.
  cbn [map sum_list_with id] in H. unfold range_common in H.
  cbn [fst snd] in H. rewrite !slice_full in H.
  assert (Hq : Forall (range_ok a b) [(0, length a, 0, length b)])
    by (repeat constructor; cbn [fst snd]; lia).
  specialize (H Hq). lia.
Qed.

End blocks_facts.

(** ** [quick_ratio] counts the common elements *)

Section quick_facts.

Variables a b : str.

Lemma fullbcount_multiplicity (c : Z) :
  default 0%Z (fullbcount b !! c)
  = Z.of_nat (multiplicity c (list_to_set_disj b : gmultiset Z)).
Proof.
  unfold fullbcount.
  assert (H : forall (l : str) (m : gmap Z Z) (M : gmultiset Z),
             (forall c, default 0%Z (m !! c) = Z.of_nat (multiplicity c M)) ->
             forall c,
               default 0%Z
                 (fold_left
                    (fun (m : gmap Z Z) elt =>
                       <[elt := (default 0 (m !! elt) + 1)%Z]> m) l m !! c)
               = Z.of_nat (multiplicity c (list_to_set_disj l ⊎ M))).
  { induction l as [|x l IH]; intros m M Hm c0; cbn [fold_left].
    - rewrite list_to_set_disj_nil, Hm, multiplicity_disj_union,
        multiplicity_empty. reflexivity.
    - rewrite (IH _ ({[+ x +]} ⊎ M)).
      + rewrite list_to_set_disj_cons, !multiplicity_disj_union. lia.
      + intros c1. destruct (decide (x = c1)) as [->|Hne].
        * rewrite lookup_insert_eq. cbn [default from_option id].
          rewrite Hm, multiplicity_disj_union, multiplicity_singleton_eq. lia.
        * rewrite lookup_insert_ne by exact Hne.
          rewrite Hm, multiplicity_disj_union, multiplicity_singleton_ne
            by congruence. lia. }
  rewrite (H b ∅ ∅).
  - rewrite multiplicity_disj_union, multiplicity_empty. lia.
  - intros c0. rewrite lookup_empty, multiplicity_empty. reflexivity.
Qed.

Lemma quick_step_common (l : str) :
  forall (avail : gmap Z Z) (matches : nat) (B : gmultiset Z),
    (forall c,
       Z.to_nat (match avail !! c with
                 | Some n => n
                 | None => default 0%Z (fullbcount b !! c)
                 end) = multiplicity c B) ->
    (fold_left (quick_step b) l (avail, matches)).2
    = matches + size (list_to_set_disj l ∩ B).
Proof.
  induction l as [|x l IH]; intros avail matches B HB; cbn [fold_left].
  - rewrite list_to_set_disj_nil.
    replace (∅ ∩ B) with (∅ : gmultiset Z) by multiset_solver.
    rewrite gmultiset_size_empty. cbn. lia.
  - unfold quick_step at 2.
    set (numb := match avail !! x with
                 | Some n => n
                 | None => default 0%Z (fullbcount b !! x)
                 end).
    pose proof (HB x) as Hx. fold numb in Hx.
    destruct (0 <? numb)%Z eqn:Hpos.
    + apply Z.ltb_lt in Hpos.
      rewrite (IH _ _ (B ∖ {[+ x +]})).
      * rewrite list_to_set_disj_cons.
        replace (({[+ x +]} ⊎ list_to_set_disj l) ∩ B)
          with ({[+ x +]} ⊎ (list_to_set_disj l ∩ (B ∖ {[+ x +]}))).
        -- rewrite gmultiset_size_disj_union, gmultiset_size_singleton. lia.
        -- apply gmultiset_eq. intros y.
           rewrite !multiplicity_intersection, !multiplicity_disj_union,
             !multiplicity_intersection, !multiplicity_difference.
           destruct (decide (y = x)) as [->|Hne].
           ++ rewrite multiplicity_singleton_eq. lia.
           ++ rewrite multiplicity_singleton_ne by exact Hne. lia.
      * intros c. rewrite multiplicity_difference.
        destruct (decide (x = c)) as [->|Hne].
        -- rewrite lookup_insert_eq, multiplicity_singleton_eq. lia.
        -- rewrite lookup_insert_ne by exact Hne.
           rewrite multiplicity_singleton_ne by congruence.
           rewrite HB. lia.
    + apply Z.ltb_ge in Hpos.
      rewrite (IH _ _ B).
      * rewrite list_to_set_disj_cons. f_equal. f_equal.
        apply gmultiset_eq. intros y.
        rewrite !multiplicity_intersection, !multiplicity_disj_union.
        destruct (decide (y = x)) as [->|Hne].
        -- rewrite multiplicity_singleton_eq. lia.
        -- rewrite multiplicity_singleton_ne by exact Hne. lia.
      * intros c. destruct (decide (x = c)) as [->|Hne].
        -- rewrite lookup_insert_eq. lia.
        -- rewrite lookup_insert_ne by exact Hne. apply HB.
Qed.

Lemma quick_matches_common : quick_matches a b = common a b.
Proof.
  unfold quick_matches, common.
  rewrite (quick_step_common a ∅ 0 (list_to_set_disj b)); [reflexivity|].
  intros c. rewrite lookup_empty, fullbcount_multiplicity. lia.
Qed.

End quick_facts.

(** ** [get_close_matches] returns a closest possibility *)

(** The exact quotient decides the cutoff and the order of two scores as
    the binary64 quotient of the source does: checked for every pair of
    a match count and a total length below 256 (cutoff) and below 40
    (order). *)
Lemma binary64_agrees : cutoff_agrees 256 = true /\ order_agrees 40 = true.
Proof. split; vm_compute; reflexivity. Qed.

Lemma calculate_ratio_mono (m1 m2 n : nat) :
  m1 <= m2 -> (_calculate_ratio m1 n <= _calculate_ratio m2 n)%Q.
Proof.
  intros H. unfold _calculate_ratio.
  destruct (n =? 0); [apply Qle_refl|].
  unfold Qle. cbn [Qnum Qden]. nia.
Qed.

Lemma ratio_le_quick_ratio (x word : str) :
  (ratio x word <= quick_ratio x word)%Q.
Proof.
  unfold ratio, quick_ratio. apply calculate_ratio_mono.
  rewrite quick_matches_common. apply matches_le_common.
Qed.

Lemma quick_ratio_le_real_quick_ratio (x word : str) :
  (quick_ratio x word <= real_quick_ratio x word)%Q.
Proof.
  unfold quick_ratio, real_quick_ratio. apply calculate_ratio_mono.
  rewrite quick_matches_common.
  pose proof (common_le_l x word). pose proof (common_le_r x word). lia.
Qed.

Lemma close_filter (x word : str) (cutoff : Q) :
  Qle_bool cutoff (real_quick_ratio x word)
  && Qle_bool cutoff (quick_ratio x word)
  && Qle_bool cutoff (ratio x word)
  = Qle_bool cutoff (ratio x word).
Proof.
  destruct (Qle_bool cutoff (ratio x word)) eqn:H;
    [|now rewrite andb_false_r].
  apply Qle_bool_iff in H.
  assert (H1 : (cutoff <= quick_ratio x word)%Q)
    by (eapply Qle_trans; [exact H|apply ratio_le_quick_ratio]).
  assert (H2 : (cutoff <= real_quick_ratio x word)%Q)
    by (eapply Qle_trans; [exact H1|apply quick_ratio_le_real_quick_ratio]).
  apply Qle_bool_iff in H1, H2. now rewrite H1, H2.
Qed.

Lemma tuple_gt_false (p q : Q * str) :
  tuple_gt p q = false -> (p.1 <= q.1)%Q.
Proof.
  unfold tuple_gt. intros H.
  destruct (Qle_bool q.1 p.1) eqn:Hle.
  - cbn [andb] in H. apply orb_false_iff in H as [Heq _].
    apply negb_false_iff, Qeq_bool_iff in Heq.
    rewrite Heq. apply Qle_refl.
  - apply Qlt_le_weak, Qnot_le_lt. intros Hc.
    apply Qle_bool_iff in Hc. congruence.
Qed.

Lemma tuple_gt_true (p q : Q * str) :
  tuple_gt p q = true -> (q.1 <= p.1)%Q.
Proof.
  unfold tuple_gt. intros H. apply andb_true_iff in H as [H _].
  now apply Qle_bool_iff.
Qed.

Lemma py_max_greatest (l : list (Q * str)) (p : Q * str) :
  py_max l = Some p -> p ∈ l /\ forall q, q ∈ l -> (q.1 <= p.1)%Q.
Proof.
  destruct l as [|x rest]; [discriminate|]. cbn [py_max]. intros [= <-].
  assert (H : forall rest cur,
             let r := fold_left
                        (fun cur y => if tuple_gt y cur then y else cur)
                        rest cur in
             (r = cur \/ r ∈ rest)
             /\ (cur.1 <= r.1)%Q
             /\ forall q, q ∈ rest -> (q.1 <= r.1)%Q).
  { clear. induction rest as [|y rest IH]; intros cur; cbn [fold_left].
    - split; [now left|]. split; [apply Qle_refl|].
      intros q Hq. now apply elem_of_nil in Hq.
    - set (cur1 := if tuple_gt y cur then y else cur).
      destruct (IH cur1) as (Hin & Hcur & Hall).
      assert (Hc : (cur.1 <= cur1.1)%Q /\ (y.1 <= cur1.1)%Q
                   /\ (cur1 = cur \/ cur1 = y)).
      { subst cur1. destruct (tuple_gt y cur) eqn:Hgt.
        - split; [now apply tuple_gt_true|]. split; [apply Qle_refl|auto].
        - split; [apply Qle_refl|]. split; [now apply tuple_gt_false|auto]. }
      destruct Hc as (Hc1 & Hc2 & Hc3).
      split; [|split].
      + destruct Hin as [->|Hin]; [|right; now right].
        destruct Hc3 as [->| ->]; [now left|right; now left].
      + eapply Qle_trans; eassumption.
      + intros q Hq. apply elem_of_cons in Hq as [->|Hq]; [|now apply Hall].
        eapply Qle_trans; eassumption. }
  destruct (H rest x) as (Hin & Hcur & Hall). split.
  - destruct Hin as [->|Hin]; [now left|now right].
  - intros q Hq. apply elem_of_cons in Hq as [->|Hq]; [exact Hcur|].
    now apply Hall.
Qed.

Lemma get_close_matches_closest (word : str) (possibilities : list str)
    (cutoff : Q) :
  match get_close_matches word possibilities cutoff with
  | [] => forall x, x ∈ possibilities -> ~ (cutoff <= ratio x word)%Q
  | y :: rest =>
    rest = [] /\ y ∈ possibilities /\ (cutoff <= ratio y word)%Q
    /\ forall z, z ∈ possibilities -> (ratio z word <= ratio y word)%Q
  end.
Proof.
  unfold get_close_matches.
  set (f := fun x : str =>
              if Qle_bool cutoff (real_quick_ratio x word)
                 && Qle_bool cutoff (quick_ratio x word)
                 && Qle_bool cutoff (ratio x word)
              then Some (ratio x word, x) else None).
  assert (Hf : forall x, f x = if Qle_bool cutoff (ratio x word)
                               then Some (ratio x word, x) else None).
  { intros x. subst f. cbv beta. now rewrite close_filter. }
  assert (Hin : forall p, p ∈ omap f possibilities <->
                          p.2 ∈ possibilities /\ p.1 = ratio p.2 word
                          /\ (cutoff <= ratio p.2 word)%Q).
  { intros [s y]. rewrite list_elem_of_omap. cbn [fst snd]. split.
    - intros (x & Hx & Hfx). rewrite Hf in Hfx.
      destruct (Qle_bool cutoff (ratio x word)) eqn:Hle; [|discriminate].
      injection Hfx as <- <-. apply Qle_bool_iff in Hle. auto.
    - intros (Hy & -> & Hle). exists y. split; [exact Hy|].
      rewrite Hf. apply Qle_bool_iff in Hle. now rewrite Hle. }
  destruct (py_max (omap f possibilities)) as [[s y]|] eqn:Hmax.
  - apply py_max_greatest in Hmax as [Hp Hall].
    apply Hin in Hp as (Hy & Hs & Hle). cbn [fst snd] in *.
    split; [reflexivity|]. split; [exact Hy|]. split; [exact Hle|].
    intros z Hz. destruct (Qle_bool cutoff (ratio z word)) eqn:Hz1.
    + apply Qle_bool_iff in Hz1.
      specialize (Hall (ratio z word, z)). cbn [fst snd] in Hall.
      rewrite Hs in Hall. apply Hall, Hin. cbn [fst snd]. auto.
    + eapply Qle_trans; [|exact Hle].
      apply Qlt_le_weak, Qnot_le_lt. intros Hc.
      apply Qle_bool_iff in Hc. congruence.
  - intros x Hx Hle.
    assert (Hp : (ratio x word, x) ∈ omap f possibilities)
      by (apply Hin; cbn [fst snd]; auto).
    destruct (omap f possibilities); [now apply elem_of_nil in Hp|].
    discriminate.
Qed.

(** ** Resolution of an item *)

Lemma get_category_ids_seeded db cat sub :
  seeded db ->
  _get_category_ids db cat sub = _get_category_ids _init_db cat sub.
Proof.
  intros [Hm Hs]. unfold _get_category_ids. rewrite Hm, Hs. reflexivity.
Qed.

Lemma dict_get_elem_of {V : Type} (d : list (str * V)) (key : str) (v : V) :
  dict_get d key = Some v -> (key, v) ∈ d.
Proof.
  unfold dict_get. intros H.
  destruct (List.find _ d) as [[k v0]|] eqn:Hf; [|discriminate].
  injection H as <-. apply find_elem_of in Hf as [Hin Hk].
  apply bool_decide_eq_true_1 in Hk. cbn in Hk. now subst.
Qed.

Lemma seeded_lookup_found db cat subs x :
  seeded db -> dict_get valid_categories cat = Some subs -> x ∈ subs ->
  exists m s,
    _get_category_ids db cat x = (Some m, Some s)
    /\ truthy (Some m) && truthy (Some s) = true.
Proof.
  intros Hseed Hcat Hx. rewrite (get_category_ids_seeded _ _ _ Hseed).
  apply dict_get_elem_of in Hcat.
  assert (Hall : forallb
            (fun p : str * list str =>
               forallb
                 (fun x =>
                    match _get_category_ids _init_db p.1 x with
                    | (Some m, Some s) => truthy (Some m) && truthy (Some s)
                    | _ => false
                    end) p.2)
            valid_categories = true) by (vm_compute; reflexivity).
  pose proof (forallb_elem_of _ _ _ Hall Hcat) as H1. cbv beta in H1.
  pose proof (forallb_elem_of _ _ _ H1 Hx) as H2. cbv beta in H2.
  cbn [fst snd] in H2. clear Hall H1.
  destruct (_get_category_ids _init_db cat x) as [[m|] [s|]];
    try discriminate H2.
  exists m, s. split; [reflexivity|exact H2].
Qed.

Lemma seeded_pair_listed cat subs x :
  dict_get valid_categories cat = Some subs ->
  (cat, x) ∈ pairs valid_categories -> x ∈ subs.
Proof.
  intros Hcat Hp.
  assert (Hall : forallb
            (fun p : str * str =>
               match dict_get valid_categories p.1 with
               | Some subs => bool_decide (p.2 ∈ subs)
               | None => false
               end)
            (pairs valid_categories) = true) by (vm_compute; reflexivity).
  pose proof (forallb_elem_of _ _ _ Hall Hp) as H. cbv beta in H.
  cbn [fst snd] in H. rewrite Hcat in H. clear Hall.
  apply bool_decide_eq_true_1 in H. exact H.
Qed.

Lemma seeded_lookup_missing db cat subs x :
  seeded db -> dict_get valid_categories cat = Some subs -> x ∉ subs ->
  let ids := _get_category_ids db cat x in
  truthy ids.1 && truthy ids.2 = false
  /\ match ids with
     | (Some _, Some _) => False
     | _ => True
     end.
Proof.
  intros Hseed Hcat Hx ids.
  destruct ids as [[m|] [s|]] eqn:Hids; cbn [fst snd truthy];
    try (split; [now rewrite ?andb_false_r|exact I]).
  exfalso. apply Hx. subst ids.
  apply get_category_ids_inv in Hids as [Hm Hs].
  eapply seeded_pair_listed; [exact Hcat|].
  eapply seeded_rows_in_taxonomy; eassumption.
Qed.

Lemma seeded_lookup_unknown_category db cat x :
  seeded db -> dict_get valid_categories cat = None ->
  _get_category_ids db cat x = (None, None).
Proof.
  intros Hseed Hcat. rewrite (get_category_ids_seeded _ _ _ Hseed).
  unfold _get_category_ids.
  destruct (encodable cat); [|reflexivity].
  destruct (List.find _ (main_categories _init_db)) as [m|] eqn:Hf;
    [|reflexivity].
  exfalso. apply find_elem_of in Hf as [Hin Hn].
  apply bool_decide_eq_true_1 in Hn.
  assert (Hall : forallb
            (fun m => match dict_get valid_categories (mc_name m) with
                      | Some _ => true
                      | None => false
                      end)
            (main_categories _init_db) = true) by (vm_compute; reflexivity).
  pose proof (forallb_elem_of _ _ _ Hall Hin) as H. cbv beta in H.
  rewrite Hn, Hcat in H. discriminate H.
Qed.

Lemma seeded_exact_is_closest cat subs x :
  dict_get valid_categories cat = Some subs -> x ∈ subs ->
  closest x subs x /\ (2 # 5 <= ratio x x)%Q.
Proof.
  intros Hcat Hx. apply dict_get_elem_of in Hcat.
  assert (Hall : forallb
            (fun p : str * list str =>
               forallb
                 (fun x =>
                    Qle_bool (2 # 5) (ratio x x)
                    && forallb (fun z => Qle_bool (ratio z x) (ratio x x)) p.2)
                 p.2)
            valid_categories = true) by (vm_compute; reflexivity).
  pose proof (forallb_elem_of _ _ _ Hall Hcat) as H1. cbv beta in H1.
  pose proof (forallb_elem_of _ _ _ H1 Hx) as H2. cbv beta in H2.
  cbn [fst snd] in H2. apply andb_true_iff in H2 as [H2 H3].
  clear Hall H1.
  split; [split; [exact Hx|]|apply Qle_bool_iff; exact H2].
  intros z Hz. pose proof (forallb_elem_of _ _ _ H3 Hz) as H4.
  apply Qle_bool_iff. exact H4.
Qed.

Lemma resolve_exact db it m s :
  _get_category_ids db (category it) (subcategory it) = (Some m, Some s) ->
  truthy (Some m) && truthy (Some s) = true ->
  resolve db it = Some (m, s).
Proof.
  intros Hids Ht. unfold resolve. rewrite Hids. cbn [fst snd].
  rewrite Ht. cbn [negb]. cbn [fst snd]. now rewrite Ht.
Qed.

Lemma resolve_fuzzy db it :
  let ids := _get_category_ids db (category it) (subcategory it) in
  truthy ids.1 && truthy ids.2 = false ->
  resolve db it
  = match get_close_matches (subcategory it)
            (default [] (dict_get valid_categories (category it))) (2 # 5)
    with
    | best :: _ =>
      match _get_category_ids db (category it) best with
      | (Some m, Some s) =>
        if truthy (Some m) && truthy (Some s) then Some (m, s) else None
      | _ => None
      end
    | [] => None
    end.
Proof.
  intros ids Ht. unfold resolve. fold ids. rewrite Ht. cbn [negb].
  destruct (get_close_matches _ _ _) as [|best rest].
  - destruct ids as [[m|] [s|]]; try reflexivity.
    cbn [fst snd] in *. now rewrite Ht.
  - destruct (_get_category_ids db (category it) best) as [[m|] [s|]];
      reflexivity.
Qed.

(** C2: on a store with the seeded category tables.  When the category
    of the item is a key of [valid_categories] with subcategories
    [subs]: if some subcategory of [subs] has similarity 0.4 or more to
    the item's subcategory text, the item resolves to the ids of the
    category and of a subcategory of [subs] whose similarity is the
    greatest; if none has, the item does not resolve.  When the
    category is no key, the item does not resolve. *)
Theorem resolve_by_similarity (db : database) (it : item) :
  seeded db ->
  match dict_get valid_categories (category it) with
  | Some subs =>
    ((exists x, x ∈ subs /\ (2 # 5 <= ratio x (subcategory it))%Q) ->
     exists y m s,
       resolve db it = Some (m, s)
       /\ closest (subcategory it) subs y
       /\ {| mc_id := m; mc_name := category it |} ∈ main_categories db
       /\ {| sc_id := s; sc_main_category_id := m; sc_name := y |}
          ∈ sub_categories db)
    /\ ((forall x, x ∈ subs -> ~ (2 # 5 <= ratio x (subcategory it))%Q) ->
        resolve db it = None)
  | None => resolve db it = None
  end.
Proof.
  intros Hseed.
  destruct (dict_get valid_categories (category it)) as [subs|] eqn:Hcat.
  - split.
    + intros (x & Hx & Hle).
      destruct (decide (subcategory it ∈ subs)) as [Hin|Hnin].
      * destruct (seeded_lookup_found db _ _ _ Hseed Hcat Hin)
          as (m & s & Hids & Ht).
        exists (subcategory it), m, s.
        split; [now apply resolve_exact|].
        split; [eapply seeded_exact_is_closest; eassumption|].
        now apply get_category_ids_inv.
      * destruct (seeded_lookup_missing db _ _ _ Hseed Hcat Hnin) as [Ht _].
        rewrite (resolve_fuzzy db it Ht), Hcat. cbn [default from_option id].
        pose proof (get_close_matches_closest (subcategory it) subs (2 # 5))
          as Hclose.
        destruct (get_close_matches _ _ _) as [|y rest];
          [now apply Hclose in Hle|].
        destruct Hclose as (_ & Hy & _ & Hmax).
        destruct (seeded_lookup_found db _ _ _ Hseed Hcat Hy)
          as (m & s & Hids & Ht2).
        exists y, m, s. rewrite Hids, Ht2.
        split; [reflexivity|]. split; [split; assumption|].
        now apply get_category_ids_inv.
    + intros Hnone.
      assert (Hnin : subcategory it ∉ subs).
      { intros Hin. apply (Hnone _ Hin).
        eapply seeded_exact_is_closest; eassumption. }
      destruct (seeded_lookup_missing db _ _ _ Hseed Hcat Hnin) as [Ht _].
      rewrite (resolve_fuzzy db it Ht), Hcat. cbn [default from_option id].
      pose proof (get_close_matches_closest (subcategory it) subs (2 # 5))
        as Hclose.
      destruct (get_close_matches _ _ _) as [|y rest]; [reflexivity|].
      destruct Hclose as (_ & Hy & Hle & _). now apply Hnone in Hle.
  - unfold resolve.
    rewrite (seeded_lookup_unknown_category db _ _ Hseed Hcat), Hcat.
    reflexivity.
Qed.

(** The item (음식, 음료수) on the seeded store. *)
Lemma resolve_by_similarity_witness :
  let it := {| name := u "탄산수"; category := u "음식";
               subcategory := u "음료수"; amount := 1500 |} in
  seeded _init_db
  /\ match dict_get valid_categories (category it) with
     | Some subs =>
       ((exists x, x ∈ subs /\ (2 # 5 <= ratio x (subcategory it))%Q) ->
        exists y m s,
          resolve _init_db it = Some (m, s)
          /\ closest (subcategory it) subs y
          /\ {| mc_id := m; mc_name := category it |}
             ∈ main_categories _init_db
          /\ {| sc_id := s; sc_main_category_id := m; sc_name := y |}
             ∈ sub_categories _init_db)
       /\ ((forall x, x ∈ subs -> ~ (2 # 5 <= ratio x (subcategory it))%Q) ->
           resolve _init_db it = None)
     | None => resolve _init_db it = None
     end.
Proof.
  intros it. split; [exact init_db_seeded|].
  exact (resolve_by_similarity _init_db it init_db_seeded).
Defined.

(** * Further properties *)

(** An item of a sample resolves and can be bound. *)
Ltac by_sample :=
  split; [eexists; vm_compute; reflexivity|split; vm_compute; reflexivity].

(** ** [add_receipt]: what a call stores *)

Lemma largest_id_app (seq : Z) (ids : list Z) (x : Z) :
  largest_id seq (ids ++ [x]) = Z.max (largest_id seq ids) x.
Proof.
  unfold largest_id. induction ids as [|y ids IH]; cbn [app fold_right].
  - lia.
  - rewrite IH. lia.
Qed.

Lemma largest_id_ge_seq (seq : Z) (ids : list Z) :
  (seq <= largest_id seq ids)%Z.
Proof.
  unfold largest_id. induction ids as [|y ids IH]; cbn [fold_right]; lia.
Qed.

Lemma largest_id_ge (seq : Z) (ids : list Z) (x : Z) :
  x ∈ ids -> (x <= largest_id seq ids)%Z.
Proof.
  unfold largest_id. induction ids as [|y ids IH]; intros Hx.
  - now apply elem_of_nil in Hx.
  - apply elem_of_cons in Hx as [->|Hx]; cbn [fold_right]; [lia|].
    specialize (IH Hx). lia.
Qed.

Lemma largest_id_filter {A : Type} (f : A -> Z) (P : A -> Prop)
    `{forall x, Decision (P x)} (seq : Z) (l : list A) :
  (largest_id seq (map f (filter P l)) <= largest_id seq (map f l))%Z.
Proof.
  unfold largest_id. induction l as [|x l IH]; [cbn; lia|].
  destruct (decide (P x)) as [Hp|Hp].
  - rewrite filter_cons_True by exact Hp. cbn [map fold_right]. lia.
  - rewrite filter_cons_False by exact Hp. cbn [map fold_right]. lia.
Qed.

Lemma next_id_room (seq : Z) (ids : list Z) (n : nat) :
  room seq ids (S n) ->
  next_id seq ids = Some (largest_id seq ids + 1)%Z.
Proof.
  intros [H0 Hn]. unfold next_id. fold (largest_id seq ids).
  pose proof (largest_id_ge_seq seq ids).
  replace (int64_ok _) with true; [reflexivity|].
  symmetry. unfold int64_ok. apply andb_true_iff. split.
  - apply Z.leb_le. lia.
  - apply Z.ltb_lt. lia.
Qed.

Lemma next_id_bindable (seq : Z) (ids : list Z) (k : Z) :
  next_id seq ids = Some k -> int64_ok k = true.
Proof.
  unfold next_id. intros H.
  destruct (int64_ok _) eqn:E; [|discriminate H].
  injection H as <-. exact E.
Qed.

Lemma insert_receipt_id db store date total id db0 :
  insert_receipt db store date total = Some (id, db0) ->
  int64_ok id = true /\ seq_items db0 = seq_items db.
Proof.
  unfold insert_receipt. intros H.
  destruct (_ && _); [|discriminate H].
  destruct (next_id _ _) as [k|] eqn:Hk; [|discriminate H].
  injection H as <- <-. split; [|reflexivity].
  eapply next_id_bindable; eassumption.
Qed.

Lemma resolved_ids_bindable db it m s :
  seeded db -> resolve db it = Some (m, s) ->
  int64_ok m = true /\ int64_ok s = true.
Proof.
  intros Hseed Hres.
  destruct (resolve_in_taxonomy db it m s Hseed Hres)
    as (c & sb & _ & Hm & Hs).
  destruct Hseed as [Em Es]. rewrite Em in Hm. rewrite Es in Hs.
  assert (Hall1 : forallb (fun r => int64_ok (mc_id r))
                          (main_categories _init_db) = true)
    by (vm_compute; reflexivity).
  assert (Hall2 : forallb (fun r => int64_ok (sc_id r))
                          (sub_categories _init_db) = true)
    by (vm_compute; reflexivity).
  pose proof (forallb_elem_of _ _ _ Hall1 Hm) as H1.
  pose proof (forallb_elem_of _ _ _ Hall2 Hs) as H2.
  clear Hall1 Hall2. split; [exact H1|exact H2].
Qed.

Lemma insert_items_all committed id its :
  seeded committed -> int64_ok id = true ->
  Forall (fun it => is_Some (resolve committed it) /\ item_bindable it) its ->
  forall db,
    room (seq_items db) (map i_id (items db)) (length its) ->
    exists db1, insert_items committed id its db = Completed db1.
Proof.
  intros Hseed Hid Hall.
  induction Hall as [|it its [[[m s] Hres] [Hn Ha]] _ IH]; intros db Hroom;
    cbn [insert_items].
  - now exists db.
  - rewrite Hres. cbn [length] in Hroom.
    destruct (resolved_ids_bindable _ _ _ _ Hseed Hres) as [Hm Hs].
    unfold insert_item. rewrite Hid, Hn, Hm, Hs, Ha. cbn [andb].
    rewrite (next_id_room _ _ _ Hroom).
    apply IH. cbn [seq_items items]. destruct Hroom as [H0 Hr].
    pose proof (largest_id_ge_seq (seq_items db) (map i_id (items db))).
    split; [lia|].
    rewrite map_app. cbn [map i_id]. rewrite largest_id_app.
    set (M := largest_id (seq_items db) (map i_id (items db))) in *.
    assert (HM : largest_id (M + 1) (map i_id (items db)) = (M + 1)%Z).
    { assert (Hle : forall l, (forall x, x ∈ l -> (x <= M)%Z) ->
                              largest_id (M + 1) l = (M + 1)%Z).
      { unfold largest_id. induction l as [|x l IHl]; intros Hl;
          cbn [fold_right]; [reflexivity|].
        rewrite IHl by (intros y Hy; apply Hl; now right).
        specialize (Hl x ltac:(now left)). lia. }
      apply Hle. intros x Hx. now apply largest_id_ge. }
    rewrite HM. lia.
Qed.

(** X1: on a store with the seeded category tables, when the
    arguments can be bound, every item resolves and both tables can
    still number their new rows, [add_receipt] returns an id greater
    than every receipt id of the store and leaves the store with one
    more receipt row, carrying the arguments, and one more item row for
    each item of the list, in order, carrying that id and the resolved
    category ids. *)
Theorem add_receipt_stores_every_item (db : database) (store_name date : str)
    (its : list item) (total_amount : Z) :
  seeded db ->
  receipt_bindable store_name date total_amount ->
  Forall (fun it => is_Some (resolve db it) /\ item_bindable it) its ->
  room (seq_receipts db) (map r_id (receipts db)) 1 ->
  room (seq_items db) (map i_id (items db)) (length its) ->
  exists id db1 rows,
    add_receipt db store_name date its total_amount = (Some id, db1)
    /\ Forall (fun r => (r_id r < id)%Z) (receipts db)
    /\ receipts db1
       = receipts db ++ [{| r_id := id; r_store_name := store_name;
                            r_date := date;
                            r_total_amount := total_amount |}]
    /\ items db1 = items db ++ rows
    /\ Forall2 (row_of db id) rows its.
Proof.
  intros Hseed (Hs & Hd & Ht) Hall Hr Hi. unfold add_receipt.
  destruct (insert_receipt db store_name date total_amount)
    as [[id db0]|] eqn:Hins.
  - pose proof Hins as Hinv.
    apply insert_receipt_inv in Hinv as (_ & _ & Hit & Hrec & Hlt).
    destruct (insert_receipt_id _ _ _ _ _ _ Hins) as [Hid Hseq].
    destruct (insert_items_all db id its Hseed Hid Hall db0) as [db1 Hdone].
    { rewrite Hseq, Hit. exact Hi. }
    rewrite Hdone. exists id, db1.
    apply insert_items_completed in Hdone as [(_ & _ & Hr1 & _) (rows & Hrows & HF)].
    exists rows. split; [reflexivity|]. split; [exact Hlt|].
    split; [congruence|]. split; [congruence|exact HF].
  - exfalso. unfold insert_receipt in Hins. rewrite Hs, Hd, Ht in Hins.
    cbn [andb] in Hins. rewrite (next_id_room _ _ _ Hr) in Hins.
    discriminate Hins.
Qed.

(** A receipt of two items on the seeded store, the second of which
    (음식, 음료수) resolves by similarity. *)
Lemma add_receipt_stores_every_item_witness :
  let db := _init_db in
  let americano := {| name := u "아메리카노"; category := u "음식";
                     subcategory := u "음료"; amount := 4500 |} in
  let soda := {| name := u "탄산수"; category := u "음식";
                subcategory := u "음료수"; amount := 1500 |} in
  let its := [americano; soda] in
  exists id db1 rows,
    add_receipt db (u "스타벅스") (u "2024-03-15") its 6000 = (Some id, db1)
    /\ Forall (fun r => (r_id r < id)%Z) (receipts db)
    /\ receipts db1
       = receipts db ++ [{| r_id := id; r_store_name := u "스타벅스";
                            r_date := u "2024-03-15";
                            r_total_amount := 6000 |}]
    /\ items db1 = items db ++ rows
    /\ Forall2 (row_of db id) rows its.
Proof.
  intros db americano soda its.
  apply (add_receipt_stores_every_item db (u "스타벅스") (u "2024-03-15")
           its 6000).
  - exact init_db_seeded.
  - vm_compute. repeat split.
  - apply Forall_cons. split; [by_sample|].
    apply Forall_cons. split; [by_sample|]. constructor.
  - split; [vm_compute; discriminate|vm_compute; reflexivity].
  - split; [vm_compute; discriminate|vm_compute; reflexivity].
Defined.

Lemma insert_items_appends committed id its :
  forall db,
    match insert_items committed id its db with
    | Completed db1 | Unresolved db1 =>
      items_only db db1
      /\ seq_main_categories db1 = seq_main_categories db
      /\ exists rows, items db1 = items db ++ rows
                      /\ length rows <= length its
                      /\ Forall (fun r => i_receipt_id r = id) rows
    | Raised => True
    end.
Proof.
  induction its as [|x its IH]; intros db; cbn [insert_items].
  - split; [apply items_only_refl|]. split; [reflexivity|].
    exists []. rewrite app_nil_r. repeat split; [cbn; lia|constructor].
  - destruct (resolve committed x) as [[m s]|].
    + destruct (insert_item db id (name x) m s (amount x)) as [db0|] eqn:Hins;
        [|exact I].
      assert (Hsm : seq_main_categories db0 = seq_main_categories db).
      { unfold insert_item in Hins. destruct (_ && _); [|discriminate Hins].
        destruct (next_id _ _); [|discriminate Hins].
        injection Hins as <-. reflexivity. }
      apply insert_item_inv in Hins as [Hframe [k Hk]].
      specialize (IH db0).
      destruct (insert_items committed id its db0) as [db1|db1|];
        [| |exact I];
        destruct IH as (Hf & Hs1 & rows & Hrows & Hlen & Hall);
        (split; [eapply items_only_trans; eassumption|]);
        (split; [congruence|]);
        eexists (_ :: rows);
        (split; [rewrite Hrows, Hk, <- app_assoc; reflexivity|]);
        (split; [cbn [length]; lia|]);
        constructor; [reflexivity|exact Hall|reflexivity|exact Hall].
    + split; [apply items_only_refl|]. split; [reflexivity|].
      exists []. rewrite app_nil_r. repeat split; [cbn; lia|constructor].
Qed.

Lemma add_receipt_only_appends_aux (db : database) (store_name date : str)
    (its : list item) (total_amount : Z) :
  let db1 := (add_receipt db store_name date its total_amount).2 in
  main_categories db1 = main_categories db
  /\ sub_categories db1 = sub_categories db
  /\ exists new_receipts new_items,
       receipts db1 = receipts db ++ new_receipts
       /\ length new_receipts <= 1
       /\ items db1 = items db ++ new_items
       /\ length new_items <= length its.
Proof.
  assert (Hsame : main_categories db = main_categories db
                  /\ sub_categories db = sub_categories db
                  /\ exists new_receipts new_items,
                       receipts db = receipts db ++ new_receipts
                       /\ length new_receipts <= 1
                       /\ items db = items db ++ new_items
                       /\ length new_items <= length its).
  { split; [reflexivity|]. split; [reflexivity|]. exists [], [].
    rewrite !app_nil_r. cbn [length]. repeat split; lia. }
  unfold add_receipt.
  destruct (insert_receipt db store_name date total_amount)
    as [[id db0]|] eqn:Hins; [|exact Hsame].
  apply insert_receipt_inv in Hins as (Hm & Hs & Hit & Hrec & _).
  pose proof (insert_items_appends db id its db0) as H.
  destruct (insert_items db id its db0) as [db1|db1|]; [| |exact Hsame];
    destruct H as ((Hm1 & Hs1 & Hr1 & _) & _ & rows & Hrows & Hlen & _);
    cbn [snd];
    (split; [congruence|]); (split; [congruence|]);
    eexists [_], rows; rewrite Hr1, Hrec, Hrows, Hit;
    repeat split; cbn [length]; lia.
Qed.

(** X2: whatever its arguments, [add_receipt] leaves the two category
    tables as they are and removes or changes no row: the receipts and
    the items of the store stay, in order, followed by at most one new
    receipt row and at most one new item row for each item of the
    list. *)
Theorem add_receipt_only_appends (db : database) (store_name date : str)
    (its : list item) (total_amount : Z) :
  let db1 := (add_receipt db store_name date its total_amount).2 in
  main_categories db1 = main_categories db
  /\ sub_categories db1 = sub_categories db
  /\ exists new_receipts new_items,
       receipts db1 = receipts db ++ new_receipts
       /\ length new_receipts <= 1
       /\ items db1 = items db ++ new_items
       /\ length new_items <= length its.
Proof. apply add_receipt_only_appends_aux. Qed.

Lemma add_receipt_returned (db : database) (store_name date : str)
    (its : list item) (total_amount : Z) (id : Z) (db1 : database) :
  add_receipt db store_name date its total_amount = (Some id, db1) ->
  Forall (fun r => (r_id r < id)%Z) (receipts db)
  /\ receipts db1
     = receipts db ++ [{| r_id := id; r_store_name := store_name;
                          r_date := date; r_total_amount := total_amount |}]
  /\ exists rows, items db1 = items db ++ rows
                  /\ Forall2 (row_of db id) rows its.
Proof.
  unfold add_receipt. intros H.
  destruct (insert_receipt db store_name date total_amount)
    as [[id0 db0]|] eqn:Hins; [|discriminate H].
  apply insert_receipt_inv in Hins as (_ & _ & Hit & Hrec & Hlt).
  destruct (insert_items db id0 its db0) as [db2|db2|] eqn:Hloop;
    try discriminate H.
  injection H as <- <-.
  apply insert_items_completed in Hloop
    as [(_ & _ & Hr1 & _) (rows & Hrows & HF)].
  split; [exact Hlt|]. split; [congruence|].
  exists rows. split; [congruence|exact HF].
Qed.

(** X3: whenever [add_receipt] returns an id, that id is greater
    than every receipt id the store had, the store has gained the
    receipt row of the arguments and exactly one item row for each item
    of the list, in order, and every item of the list resolved. *)
Theorem add_receipt_id_means_stored (db : database) (store_name date : str)
    (its : list item) (total_amount : Z) (id : Z) (db1 : database) :
  add_receipt db store_name date its total_amount = (Some id, db1) ->
  Forall (fun r => (r_id r < id)%Z) (receipts db)
  /\ receipts db1
     = receipts db ++ [{| r_id := id; r_store_name := store_name;
                          r_date := date; r_total_amount := total_amount |}]
  /\ exists rows, items db1 = items db ++ rows
                  /\ Forall2 (row_of db id) rows its.
Proof. apply add_receipt_returned. Qed.

(** The first receipt of the seeded store, which is given the id 1. *)
Lemma add_receipt_id_means_stored_witness :
  let db := _init_db in
  let americano := {| name := u "아메리카노"; category := u "음식";
                     subcategory := u "음료"; amount := 4500 |} in
  let db1 :=
    (add_receipt db (u "스타벅스") (u "2024-03-15") [americano] 4500).2 in
  Forall (fun r => (r_id r < 1)%Z) (receipts db)
  /\ receipts db1
     = receipts db ++ [{| r_id := 1; r_store_name := u "스타벅스";
                          r_date := u "2024-03-15";
                          r_total_amount := 4500 |}]
  /\ exists rows, items db1 = items db ++ rows
                  /\ Forall2 (row_of db 1) rows [americano].
Proof.
  intros db americano db1.
  apply (add_receipt_id_means_stored db (u "스타벅스") (u "2024-03-15")
           [americano] 4500 1 db1).
  vm_compute. reflexivity.
Defined.

(** ** [update_receipt]: what a call replaces *)

Lemma update_receipt_row_shape db rid st dt tot db0 :
  update_receipt_row db rid st dt tot = Some db0 ->
  receipts db0 = map (updated_row rid st dt tot) (receipts db)
  /\ seq_items db0 = seq_items db /\ int64_ok rid = true.
Proof.
  unfold update_receipt_row. intros H.
  destruct (_ && _) eqn:E; [|discriminate H]. injection H as <-.
  apply andb_true_iff in E as [_ E]. repeat split. exact E.
Qed.

(** X4: on a store with the seeded category tables, when the
    arguments can be bound, every item resolves and [items] can still
    number the new rows, [update_receipt] returns [True]; afterwards the
    receipt row of that id carries the new fields, the other receipt
    rows are as before, the item rows of other receipts are as before
    and in order, and the item rows of that id are one for each item of
    the list, in order. *)
Theorem update_receipt_replaces_items (db : database) (receipt_id : Z)
    (store_name date : str) (its : list item) (total_amount : Z) :
  seeded db ->
  int64_ok receipt_id = true ->
  receipt_bindable store_name date total_amount ->
  Forall (fun it => is_Some (resolve db it) /\ item_bindable it) its ->
  room (seq_items db) (map i_id (items db)) (length its) ->
  exists db1 rows,
    update_receipt db receipt_id store_name date its total_amount
    = (true, db1)
    /\ receipts db1
       = map (updated_row receipt_id store_name date total_amount)
             (receipts db)
    /\ items db1
       = filter (fun i => i_receipt_id i <> receipt_id) (items db) ++ rows
    /\ Forall2 (row_of db receipt_id) rows its.
Proof.
  intros Hseed Hid (Hs & Hd & Ht) Hall Hroom. unfold update_receipt.
  destruct (update_receipt_row db receipt_id store_name date total_amount)
    as [db0|] eqn:Hupd.
  - destruct (update_receipt_row_shape _ _ _ _ _ _ Hupd) as (Hrec & Hseq & _).
    apply update_receipt_row_inv in Hupd as (_ & _ & Hit).
    destruct (insert_items_all db receipt_id its Hseed Hid Hall
                (delete_items db0 receipt_id)) as [db1 Hdone].
    { unfold delete_items. cbn [seq_items items]. rewrite Hseq, Hit.
      destruct Hroom as [H0 Hr]. split; [exact H0|].
      pose proof (largest_id_filter i_id
                    (fun i => i_receipt_id i <> receipt_id)
                    (seq_items db) (items db)). lia. }
    rewrite Hdone. exists db1.
    apply insert_items_completed in Hdone
      as [(_ & _ & Hr1 & _) (rows & Hrows & HF)].
    exists rows. split; [reflexivity|].
    unfold delete_items in Hr1, Hrows. cbn [receipts items] in Hr1, Hrows.
    split; [congruence|]. split; [congruence|exact HF].
  - exfalso. unfold update_receipt_row in Hupd.
    rewrite Hs, Hd, Ht, Hid in Hupd. discriminate Hupd.
Qed.

(** The receipt 1 of a store of one receipt, given another date and two
    items. *)
Lemma update_receipt_replaces_items_witness :
  let americano := {| name := u "아메리카노"; category := u "음식";
                     subcategory := u "음료"; amount := 4500 |} in
  let soda := {| name := u "탄산수"; category := u "음식";
                subcategory := u "음료수"; amount := 1500 |} in
  let db := run [ Add (u "스타벅스") (u "2024-03-15") [americano] 4500 ] in
  exists db1 rows,
    update_receipt db 1 (u "스타벅스") (u "2024-03-16") [americano; soda] 6000
    = (true, db1)
    /\ receipts db1
       = map (updated_row 1 (u "스타벅스") (u "2024-03-16") 6000)
             (receipts db)
    /\ items db1 = filter (fun i => i_receipt_id i <> 1%Z) (items db) ++ rows
    /\ Forall2 (row_of db 1) rows [americano; soda].
Proof.
  intros americano soda db.
  apply (update_receipt_replaces_items db 1 (u "스타벅스") (u "2024-03-16")
           [americano; soda] 6000).
  - split; vm_compute; reflexivity.
  - vm_compute. reflexivity.
  - vm_compute. repeat split.
  - apply Forall_cons. split; [by_sample|].
    apply Forall_cons. split; [by_sample|]. constructor.
  - split; [vm_compute; discriminate|vm_compute; reflexivity].
Defined.

Lemma filter_app_other (rid : Z) (l rows : list item_row) :
  Forall (fun r => i_receipt_id r = rid) rows ->
  filter (fun i => i_receipt_id i <> rid) (l ++ rows)
  = filter (fun i => i_receipt_id i <> rid) l.
Proof.
  intros H. rewrite filter_app.
  replace (filter _ rows) with (@nil item_row); [apply app_nil_r|].
  symmetry. induction H as [|r rows Hr _ IH]; [reflexivity|].
  rewrite filter_cons_False by (intros Hn; now apply Hn). exact IH.
Qed.

Lemma filter_filter_same (rid : Z) (l : list item_row) :
  filter (fun i => i_receipt_id i <> rid)
         (filter (fun i => i_receipt_id i <> rid) l)
  = filter (fun i => i_receipt_id i <> rid) l.
Proof.
  induction l as [|x l IH]; [reflexivity|].
  destruct (decide (i_receipt_id x <> rid)) as [Hx|Hx].
  - rewrite (filter_cons_True _ x l) by exact Hx.
    rewrite filter_cons_True by exact Hx. now rewrite IH.
  - rewrite (filter_cons_False _ x l) by exact Hx. exact IH.
Qed.

Lemma updated_rows_other (rid : Z) (st dt : str) (tot : Z)
    (l : list receipt_row) :
  map r_id (map (updated_row rid st dt tot) l) = map r_id l
  /\ filter (fun r => r_id r <> rid) (map (updated_row rid st dt tot) l)
     = filter (fun r => r_id r <> rid) l.
Proof.
  induction l as [|r l [IH1 IH2]]; [split; reflexivity|].
  cbn [map]. unfold updated_row at 1 3.
  destruct (r_id r =? rid)%Z eqn:E.
  - apply Z.eqb_eq in E. cbn [r_id]. split; [now rewrite IH1|].
    rewrite !filter_cons_False by (cbn [r_id]; intros Hn; now apply Hn).
    exact IH2.
  - apply Z.eqb_neq in E. split; [now rewrite IH1|].
    rewrite !filter_cons_True by exact E. now rewrite IH2.
Qed.

(** X5: whatever its arguments, [update_receipt] leaves the two
    category tables as they are, adds and removes no receipt row, and
    changes neither a receipt row of another id nor an item row of
    another receipt. *)
Theorem update_receipt_touches_one_receipt (db : database) (receipt_id : Z)
    (store_name date : str) (its : list item) (total_amount : Z) :
  let db1 :=
    (update_receipt db receipt_id store_name date its total_amount).2 in
  main_categories db1 = main_categories db
  /\ sub_categories db1 = sub_categories db
  /\ map r_id (receipts db1) = map r_id (receipts db)
  /\ filter (fun r => r_id r <> receipt_id) (receipts db1)
     = filter (fun r => r_id r <> receipt_id) (receipts db)
  /\ filter (fun i => i_receipt_id i <> receipt_id) (items db1)
     = filter (fun i => i_receipt_id i <> receipt_id) (items db).
Proof.
  assert (Hsame : main_categories db = main_categories db
                  /\ sub_categories db = sub_categories db
                  /\ map r_id (receipts db) = map r_id (receipts db)
                  /\ filter (fun r => r_id r <> receipt_id) (receipts db)
                     = filter (fun r => r_id r <> receipt_id) (receipts db)
                  /\ filter (fun i => i_receipt_id i <> receipt_id) (items db)
                     = filter (fun i => i_receipt_id i <> receipt_id)
                              (items db))
    by (repeat split).
  unfold update_receipt.
  destruct (update_receipt_row db receipt_id store_name date total_amount)
    as [db0|] eqn:Hupd; [|exact Hsame].
  destruct (update_receipt_row_shape _ _ _ _ _ _ Hupd) as (Hrec & _ & _).
  apply update_receipt_row_inv in Hupd as (Hm & Hs & Hit).
  destruct (updated_rows_other receipt_id store_name date total_amount
              (receipts db)) as [Hids Hother].
  pose proof (insert_items_appends db receipt_id its
                (delete_items db0 receipt_id)) as H.
  destruct (insert_items db receipt_id its (delete_items db0 receipt_id))
    as [db1|db1|]; [| |exact Hsame];
    destruct H as ((Hm1 & Hs1 & Hr1 & _) & _ & rows & Hrows & _ & Hown);
    cbn [snd]; unfold delete_items in Hm1, Hs1, Hr1, Hrows;
    cbn [main_categories sub_categories receipts items] in Hm1, Hs1, Hr1, Hrows;
    (split; [congruence|]); (split; [congruence|]);
    rewrite Hr1, Hrec, Hrows, Hit;
    (split; [exact Hids|]); (split; [exact Hother|]);
    rewrite (filter_app_other _ _ _ Hown); apply filter_filter_same.
Qed.

(** X6: when the item list holds an item that does not resolve,
    [x] being the first such, [update_receipt] returns [False]; the call
    either leaves the store as it was (an exception rolled it back) or
    leaves the receipt row updated and, for that receipt, only the rows
    of the items before [x]: the item rows the receipt had are gone. *)
Theorem update_receipt_unresolved_item (db : database) (receipt_id : Z)
    (store_name date : str) (pre : list item) (x : item) (post : list item)
    (total_amount : Z) :
  Forall (fun y => is_Some (resolve db y)) pre ->
  resolve db x = None ->
  let '(result, db1) :=
    update_receipt db receipt_id store_name date (pre ++ x :: post)
                   total_amount in
  result = false
  /\ (db1 = db
      \/ exists rows,
           receipts db1
           = map (updated_row receipt_id store_name date total_amount)
                 (receipts db)
           /\ items db1
              = filter (fun i => i_receipt_id i <> receipt_id) (items db)
                ++ rows
           /\ Forall2 (row_of db receipt_id) rows pre).
Proof.
  intros Hpre Hx. unfold update_receipt.
  destruct (update_receipt_row db receipt_id store_name date total_amount)
    as [db0|] eqn:Hupd; [|split; [reflexivity|now left]].
  destruct (update_receipt_row_shape _ _ _ _ _ _ Hupd) as (Hrec & _ & _).
  apply update_receipt_row_inv in Hupd as (_ & _ & Hit).
  destruct (insert_items_unresolved db receipt_id pre x post Hpre Hx
              (delete_items db0 receipt_id))
    as [->|(db1 & -> & (_ & _ & Hr1 & _) & rows & Hrows & HF)];
    [split; [reflexivity|now left]|].
  split; [reflexivity|]. right. exists rows.
  unfold delete_items in Hr1, Hrows. cbn [receipts items] in Hr1, Hrows.
  split; [congruence|]. split; [congruence|exact HF].
Qed.

(** The receipt 1 of a store of one receipt, given three items, the
    second of which (쇼핑, 전자제품) does not resolve. *)
Lemma update_receipt_unresolved_item_witness :
  let ok := {| name := u "아메리카노"; category := u "음식";
                     subcategory := u "음료"; amount := 4500 |} in
  let bad := {| name := u "충전기"; category := u "쇼핑";
                subcategory := u "전자제품"; amount := 9900 |} in
  let db := run [ Add (u "스타벅스") (u "2024-03-15") [ok] 4500 ] in
  let '(result, db1) :=
    update_receipt db 1 (u "마트") (u "2024-03-16") ([ok] ++ bad :: [ok])
                   18900 in
  result = false
  /\ (db1 = db
      \/ exists rows,
           receipts db1
           = map (updated_row 1 (u "마트") (u "2024-03-16") 18900)
                 (receipts db)
           /\ items db1
              = filter (fun i => i_receipt_id i <> 1%Z) (items db) ++ rows
           /\ Forall2 (row_of db 1) rows [ok]).
Proof.
  intros ok bad db.
  apply (update_receipt_unresolved_item db 1 (u "마트") (u "2024-03-16")
           [ok] bad [ok] 18900).
  - apply Forall_cons. split; [|constructor].
    eexists. vm_compute. reflexivity.
  - vm_compute. reflexivity.
Defined.

(** ** The seeded category tables *)

(** X7: on a store with the seeded category tables,
    [_get_category_ids] finds both ids, neither of them zero, for every
    pair of [valid_categories], and finds both ids for no other pair. *)
Theorem category_ids_found_iff_listed (db : database) (cat sub : str) :
  seeded db ->
  ((cat, sub) ∈ pairs valid_categories ->
   exists m s, _get_category_ids db cat sub = (Some m, Some s)
               /\ m <> 0%Z /\ s <> 0%Z)
  /\ (forall m s, _get_category_ids db cat sub = (Some m, Some s) ->
                  (cat, sub) ∈ pairs valid_categories).
Proof.
  intros Hseed. split.
  - intros Hp. rewrite (get_category_ids_seeded _ _ _ Hseed).
    assert (Hall : forallb
              (fun p : str * str =>
                 match _get_category_ids _init_db p.1 p.2 with
                 | (Some m, Some s) => negb (m =? 0)%Z && negb (s =? 0)%Z
                 | _ => false
                 end)
              (pairs valid_categories) = true) by (vm_compute; reflexivity).
    pose proof (forallb_elem_of _ _ _ Hall Hp) as H. cbv beta in H.
    cbn [fst snd] in H. clear Hall.
    destruct (_get_category_ids _init_db cat sub) as [[m|] [s|]];
      try discriminate H.
    exists m, s. apply andb_true_iff in H as [H1 H2].
    apply negb_true_iff, Z.eqb_neq in H1, H2. auto.
  - intros m s Hids. apply get_category_ids_inv in Hids as [Hm Hs].
    eapply seeded_rows_in_taxonomy; eassumption.
Qed.

(** The pair (음식, 음료) on the seeded store. *)
Lemma category_ids_found_iff_listed_witness :
  ((u "음식", u "음료") ∈ pairs valid_categories ->
   exists m s, _get_category_ids _init_db (u "음식") (u "음료")
               = (Some m, Some s)
               /\ m <> 0%Z /\ s <> 0%Z)
  /\ (forall m s, _get_category_ids _init_db (u "음식") (u "음료")
                  = (Some m, Some s) ->
                  (u "음식", u "음료") ∈ pairs valid_categories).
Proof.
  exact (category_ids_found_iff_listed _init_db (u "음식") (u "음료")
           init_db_seeded).
Defined.

(** X8: on a store with the seeded category tables the
    subcategory id identifies the pair: two lookups that find the same
    subcategory id were made with the same category and the same
    subcategory name. *)
Theorem category_ids_identify_pair (db : database) (cat1 sub1 cat2 sub2 : str)
    (m1 m2 s : Z) :
  seeded db ->
  _get_category_ids db cat1 sub1 = (Some m1, Some s) ->
  _get_category_ids db cat2 sub2 = (Some m2, Some s) ->
  cat1 = cat2 /\ sub1 = sub2 /\ m1 = m2.
Proof.
  intros Hseed H1 H2.
  apply get_category_ids_inv in H1 as [Hm1 Hs1].
  apply get_category_ids_inv in H2 as [Hm2 Hs2].
  pose proof (seeded_sub_id_unique db _ _ _ Hseed Hs1) as E1.
  pose proof (seeded_sub_id_unique db _ _ _ Hseed Hs2) as E2.
  rewrite E1 in E2. injection E2 as -> ->.
  pose proof (seeded_main_id_unique db _ _ Hseed Hm1) as F1.
  pose proof (seeded_main_id_unique db _ _ Hseed Hm2) as F2.
  rewrite F1 in F2. injection F2 as ->. auto.
Qed.

(** The pair (음식, 음료), whose ids are 6 and 27 on the seeded store. *)
Lemma category_ids_identify_pair_witness :
  _get_category_ids _init_db (u "음식") (u "음료") = (Some 6%Z, Some 27%Z)
  /\ u "음식" = u "음식" /\ u "음료" = u "음료" /\ 6%Z = 6%Z.
Proof.
  assert (H : _get_category_ids _init_db (u "음식") (u "음료")
              = (Some 6%Z, Some 27%Z)) by (vm_compute; reflexivity).
  split; [exact H|].
  exact (category_ids_identify_pair _init_db (u "음식") (u "음료")
           (u "음식") (u "음료") 6 6 27 init_db_seeded H H).
Defined.

(** ** Resolution of an item, continued *)

Lemma resolve_seeded db it :
  seeded db -> resolve db it = resolve _init_db it.
Proof.
  intros Hseed. unfold resolve.
  rewrite (get_category_ids_seeded db _ _ Hseed).
  destruct (negb _); [|reflexivity].
  destruct (get_close_matches _ _ _) as [|best rest]; [reflexivity|].
  now rewrite (get_category_ids_seeded db _ _ Hseed).
Qed.

(** X9: on a store with the seeded category tables an item whose
    pair is listed in [valid_categories] resolves to the ids of that
    very pair: the similarity search is not consulted for a name that
    is listed. *)
Theorem listed_pair_resolves_to_itself (db : database) (it : item) :
  seeded db ->
  (category it, subcategory it) ∈ pairs valid_categories ->
  exists m s,
    _get_category_ids db (category it) (subcategory it) = (Some m, Some s)
    /\ resolve db it = Some (m, s).
Proof.
  intros Hseed Hp.
  rewrite (get_category_ids_seeded _ _ _ Hseed).
  rewrite (resolve_seeded _ _ Hseed).
  assert (Hall : forallb
            (fun p : str * str =>
               match _get_category_ids _init_db p.1 p.2 with
               | (Some m, Some s) => truthy (Some m) && truthy (Some s)
               | _ => false
               end)
            (pairs valid_categories) = true) by (vm_compute; reflexivity).
  pose proof (forallb_elem_of _ _ _ Hall Hp) as H. cbv beta in H.
  cbn [fst snd] in H. clear Hall.
  destruct (_get_category_ids _init_db (category it) (subcategory it))
    as [[m|] [s|]] eqn:Hids; try discriminate H.
  exists m, s. split; [reflexivity|]. now apply resolve_exact.
Qed.

(** An item of the pair (음식, 음료) on the seeded store. *)
Lemma listed_pair_resolves_to_itself_witness :
  let it := {| name := u "아메리카노"; category := u "음식";
                     subcategory := u "음료"; amount := 4500 |} in
  exists m s,
    _get_category_ids _init_db (category it) (subcategory it)
    = (Some m, Some s)
    /\ resolve _init_db it = Some (m, s).
Proof.
  intros it.
  apply (listed_pair_resolves_to_itself _init_db it init_db_seeded).
  by_evaluation.
Defined.

(** X10: on a store with the seeded category tables, the ids an
    item resolves to are those of the item's own category and of one of
    the subcategories listed under it: the correction never moves an
    item to another category. *)
Theorem resolve_keeps_category (db : database) (it : item) (m s : Z) :
  seeded db ->
  resolve db it = Some (m, s) ->
  {| mc_id := m; mc_name := category it |} ∈ main_categories db
  /\ exists sub,
       (category it, sub) ∈ pairs valid_categories
       /\ {| sc_id := s; sc_main_category_id := m; sc_name := sub |}
          ∈ sub_categories db.
Proof.
  intros Hseed. unfold resolve.
  set (ids := _get_category_ids db (category it) (subcategory it)).
  set (ids1 := if negb _ then _ else _).
  assert (Hids1 : exists sub, ids1 = _get_category_ids db (category it) sub).
  { subst ids1. destruct (negb _); [|now exists (subcategory it)].
    destruct (get_close_matches _ _ _) as [|best ?];
      [now exists (subcategory it)|now exists best]. }
  destruct Hids1 as [sub Hsub].
  destruct ids1 as [[m1|] [s1|]]; try discriminate.
  destruct (_ && _); [|discriminate].
  intros [= <- <-]. symmetry in Hsub.
  apply get_category_ids_inv in Hsub as [Hm Hs].
  split; [exact Hm|]. exists sub. split; [|exact Hs].
  eapply seeded_rows_in_taxonomy; eassumption.
Qed.

(** An item of the pair (음식, 음료수), which resolves to the ids of
    (음식, 음료). *)
Lemma resolve_keeps_category_witness :
  let it := {| name := u "탄산수"; category := u "음식";
                subcategory := u "음료수"; amount := 1500 |} in
  {| mc_id := 6; mc_name := category it |} ∈ main_categories _init_db
  /\ exists sub,
       (category it, sub) ∈ pairs valid_categories
       /\ {| sc_id := 27; sc_main_category_id := 6; sc_name := sub |}
          ∈ sub_categories _init_db.
Proof.
  intros it.
  apply (resolve_keeps_category _init_db it 6 27 init_db_seeded).
  vm_compute. reflexivity.
Defined.

(** X11: on a store with the seeded category tables, an item
    whose pair is in the table of [_is_valid_category] resolves, unless
    the pair is (미용, 세정), which the parser accepts and the store
    cannot resolve. *)
Theorem parser_pair_resolves_unless_sejeong (db : database) (it : item) :
  seeded db ->
  (category it, subcategory it) ∈ pairs parser_categories ->
  (resolve db it = None
   <-> category it = u "미용" /\ subcategory it = u "세정").
Proof.
  intros Hseed Hp. rewrite (resolve_seeded _ _ Hseed).
  assert (Hext : resolve _init_db it
                 = resolve _init_db
                     {| name := []; category := category it;
                        subcategory := subcategory it; amount := 0 |})
    by reflexivity.
  rewrite Hext. clear Hext.
  assert (Hall : forallb
            (fun p : str * str =>
               Bool.eqb
                 (match resolve _init_db
                          {| name := []; category := p.1;
                             subcategory := p.2; amount := 0 |} with
                  | None => true
                  | Some _ => false
                  end)
                 (bool_decide (p.1 = u "미용" /\ p.2 = u "세정")))
            (pairs parser_categories) = true) by (vm_compute; reflexivity).
  pose proof (forallb_elem_of _ _ _ Hall Hp) as H. cbv beta in H.
  cbn [fst snd] in H. clear Hall. apply eqb_prop in H.
  destruct (resolve _init_db _) as [ids|].
  - symmetry in H. apply bool_decide_eq_false_1 in H.
    split; [intros E; discriminate E|intros E; now apply H in E].
  - symmetry in H. apply bool_decide_eq_true_1 in H.
    split; [intros _; exact H|reflexivity].
Qed.

(** An item of the pair (음식, 음료) on the seeded store. *)
Lemma parser_pair_resolves_unless_sejeong_witness :
  let it := {| name := u "아메리카노"; category := u "음식";
                     subcategory := u "음료"; amount := 4500 |} in
  resolve _init_db it = None
  <-> category it = u "미용" /\ subcategory it = u "세정".
Proof.
  intros it.
  apply (parser_pair_resolves_unless_sejeong _init_db it init_db_seeded).
  by_evaluation.
Defined.

(** ** The line parser *)

Lemma lstrip_clean (s : str) : clean_head (lstrip s).
Proof.
  induction s as [|c s IH]; cbn [lstrip]; [exact I|].
  destruct (isspace c) eqn:E; [exact IH|exact E].
Qed.

Lemma lstrip_of_clean (s : str) : clean_head s -> lstrip s = s.
Proof.
  destruct s as [|c s]; [reflexivity|]. cbn [clean_head lstrip].
  now intros ->.
Qed.

Lemma lstrip_app_nonspace (l : str) (c : Z) (r : str) :
  isspace c = false -> lstrip (l ++ c :: r) = lstrip l ++ c :: r.
Proof.
  intros Hc. induction l as [|x l IH]; cbn [app lstrip].
  - now rewrite Hc.
  - destruct (isspace x); [exact IH|reflexivity].
Qed.

Lemma rstrip_cons_nonspace (c : Z) (r : str) :
  isspace c = false -> rstrip (c :: r) = c :: rstrip r.
Proof.
  intros Hc. unfold rstrip. cbn [rev].
  rewrite (lstrip_app_nonspace (rev r) c [] Hc), rev_app_distr.
  reflexivity.
Qed.

Lemma rstrip_idempotent (s : str) : rstrip (rstrip s) = rstrip s.
Proof.
  unfold rstrip. rewrite rev_involutive.
  now rewrite (lstrip_of_clean _ (lstrip_clean (rev s))).
Qed.

Lemma strip_idempotent (s : str) : strip (strip s) = strip s.
Proof.
  unfold strip.
  assert (Hc : clean_head (rstrip (lstrip s))).
  { pose proof (lstrip_clean s) as H.
    destruct (lstrip s) as [|c r]; [exact I|].
    cbn [clean_head] in H. rewrite (rstrip_cons_nonspace c r H). exact H. }
  rewrite (lstrip_of_clean _ Hc). apply rstrip_idempotent.
Qed.

Lemma elem_of_pairs (table : list (str * list str)) (cat sub : str)
    (subs : list str) :
  (cat, subs) ∈ table -> sub ∈ subs -> (cat, sub) ∈ pairs table.
Proof.
  intros Ht Hs. unfold pairs. apply list_elem_of_bind.
  exists (cat, subs). split; [|exact Ht]. cbn.
  apply list_elem_of_bind. exists sub. split; [|exact Hs].
  now apply list_elem_of_singleton.
Qed.

Lemma valid_category_pair (cat sub : str) :
  _is_valid_category cat sub = true ->
  (strip cat, strip sub) ∈ pairs parser_categories.
Proof.
  unfold _is_valid_category. intros H.
  destruct (dict_get parser_categories (strip cat)) as [subs|] eqn:Hget;
    [|discriminate H].
  apply bool_decide_eq_true_1 in H. apply dict_get_elem_of in Hget.
  eapply elem_of_pairs; eassumption.
Qed.

Lemma match_date_shape (s : str) (m : match_object) :
  match_here date_pattern s = Some m -> is_date_text (group0 m) = true.
Proof.
  unfold match_here, date_pattern. cbn [exec].
  destruct s as [|c0 s]; [discriminate|].
  destruct (isdecimal c0) eqn:E0; [|discriminate].
  destruct s as [|c1 s]; [discriminate|].
  destruct (isdecimal c1) eqn:E1; [|discriminate].
  destruct s as [|c2 s]; [discriminate|].
  destruct (isdecimal c2) eqn:E2; [|discriminate].
  destruct s as [|c3 s]; [discriminate|].
  destruct (isdecimal c3) eqn:E3; [|discriminate].
  destruct s as [|c4 s]; [discriminate|].
  destruct (c4 =? 45)%Z eqn:E4; [|discriminate].
  destruct s as [|c5 s]; [discriminate|].
  destruct (isdecimal c5) eqn:E5; [|discriminate].
  destruct s as [|c6 s]; [discriminate|].
  destruct (isdecimal c6) eqn:E6; [|discriminate].
  destruct s as [|c7 s]; [discriminate|].
  destruct (c7 =? 45)%Z eqn:E7; [|discriminate].
  destruct s as [|c8 s]; [discriminate|].
  destruct (isdecimal c8) eqn:E8; [|discriminate].
  destruct s as [|c9 s]; [discriminate|].
  destruct (isdecimal c9) eqn:E9; [|discriminate].
  intros [= <-]. cbn [group0 length].
  replace (S (S (S (S (S (S (S (S (S (S (length s)))))))))) - length s)
    with 10 by lia.
  cbn [take is_date_text]. now rewrite E0, E1, E2, E3, E4, E5, E6, E7, E8, E9.
Qed.

Lemma search_date_shape (s : str) (m : match_object) :
  search date_pattern s = Some m -> is_date_text (group0 m) = true.
Proof.
  induction s as [|c s IH]; cbn [search].
  - destruct (match_here date_pattern []) eqn:E; [|discriminate].
    intros [= <-]. eapply match_date_shape; eassumption.
  - destruct (match_here date_pattern (c :: s)) eqn:E.
    + intros [= <-]. eapply match_date_shape; eassumption.
    + exact IH.
Qed.

Lemma parse_date_shape_aux (line date : str) :
  _parse_date line = Some date -> is_date_text date = true.
Proof.
  unfold _parse_date.
  destruct (search date_pattern _) as [m|] eqn:E; [|discriminate].
  intros [= <-]. eapply search_date_shape; eassumption.
Qed.

(** X12: when [_parse_date] returns a text, the text is ten
    characters long, decimal digits with a hyphen at the fifth and at
    the eighth place. *)
Theorem parse_date_shape (line date : str) :
  _parse_date line = Some date -> is_date_text date = true.
Proof. apply parse_date_shape_aux. Qed.

(** The date line of a response. *)
Lemma parse_date_shape_witness :
  _parse_date (u "날짜: 2024-03-15") = Some (u "2024-03-15")
  /\ is_date_text (u "2024-03-15") = true.
Proof.
  assert (H : _parse_date (u "날짜: 2024-03-15") = Some (u "2024-03-15"))
    by (vm_compute; reflexivity).
  split; [exact H|].
  exact (parse_date_shape (u "날짜: 2024-03-15") (u "2024-03-15") H).
Defined.

Lemma parse_item_valid (line : str) (it : item) :
  parse_item line = Ok (Some it) ->
  (category it, subcategory it) ∈ pairs parser_categories.
Proof.
  unfold parse_item. intros H.
  destruct (_ && _); [|discriminate H].
  destruct (3 <=? _); [|discriminate H].
  destruct (search amount_pattern line); [|discriminate H].
  destruct (int _); [|discriminate H].
  destruct (_is_valid_category _ _) eqn:Hv; [|discriminate H].
  injection H as <-. cbn [category subcategory].
  apply valid_category_pair in Hv. now rewrite !strip_idempotent in Hv.
Qed.

Lemma continues_refl (d : draft) : continues d d.
Proof. repeat split. exists []. now rewrite app_nil_r. Qed.

Lemma continues_trans (d d1 d2 : draft) :
  (str_truthy (d_store_name d) = true -> d_store_name d1 = d_store_name d) ->
  (str_truthy (d_date d) = true -> d_date d1 = d_date d) ->
  (exists more, d_items d1 = d_items d ++ more) ->
  continues d1 d2 -> continues d d2.
Proof.
  intros Hs Hd [m1 Hi] (Hs2 & Hd2 & m2 & Hi2). split; [|split].
  - intros H. specialize (Hs H). rewrite Hs2; [exact Hs|now rewrite Hs].
  - intros H. specialize (Hd H). rewrite Hd2; [exact Hd|now rewrite Hd].
  - exists (m1 ++ m2). now rewrite Hi2, Hi, app_assoc.
Qed.

Lemma parse_item_total_step (d d1 : draft) (line : str) :
  parse_item_total d line = Ok d1 ->
  d_store_name d1 = d_store_name d /\ d_date d1 = d_date d
  /\ exists more,
       d_items d1 = d_items d ++ more
       /\ Forall (fun it => (category it, subcategory it)
                            ∈ pairs parser_categories) more.
Proof.
  unfold parse_item_total. intros H.
  destruct (parse_item line) as [it|] eqn:Hit; [|discriminate H].
  destruct (scan_total _ _ _) as [t|]; [|discriminate H].
  injection H as <-. cbn [d_store_name d_date d_items].
  split; [reflexivity|]. split; [reflexivity|].
  destruct it as [it|].
  - exists [it]. split; [reflexivity|]. constructor; [|constructor].
    now apply parse_item_valid in Hit.
  - exists []. split; [now rewrite app_nil_r|constructor].
Qed.

Lemma parse_date_on_step (d d1 : draft) (line : str) :
  parse_date_on d line = Ok d1 ->
  d_store_name d1 = d_store_name d
  /\ (str_truthy (d_date d) = true -> d_date d1 = d_date d)
  /\ (forall t, d_date d1 = Some t ->
                d_date d = Some t \/ is_date_text t = true)
  /\ exists more,
       d_items d1 = d_items d ++ more
       /\ Forall (fun it => (category it, subcategory it)
                            ∈ pairs parser_categories) more.
Proof.
  unfold parse_date_on. intros H.
  destruct (negb (str_truthy (d_date d)) && _) eqn:Hc.
  - apply andb_true_iff in Hc as [Hn _]. apply negb_true_iff in Hn.
    cbn [d_date] in H.
    destruct (str_truthy (_parse_date line)) eqn:Ht.
    + injection H as <-. cbn [d_store_name d_date d_items].
      split; [reflexivity|]. split; [intros E; congruence|].
      split; [intros t E; right; now apply parse_date_shape_aux in E|].
      exists []. split; [now rewrite app_nil_r|constructor].
    + apply parse_item_total_step in H as (Hs & Hd & Hi).
      cbn [d_store_name d_date d_items] in Hs, Hd, Hi.
      split; [exact Hs|]. split; [intros E; congruence|].
      split; [|exact Hi].
      intros t E. right. rewrite Hd in E. now apply parse_date_shape_aux in E.
  - apply parse_item_total_step in H as (Hs & Hd & Hi).
    split; [exact Hs|]. split; [intros _; exact Hd|].
    split; [|exact Hi]. intros t E. left. now rewrite <- Hd.
Qed.

Lemma parse_line_step (d d1 : draft) (line : str) :
  parse_line d line = Ok d1 ->
  continues d d1 /\ (draft_ok d -> draft_ok d1).
Proof.
  unfold parse_line.
  destruct (strip line) as [|c l] eqn:Hl.
  - intros [= <-]. split; [apply continues_refl|auto].
  - set (ln := c :: l).
    assert (Hstep : forall d0,
               d_date d0 = d_date d -> d_items d0 = d_items d ->
               (str_truthy (d_store_name d) = true ->
                d_store_name d0 = d_store_name d) ->
               parse_date_on d0 ln = Ok d1 ->
               continues d d1 /\ (draft_ok d -> draft_ok d1)).
    { intros d0 Ed Ei Es H.
      apply parse_date_on_step in H as (Hs & Hd & Hshape & more & Hi & Hv).
      split.
      - split; [|split].
        + intros E. rewrite Hs. now apply Es.
        + intros E. rewrite <- Ed. apply Hd. now rewrite Ed.
        + exists more. now rewrite Hi, Ei.
      - intros [Hdate Hitems]. split.
        + intros t E. destruct (Hshape t E) as [E0|E0]; [|exact E0].
          apply Hdate. now rewrite <- Ed.
        + rewrite Hi, Ei. apply Forall_app. split; assumption. }
    destruct (negb (str_truthy (d_store_name d)) && _) eqn:Hc.
    + apply andb_true_iff in Hc as [Hn _]. apply negb_true_iff in Hn.
      cbn [d_store_name].
      destruct (str_truthy (Some (_parse_store_name ln))) eqn:Ht.
      * intros [= <-]. split.
        -- split; [|split]; cbn [d_store_name d_date d_items].
           ++ intros E. congruence.
           ++ reflexivity.
           ++ exists []. now rewrite app_nil_r.
        -- intros [Hdate Hitems]. split; assumption.
      * apply Hstep; try reflexivity. intros E. congruence.
    + apply Hstep; reflexivity.
Qed.

Lemma parse_lines_step (lines : list str) :
  forall d d1,
    parse_lines d lines = Ok d1 ->
    continues d d1 /\ (draft_ok d -> draft_ok d1).
Proof.
  induction lines as [|line lines IH]; intros d d1; cbn [parse_lines].
  - intros [= <-]. split; [apply continues_refl|auto].
  - destruct (parse_line d line) as [d0|] eqn:Hline; [|discriminate].
    intros H. apply parse_line_step in Hline as [(Hs & Hd & Hi) Hok0].
    apply IH in H as [Hc Hok1]. split.
    + eapply continues_trans; eassumption.
    + auto.
Qed.

(** X13: in the line loop a store name and a date, once found,
    are locked: the lines that follow leave them as they are, and they
    add items after the items already read, never removing one. *)
Theorem parse_lines_locks_fields (d d1 : draft) (lines : list str) :
  parse_lines d lines = Ok d1 -> continues d d1.
Proof. intros H. now apply parse_lines_step in H. Qed.

(** A draft that has its store name, and three more lines: another name,
    a date and an item. *)
Lemma parse_lines_locks_fields_witness :
  let d := {| d_store_name := Some (u "스타벅스"); d_date := None;
              d_items := []; d_total_amount := None |} in
  let lines := [ u "가게명: 이마트"; u "날짜: 2024-03-15";
                 u "아메리카노: 음식:음료 (4,500원)" ] in
  let d1 := match parse_lines d lines with Ok d1 => d1 | Exn => d end in
  continues d d1.
Proof.
  intros d lines d1.
  apply (parse_lines_locks_fields d d1 lines).
  vm_compute. reflexivity.
Defined.

Lemma parse_response_draft_ok_aux (response : str) (d : draft) :
  parse_response response = Ok d -> draft_ok d.
Proof.
  unfold parse_response. intros H. apply parse_lines_step in H as [_ H].
  apply H. split; [intros t E; discriminate E|constructor].
Qed.

(** X14: in the draft the parser makes of a response, the date,
    when there is one, is ten characters [dddd-dd-dd], and every item
    carries a category and a subcategory that form a pair of the table
    of [_is_valid_category]. *)
Theorem parse_response_draft_ok (response : str) (d : draft) :
  parse_response response = Ok d -> draft_ok d.
Proof. apply parse_response_draft_ok_aux. Qed.

(** A response of four lines. *)
Lemma parse_response_draft_ok_witness :
  let response :=
    u "가게명: 스타벅스" ++ [10%Z] ++ u "날짜: 2024-03-15" ++ [10%Z]
    ++ u "아메리카노: 음식:음료 (4,500원)" ++ [10%Z] ++ u "총액: 4,500원" in
  let d :=
    match parse_response response with
    | Ok d => d
    | Exn => {| d_store_name := None; d_date := None; d_items := [];
                d_total_amount := None |}
    end in
  draft_ok d.
Proof.
  intros response d.
  apply (parse_response_draft_ok response d).
  vm_compute. reflexivity.
Defined.

(** ** [process_receipt]: what a successful call stored *)

(** X15: whenever [process_receipt] returns [True], the store has
    gained exactly one receipt row, whose store name is not empty, whose
    date is ten characters [dddd-dd-dd] and whose total is not zero,
    and at least one item row, each for that receipt; the category
    tables and the rows the store had are as before. *)
Theorem process_receipt_success (db : database) (response : option str)
    (receipt_text : str) (db1 : database) :
  process_receipt db response receipt_text = (true, db1) ->
  exists id store_name date total_amount rows,
    store_name <> [] /\ is_date_text date = true /\ total_amount <> 0%Z
    /\ main_categories db1 = main_categories db
    /\ sub_categories db1 = sub_categories db
    /\ receipts db1
       = receipts db ++ [{| r_id := id; r_store_name := store_name;
                            r_date := date;
                            r_total_amount := total_amount |}]
    /\ items db1 = items db ++ rows
    /\ rows <> []
    /\ Forall (fun r => i_receipt_id r = id) rows.
Proof.
  unfold process_receipt. intros H.
  destruct response as [[|c resp]|]; try discriminate H.
  destruct (parse_response (c :: resp)) as [d|] eqn:Hparse;
    cbv beta iota in H; [|discriminate H].
  apply parse_response_draft_ok_aux in Hparse as [Hdate _].
  destruct (d_store_name d) as [[|s0 st]|] eqn:Hst; cbn [str_truthy negb] in H;
    try discriminate H.
  destruct (d_date d) as [[|d0 dt]|] eqn:Hdt; cbn [str_truthy negb] in H;
    try discriminate H.
  destruct (d_items d) as [|it its] eqn:Hits; [discriminate H|].
  set (total := if truthy (d_total_amount d) then _ else _) in H.
  destruct total as [[t|]|]; try discriminate H.
  destruct (t =? 0)%Z eqn:Ht; [discriminate H|]. apply Z.eqb_neq in Ht.
  cbn [default from_option id] in H.
  destruct (add_receipt db (s0 :: st) (d0 :: dt) (it :: its) t)
    as [[id|] db2] eqn:Hadd; cbn [truthy] in H; [|discriminate H].
  injection H as _ <-.
  pose proof (add_receipt_only_appends_aux db (s0 :: st) (d0 :: dt)
                (it :: its) t) as Hframe.
  rewrite Hadd in Hframe. cbn [snd] in Hframe.
  destruct Hframe as (Hm & Hs & _).
  apply add_receipt_returned in Hadd as (_ & Hrec & rows & Hrows & HF).
  exists id, (s0 :: st), (d0 :: dt), t, rows.
  split; [discriminate|]. split; [now apply Hdate|]. split; [exact Ht|].
  split; [exact Hm|]. split; [exact Hs|]. split; [exact Hrec|].
  split; [exact Hrows|]. split.
  - inversion HF; discriminate.
  - clear -HF. induction HF as [|r x rows its0 (Hr & _) _ IH];
      constructor; assumption.
Qed.

(** A response of four lines on the seeded store. *)
Lemma process_receipt_success_witness :
  let response :=
    u "가게명: 스타벅스" ++ [10%Z] ++ u "날짜: 2024-03-15" ++ [10%Z]
    ++ u "아메리카노: 음식:음료 (4,500원)" ++ [10%Z] ++ u "총액: 4,500원" in
  let db := _init_db in
  let db1 := (process_receipt db (Some response) []).2 in
  exists id store_name date total_amount rows,
    store_name <> [] /\ is_date_text date = true /\ total_amount <> 0%Z
    /\ main_categories db1 = main_categories db
    /\ sub_categories db1 = sub_categories db
    /\ receipts db1
       = receipts db ++ [{| r_id := id; r_store_name := store_name;
                            r_date := date;
                            r_total_amount := total_amount |}]
    /\ items db1 = items db ++ rows
    /\ rows <> []
    /\ Forall (fun r => i_receipt_id r = id) rows.
Proof.
  intros response db db1.
  apply (process_receipt_success db (Some response) [] db1).
  vm_compute. reflexivity.
Defined.

(** ** [get_statistics]: the totals are rolled up *)

Section dict_facts.

Context {K V : Type} `{EqDecision K}.

Lemma dict_get_in (d : list (K * V)) (k : K) (v : V) :
  dict_get d k = Some v -> (k, v) ∈ d.
Proof.
  unfold dict_get. intros H.
  destruct (List.find _ d) as [[k0 v0]|] eqn:Hf; [|discriminate H].
  injection H as <-. apply find_elem_of in Hf as [Hin Hk].
  apply bool_decide_eq_true_1 in Hk. cbn in Hk. now subst.
Qed.

Lemma dict_set_in (d : list (K * V)) (k : K) (v : V) (e : K * V) :
  e ∈ dict_set d k v -> e = (k, v) \/ e ∈ d.
Proof.
  induction d as [|p d IH]; cbn [dict_set]; intros He.
  - apply list_elem_of_singleton in He. now left.
  - destruct (bool_decide (p.1 = k)).
    + apply elem_of_cons in He as [->|He]; [now left|right; now right].
    + apply elem_of_cons in He as [->|He]; [right; now left|].
      destruct (IH He) as [->|Hd]; [now left|right; now right].
Qed.

Lemma dict_set_Forall (P : K * V -> Prop) (d : list (K * V)) (k : K) (v : V) :
  Forall P d -> P (k, v) -> Forall P (dict_set d k v).
Proof.
  intros Hd Hv. apply Forall_forall. intros e He.
  apply dict_set_in in He as [->|He]; [exact Hv|].
  rewrite Forall_forall in Hd. now apply Hd.
Qed.

Lemma dict_set_sum (g : V -> Z) (d : list (K * V)) (k : K) (v : V) :
  fold_right Z.add 0%Z (map (fun e => g e.2) (dict_set d k v))
  = (fold_right Z.add 0%Z (map (fun e => g e.2) d)
     - match dict_get d k with Some old => g old | None => 0 end
     + g v)%Z.
Proof.
  unfold dict_get. induction d as [|p d IH]; cbn [dict_set List.find].
  - cbn. lia.
  - destruct (bool_decide (p.1 = k)); cbn [map fold_right snd].
    + lia.
    + rewrite IH. lia.
Qed.

End dict_facts.

Lemma leaves_in (stats : list (option str * period_stats))
    (k : option str * str * str) :
  k ∈ leaves stats <->
  exists p c l,
    (k.1.1, p) ∈ stats /\ (k.1.2, c) ∈ categories p
    /\ (k.2, l) ∈ subcategories c.
Proof.
  unfold leaves. rewrite list_elem_of_bind. split.
  - intros ([p0 p] & Hb & Hp). cbn [fst snd] in Hb.
    apply list_elem_of_bind in Hb as ([c0 c] & Hb & Hc). cbn [fst snd] in Hb.
    apply list_elem_of_bind in Hb as ([l0 l] & Hb & Hl). cbn [fst snd] in Hb.
    apply list_elem_of_singleton in Hb. subst k. cbn [fst snd].
    now exists p, c, l.
  - intros (p & c & l & Hp & Hc & Hl). destruct k as [[k1 k2] k3].
    cbn [fst snd] in *. exists (k1, p). split; [|exact Hp].
    apply list_elem_of_bind. exists (k2, c). split; [|exact Hc].
    apply list_elem_of_bind. exists (k3, l). split; [|exact Hl].
    now apply list_elem_of_singleton.
Qed.

Lemma add_stat_row_leaves (stats : list (option str * period_stats))
    (row : group_row) (k : option str * str * str) :
  k ∈ leaves (add_stat_row stats row) ->
  k = group_row_key row \/ k ∈ leaves stats.
Proof.
  unfold add_stat_row. intros Hk.
  apply leaves_in in Hk as (p & c & l & Hp & Hc & Hl).
  destruct k as [[k1 k2] k3]. cbn [fst snd] in *.
  apply dict_set_in in Hp as [[= -> ->]|Hp];
    [|right; apply leaves_in; now exists p, c, l].
  cbn [categories] in Hc.
  destruct (dict_get stats (g_period row)) as [p0|] eqn:Hp0;
    cbn [default from_option id categories] in Hc.
  - apply dict_get_in in Hp0.
    apply dict_set_in in Hc as [[= -> ->]|Hc];
      [|right; apply leaves_in; now exists p0, c, l].
    cbn [subcategories] in Hl.
    destruct (dict_get (categories p0) (g_main_category row)) as [c0|] eqn:Hc0;
      cbn [default from_option id subcategories] in Hl.
    + apply dict_get_in in Hc0.
      apply dict_set_in in Hl as [[= -> ->]|Hl]; [now left|].
      right. apply leaves_in. now exists p0, c0, l.
    + apply dict_set_in in Hl as [[= -> ->]|Hl]; [now left|].
      now apply elem_of_nil in Hl.
  - apply dict_set_in in Hc as [[= -> ->]|Hc];
      [|now apply elem_of_nil in Hc].
    cbn [dict_get List.find default from_option id subcategories dict_set]
      in Hl.
    apply list_elem_of_singleton in Hl as [= -> ->]. now left.
Qed.

Lemma add_stat_row_rolled_up (stats : list (option str * period_stats))
    (row : group_row) :
  rolled_up stats -> group_row_key row ∉ leaves stats ->
  rolled_up (add_stat_row stats row).
Proof.
  intros Hok Hfresh. unfold add_stat_row, rolled_up.
  apply dict_set_Forall; [exact Hok|]. cbn [fst snd total_amount categories].
  set (p := default {| total_amount := 0; categories := [] |}
                    (dict_get stats (g_period row))).
  set (c := default {| cat_total_amount := 0; subcategories := [] |}
                    (dict_get (categories p) (g_main_category row))).
  assert (Hp : total_amount p = category_sum p
               /\ Forall (fun c => cat_total_amount c.2 = leaf_sum c.2)
                         (categories p)).
  { subst p. destruct (dict_get stats (g_period row)) as [p0|] eqn:Hp0;
      cbn [default from_option id].
    - apply dict_get_in in Hp0. unfold rolled_up in Hok.
      rewrite Forall_forall in Hok. exact (Hok _ Hp0).
    - split; [reflexivity|constructor]. }
  destruct Hp as [Hpt Hpc].
  assert (Hc : cat_total_amount c = leaf_sum c).
  { subst c.
    destruct (dict_get (categories p) (g_main_category row)) as [c0|] eqn:Hc0;
      cbn [default from_option id]; [|reflexivity].
    apply dict_get_in in Hc0. rewrite Forall_forall in Hpc.
    exact (Hpc _ Hc0). }
  assert (Hleaf : dict_get (subcategories c) (g_sub_category row) = None).
  { destruct (dict_get (subcategories c) (g_sub_category row)) as [l|] eqn:Hl;
      [|reflexivity].
    exfalso. apply Hfresh. apply leaves_in. unfold group_row_key.
    cbn [fst snd]. apply dict_get_in in Hl.
    subst c p.
    destruct (dict_get stats (g_period row)) as [p0|] eqn:Hp0;
      cbn [default from_option id] in *.
    - destruct (dict_get (categories p0) (g_main_category row))
        as [c0|] eqn:Hc0; cbn [default from_option id] in *.
      + apply dict_get_in in Hp0, Hc0. now exists p0, c0, l.
      + now apply elem_of_nil in Hl.
    - cbn [dict_get List.find default from_option id subcategories] in Hl.
      now apply elem_of_nil in Hl. }
  split.
  - unfold category_sum. cbn [categories].
    rewrite (dict_set_sum cat_total_amount). cbn [cat_total_amount].
    fold (category_sum p). rewrite Hpt. subst c.
    destruct (dict_get (categories p) (g_main_category row)) as [c0|];
      cbn [default from_option id cat_total_amount]; lia.
  - apply dict_set_Forall; [exact Hpc|]. cbn [fst snd cat_total_amount].
    unfold leaf_sum at 1. cbn [subcategories].
    rewrite (dict_set_sum leaf_total_amount), Hleaf.
    cbn [leaf_total_amount]. fold (leaf_sum c). lia.
Qed.

Lemma fold_stat_rows_rolled_up (rows : list group_row) :
  forall stats,
    rolled_up stats ->
    NoDup (map group_row_key rows) ->
    (forall k, k ∈ leaves stats -> k ∉ map group_row_key rows) ->
    rolled_up (fold_left add_stat_row rows stats).
Proof.
  induction rows as [|row rows IH]; intros stats Hok Hnd Hdisj;
    cbn [fold_left]; [exact Hok|].
  cbn [map] in Hnd, Hdisj. apply NoDup_cons in Hnd as [Hrow Hnd].
  apply IH; [|exact Hnd|].
  - apply add_stat_row_rolled_up; [exact Hok|].
    intros Hin. apply (Hdisj _ Hin). now left.
  - intros k Hk. apply add_stat_row_leaves in Hk as [->|Hk]; [exact Hrow|].
    intros Hin. apply (Hdisj _ Hk). now right.
Qed.

Lemma distinct_NoDup {K : Type} `{EqDecision K} (l : list K) :
  forall seen,
    NoDup (distinct seen l) /\ forall x, x ∈ distinct seen l -> x ∉ seen.
Proof.
  induction l as [|x l IH]; intros seen; cbn [distinct].
  - split; [constructor|]. intros y Hy. now apply elem_of_nil in Hy.
  - destruct (bool_decide (x ∈ seen)) eqn:Hx; [apply IH|].
    apply bool_decide_eq_false_1 in Hx.
    destruct (IH (x :: seen)) as [Hnd Hout]. split.
    + apply NoDup_cons. split; [|exact Hnd].
      intros Hin. apply (Hout _ Hin). now left.
    + intros y Hy. apply elem_of_cons in Hy as [->|Hy]; [exact Hx|].
      intros Hs. apply (Hout _ Hy). now right.
Qed.

Lemma grouped_rows_keys (rows : list joined_row) (groups : list group_row) :
  grouped_rows rows = Some groups ->
  map group_row_key groups = distinct [] (map group_key rows).
Proof.
  unfold grouped_rows. intros H. apply mapM_Some in H.
  induction H as [|k g keys groups Hg _ IH]; [reflexivity|].
  cbn [map]. rewrite IH. f_equal.
  destruct (sum_int64 _) as [t|]; [|discriminate Hg].
  cbn in Hg. injection Hg as <-. unfold group_row_key.
  cbn [g_period g_main_category g_sub_category].
  now destruct k as [[k1 k2] k3].
Qed.

(** X16: in every result of [get_statistics] the total of a
    period is the sum of the totals of its categories, and the total of
    a category is the sum of the totals of its subcategories. *)
Theorem get_statistics_rolled_up (strftime : str -> str -> option str)
    (db : database) (period : str)
    (stats : list (option str * period_stats)) :
  get_statistics strftime db period = Some stats -> rolled_up stats.
Proof.
  unfold get_statistics.
  destruct (grouped_rows _) as [groups|] eqn:Hg; [|discriminate].
  intros [= <-]. apply grouped_rows_keys in Hg.
  apply fold_stat_rows_rolled_up.
  - constructor.
  - rewrite (Permutation_map group_row_key
               (merge_sort_Permutation stat_order groups)), Hg.
    apply distinct_NoDup.
  - intros k Hk. unfold leaves in Hk. now apply elem_of_nil in Hk.
Qed.

(** The monthly statistics of two receipts, of two months. *)
Lemma get_statistics_rolled_up_witness :
  let latte := {| name := u "카페라떼"; category := u "음식";
                  subcategory := u "음료"; amount := 10000 |} in
  let taxi := {| name := u "택시"; category := u "교통";
                 subcategory := u "택시"; amount := 7000 |} in
  let db := run [ Add (u "스타벅스") (u "2024-03-01") [latte; taxi] 17000;
                  Add (u "스타벅스") (u "2024-04-20") [latte] 10000 ] in
  let stats :=
    default [] (get_statistics strftime_of_date db (u "monthly")) in
  rolled_up stats.
Proof.
  intros latte taxi db stats.
  apply (get_statistics_rolled_up strftime_of_date db (u "monthly") stats).
  vm_compute. reflexivity.
Defined.

(** X17: on a store without item rows [get_statistics] returns
    the empty result, whatever the receipts and the period. *)
Theorem get_statistics_without_items (strftime : str -> str -> option str)
    (db : database) (period : str) :
  items db = [] -> get_statistics strftime db period = Some [].
Proof.
  intros Hi. unfold get_statistics.
  assert (Hj : joined_rows strftime (date_format period) db = []).
  { unfold joined_rows. induction (receipts db) as [|r rs IH];
      [reflexivity|].
    cbn [mbind list_bind]. unfold receipt_rows at 1. rewrite Hi.
    cbn [filter list_filter mbind list_bind app]. exact IH. }
  rewrite Hj. reflexivity.
Qed.

(** The seeded store, which has no item row. *)
Lemma get_statistics_without_items_witness :
  get_statistics strftime_of_date _init_db (u "monthly") = Some [].
Proof.
  apply (get_statistics_without_items strftime_of_date _init_db
           (u "monthly")).
  vm_compute. reflexivity.
Defined.

(** *** No amount is lost *)

Lemma add_stat_row_grand_total (stats : list (option str * period_stats))
    (row : group_row) :
  grand_total (add_stat_row stats row)
  = (grand_total stats + g_total_amount row)%Z.
Proof.
  unfold grand_total, add_stat_row.
  rewrite (dict_set_sum total_amount).
  destruct (dict_get stats (g_period row)) as [old|];
    cbn [default from_option id total_amount]; lia.
Qed.

Lemma fold_stat_rows_grand_total (groups : list group_row) :
  forall stats,
    grand_total (fold_left add_stat_row groups stats)
    = (grand_total stats + sum_amounts (map g_total_amount groups))%Z.
Proof.
  unfold sum_amounts.
  induction groups as [|g groups IH]; intros stats; cbn [fold_left map
    fold_right]; [lia|].
  rewrite IH, add_stat_row_grand_total. lia.
Qed.

Lemma sum_amounts_Permutation (l l' : list Z) :
  l ≡ₚ l' -> sum_amounts l = sum_amounts l'.
Proof.
  unfold sum_amounts.
  induction 1 as [|x l l' _ IH|x y l|l l' l'' _ IH1 _ IH2];
    cbn [fold_right]; lia.
Qed.

Lemma sum_int64_exact (l : list Z) (t : Z) :
  sum_int64 l = Some t -> t = sum_amounts l.
Proof.
  unfold sum_int64, sum_amounts.
  assert (H : forall acc,
             fold_left
               (fun acc v =>
                  match acc with
                  | Some s => if int64_ok (s + v) then Some (s + v)%Z else None
                  | None => None
                  end) l acc = Some t ->
             exists s, acc = Some s /\ t = (s + fold_right Z.add 0 l)%Z).
  { induction l as [|v l IH]; intros acc Hacc; cbn [fold_left fold_right]
      in *.
    - exists t. split; [exact Hacc|lia].
    - destruct (IH _ Hacc) as (s1 & Hs1 & ->).
      destruct acc as [s|]; [|discriminate Hs1].
      destruct (int64_ok (s + v)); [|discriminate Hs1].
      injection Hs1 as <-. exists s. split; [reflexivity|lia]. }
  intros Ht. destruct (H _ Ht) as (s & [= <-] & ->). lia.
Qed.

Lemma grouped_rows_totals (rows : list joined_row) (groups : list group_row) :
  grouped_rows rows = Some groups ->
  map g_total_amount groups
  = map (fun key =>
           sum_amounts (map j_amount
                            (filter (fun j => group_key j = key) rows)))
        (distinct [] (map group_key rows)).
Proof.
  unfold grouped_rows. intros H. apply mapM_Some in H.
  induction H as [|k g keys groups Hg _ IH]; [reflexivity|].
  cbn [map]. rewrite IH. f_equal.
  destruct (sum_int64 _) as [t|] eqn:Ht; [|discriminate Hg].
  cbn in Hg. injection Hg as <-. cbn [g_total_amount].
  now apply sum_int64_exact.
Qed.

Lemma sum_by_key {A K : Type} `{EqDecision K} (kf : A -> K) (g : A -> Z)
    (rows : list A) (keys : list K) :
  NoDup keys ->
  sum_amounts
    (map (fun key => sum_amounts (map g (filter (fun j => kf j = key) rows)))
         keys)
  = sum_amounts (map g (filter (fun j => kf j ∈ keys) rows)).
Proof.
  unfold sum_amounts.
  induction 1 as [|k keys Hk _ IH]; cbn [map fold_right].
  - induction rows as [|j rows IHr]; [reflexivity|].
    rewrite filter_cons_False; [exact IHr|]. apply not_elem_of_nil.
  - rewrite IH. clear IH.
    induction rows as [|j rows IHr]; [reflexivity|].
    destruct (decide (kf j = k)) as [Hj|Hj].
    + rewrite (filter_cons_True (fun j => kf j = k)) by exact Hj.
      rewrite (filter_cons_False (fun j => kf j ∈ keys))
        by (rewrite Hj; exact Hk).
      rewrite (filter_cons_True (fun j => kf j ∈ k :: keys))
        by (rewrite Hj; now left).
      cbn [map fold_right]. lia.
    + rewrite (filter_cons_False (fun j => kf j = k)) by exact Hj.
      destruct (decide (kf j ∈ keys)) as [Hin|Hin].
      * rewrite (filter_cons_True (fun j => kf j ∈ keys)) by exact Hin.
        rewrite (filter_cons_True (fun j => kf j ∈ k :: keys))
          by (now right).
        cbn [map fold_right]. lia.
      * rewrite (filter_cons_False (fun j => kf j ∈ keys)) by exact Hin.
        rewrite (filter_cons_False (fun j => kf j ∈ k :: keys));
          [exact IHr|].
        intros Hc. apply elem_of_cons in Hc as [Hc|Hc]; contradiction.
Qed.

Lemma filter_all {A : Type} (P : A -> Prop) `{forall x, Decision (P x)}
    (l : list A) :
  Forall P l -> filter P l = l.
Proof.
  induction 1 as [|x l Hx _ IH]; [reflexivity|].
  rewrite filter_cons_True by exact Hx. now rewrite IH.
Qed.

Lemma distinct_complete {K : Type} `{EqDecision K} (l : list K) :
  forall seen x, x ∈ l -> x ∈ seen \/ x ∈ distinct seen l.
Proof.
  induction l as [|y l IH]; intros seen x Hx; cbn [distinct].
  - now apply elem_of_nil in Hx.
  - apply elem_of_cons in Hx as [->|Hx].
    + destruct (bool_decide (y ∈ seen)) eqn:Hy.
      * left. now apply bool_decide_eq_true_1 in Hy.
      * right. now left.
    + destruct (bool_decide (y ∈ seen)) eqn:Hy; [now apply IH|].
      destruct (IH (y :: seen) x Hx) as [Hs|Hd].
      * apply elem_of_cons in Hs as [->|Hs]; [right; now left|now left].
      * right. now right.
Qed.

Lemma get_statistics_grand_total_aux (strftime : str -> str -> option str)
    (db : database) (period : str)
    (stats : list (option str * period_stats)) :
  get_statistics strftime db period = Some stats ->
  grand_total stats
  = sum_amounts (map j_amount (joined_rows strftime (date_format period) db)).
Proof.
  unfold get_statistics.
  set (rows := joined_rows strftime (date_format period) db).
  destruct (grouped_rows rows) as [groups|] eqn:Hg; [|discriminate].
  intros [= <-]. rewrite fold_stat_rows_grand_total.
  replace (grand_total []) with 0%Z by reflexivity.
  rewrite (sum_amounts_Permutation _ (map g_total_amount groups))
    by (apply Permutation_map, merge_sort_Permutation).
  rewrite (grouped_rows_totals _ _ Hg), (sum_by_key group_key j_amount)
    by apply distinct_NoDup.
  rewrite Z.add_0_l. f_equal. f_equal. apply filter_all.
  apply Forall_forall. intros j Hj.
  destruct (distinct_complete (map group_key rows) [] (group_key j))
    as [Hs|Hd]; [|now apply elem_of_nil in Hs|exact Hd].
  apply list_elem_of_fmap. now exists j.
Qed.

(** X18: a result of [get_statistics] loses no amount: its
    period totals add up to the sum of the amounts of the item rows the
    statement joins to a receipt, a main category and a subcategory. *)
Theorem get_statistics_grand_total (strftime : str -> str -> option str)
    (db : database) (period : str)
    (stats : list (option str * period_stats)) :
  get_statistics strftime db period = Some stats ->
  grand_total stats
  = sum_amounts (map j_amount (joined_rows strftime (date_format period) db)).
Proof. apply get_statistics_grand_total_aux. Qed.

(** The monthly statistics of two receipts, of two months. *)
Lemma get_statistics_grand_total_witness :
  let latte := {| name := u "카페라떼"; category := u "음식";
                  subcategory := u "음료"; amount := 10000 |} in
  let taxi := {| name := u "택시"; category := u "교통";
                 subcategory := u "택시"; amount := 7000 |} in
  let db := run [ Add (u "스타벅스") (u "2024-03-01") [latte; taxi] 17000;
                  Add (u "스타벅스") (u "2024-04-20") [latte] 10000 ] in
  let stats :=
    default [] (get_statistics strftime_of_date db (u "monthly")) in
  grand_total stats
  = sum_amounts
      (map j_amount (joined_rows strftime_of_date (date_format (u "monthly"))
                                 db)).
Proof.
  intros latte taxi db stats.
  apply (get_statistics_grand_total strftime_of_date db (u "monthly") stats).
  vm_compute. reflexivity.
Defined.

(** ** The statements written against columns [receipts] lacks *)

(** X19: [get_expense_analysis] returns [None] for every store
    and every period, whatever rows the engine would compute: its
    statement names the columns [category], [subcategory] and [amount],
    which [receipts] does not have, and cannot be prepared. *)
Theorem get_expense_analysis_returns_none (real : Type)
    (analysis_rows : str -> database -> list (analysis_row real))
    (db : database) (period : str) :
  get_expense_analysis real analysis_rows db period = None.
Proof.
  unfold get_expense_analysis.
  replace (columns_exist _ _) with false by (vm_compute; reflexivity).
  reflexivity.
Qed.

(** X20: [get_category_insights] returns [None] for every store,
    for the same reason. *)
Theorem get_category_insights_returns_none (real : Type)
    (insight_rows : database -> list (value * insight real))
    (db : database) :
  get_category_insights real insight_rows db = None.
Proof.
  unfold get_category_insights.
  replace (columns_exist _ _) with false by (vm_compute; reflexivity).
  reflexivity.
Qed.

(** ** The reverse index of [__init__] *)

(** X21: [category_index] inverts [valid_categories]: it maps a
    subcategory name to a category exactly when the pair is listed, so
    no subcategory name is listed under two categories. *)
Theorem category_index_inverts (cat sub : str) :
  dict_get category_index sub = Some cat
  <-> (cat, sub) ∈ pairs valid_categories.
Proof.
  split.
  - intros H. apply dict_get_in in H.
    assert (Hall : forallb
              (fun e : str * str =>
                 bool_decide ((e.2, e.1) ∈ pairs valid_categories))
              category_index = true) by (vm_compute; reflexivity).
    pose proof (forallb_elem_of _ _ _ Hall H) as H1. cbv beta in H1.
    clear Hall. apply bool_decide_eq_true_1 in H1. exact H1.
  - intros H.
    assert (Hall : forallb
              (fun p : str * str =>
                 bool_decide (dict_get category_index p.2 = Some p.1))
              (pairs valid_categories) = true) by (vm_compute; reflexivity).
    pose proof (forallb_elem_of _ _ _ Hall H) as H1. cbv beta in H1.
    clear Hall. apply bool_decide_eq_true_1 in H1. exact H1.
Qed.

(** ** Validation by the parser, continued *)

(** X22: [_is_valid_category] accepts a category and a
    subcategory exactly when the two texts, stripped of surrounding
    white space, form a pair of its table. *)
Theorem valid_category_iff_stripped_pair (cat sub : str) :
  _is_valid_category cat sub = true
  <-> (strip cat, strip sub) ∈ pairs parser_categories.
Proof.
  split; [apply valid_category_pair|].
  intros H. unfold _is_valid_category.
  assert (Hall : forallb
            (fun p : str * str =>
               match dict_get parser_categories p.1 with
               | Some subs => bool_decide (p.2 ∈ subs)
               | None => false
               end)
            (pairs parser_categories) = true) by (vm_compute; reflexivity).
  pose proof (forallb_elem_of _ _ _ Hall H) as H1. cbv beta in H1.
  clear Hall. exact H1.
Qed.

(** ** More on [SequenceMatcher] *)

(** X23: the three similarity measures are ordered as the library
    documents them: [ratio] is at most [quick_ratio], which is at most
    [real_quick_ratio], and all lie between 0 and 1. *)
Theorem ratios_ordered (x word : str) :
  (0 <= ratio x word)%Q
  /\ (ratio x word <= quick_ratio x word)%Q
  /\ (quick_ratio x word <= real_quick_ratio x word)%Q
  /\ (real_quick_ratio x word <= 1)%Q.
Proof.
  split; [|split; [apply ratio_le_quick_ratio|
                   split; [apply quick_ratio_le_real_quick_ratio|]]].
  - unfold ratio, _calculate_ratio. destruct (_ =? 0); [discriminate|].
    unfold Qle. cbn [Qnum Qden]. lia.
  - unfold real_quick_ratio, _calculate_ratio.
    destruct (length x + length word =? 0) eqn:E; [apply Qle_refl|].
    apply Nat.eqb_neq in E. unfold Qle. cbn [Qnum Qden].
    rewrite Z.mul_1_r, Z.mul_1_l.
    lia.
Qed.

Lemma agree_join (a b : str) (i j k1 k2 : nat) :
  agree a b i j k1 -> agree a b (i + k1) (j + k1) k2 ->
  agree a b i j (k1 + k2).
Proof.
  intros H1 H2 t Ht. destruct (decide (t < k1)) as [Hlt|Hge].
  - now apply H1.
  - specialize (H2 (t - k1) ltac:(lia)).
    replace (i + k1 + (t - k1)) with (i + t) in H2 by lia.
    replace (j + k1 + (t - k1)) with (j + t) in H2 by lia. exact H2.
Qed.

Section final_blocks.

Variables a b : str.

Let whole (m : Match) : Prop :=
  block_in a b 0 (length a) 0 (length b) m.

Lemma blocks_loop_whole :
  forall fuel queue mbs,
    Forall (range_ok a b) queue -> Forall whole mbs ->
    Forall whole (blocks_loop a b fuel queue mbs).
Proof.
  induction fuel as [|fuel IH]; intros queue mbs Hq Hm; cbn [blocks_loop];
    [exact Hm|].
  destruct queue as [|[[[alo ahi] blo] bhi] queue]; [exact Hm|].
  apply Forall_cons in Hq as [[Ha Hb] Hq]. cbn [fst snd] in Ha, Hb.
  pose proof (find_longest_match_block a b alo ahi blo bhi
                ltac:(lia) ltac:(lia)) as (H1 & H2 & H3 & H4 & H5).
  set (x := find_longest_match a b alo ahi blo bhi) in *.
  destruct (m_size x =? 0); [now apply IH|].
  apply IH.
  - destruct (_ && _); destruct (_ && _);
      repeat (apply Forall_cons; split); try exact Hq;
      split; cbn [fst snd]; lia.
  - apply Forall_app. split; [exact Hm|]. constructor; [|constructor].
    unfold whole, block_in. repeat split; try lia. exact H5.
Qed.

Lemma collapse_whole (blocks : list Match) :
  forall i1 j1 k1,
    whole {| m_a := i1; m_b := j1; m_size := k1 |} ->
    Forall whole blocks ->
    Forall whole (collapse i1 j1 k1 blocks).
Proof.
  induction blocks as [|x blocks IH]; intros i1 j1 k1 Hcur Hall;
    cbn [collapse].
  - destruct (k1 =? 0); constructor; [exact Hcur|constructor].
  - apply Forall_cons in Hall as [Hx Hall].
    destruct ((i1 + k1 =? m_a x) && (j1 + k1 =? m_b x)) eqn:Hadj.
    + apply andb_true_iff in Hadj as [Hi Hj].
      apply Nat.eqb_eq in Hi, Hj. apply IH; [|exact Hall].
      destruct Hcur as (C1 & C2 & C3 & C4 & C5).
      destruct Hx as (X1 & X2 & X3 & X4 & X5). cbn [m_a m_b m_size] in *.
      unfold whole, block_in. cbn [m_a m_b m_size].
      repeat split; try lia. apply agree_join; [exact C5|].
      rewrite Hi, Hj. exact X5.
    + apply Forall_app. split.
      * destruct (k1 =? 0); constructor; [exact Hcur|constructor].
      * apply IH; [|exact Hall]. now destruct x.
Qed.

(** X24: every triple [(i, j, k)] of [get_matching_blocks] lies
    inside the two texts and marks equal slices, [a[i:i+k] == b[j:j+k]],
    as the library documents. *)
Theorem matching_blocks_match (m : Match) :
  m ∈ get_matching_blocks a b ->
  m_a m + m_size m <= length a /\ m_b m + m_size m <= length b
  /\ slice a (m_a m) (m_a m + m_size m) = slice b (m_b m) (m_b m + m_size m).
Proof.
  intros Hm.
  assert (Hall : Forall whole (get_matching_blocks a b)).
  { unfold get_matching_blocks. apply Forall_app. split.
    - apply collapse_whole.
      + unfold whole, block_in. cbn [m_a m_b m_size].
        repeat split; try lia. apply agree_zero.
      + rewrite (merge_sort_Permutation match_le).
        apply blocks_loop_whole; [|constructor].
        repeat constructor; cbn [fst snd]; lia.
    - constructor; [|constructor].
      unfold whole, block_in. cbn [m_a m_b m_size].
      repeat split; try lia. apply agree_zero. }
  rewrite Forall_forall in Hall.
  destruct (Hall m Hm) as (_ & H2 & _ & H4 & H5).
  split; [exact H2|]. split; [exact H4|]. now apply agree_slices.
Qed.

End final_blocks.

(** The first block of 음료수 and 음료: two characters at the start of
    both. *)
Lemma matching_blocks_match_witness :
  let a := u "음료수" in
  let b := u "음료" in
  let m := {| m_a := 0; m_b := 0; m_size := 2 |} in
  m_a m + m_size m <= length a /\ m_b m + m_size m <= length b
  /\ slice a (m_a m) (m_a m + m_size m) = slice b (m_b m) (m_b m + m_size m).
Proof.
  intros a b m.
  apply (matching_blocks_match a b m).
  replace (get_matching_blocks a b)
    with [m; {| m_a := 3; m_b := 2; m_size := 0 |}]
    by (vm_compute; reflexivity).
  apply elem_of_cons. left. reflexivity.
Defined.

(** X25: [get_close_matches] with [n=1] returns at most one
    text; a returned text is one of the possibilities, reaches the
    cutoff, and no possibility is more similar to the word; nothing is
    returned only when no possibility reaches the cutoff. *)
Theorem close_match_is_best (word : str) (possibilities : list str)
    (cutoff : Q) :
  match get_close_matches word possibilities cutoff with
  | [] => forall x, x ∈ possibilities -> ~ (cutoff <= ratio x word)%Q
  | y :: rest =>
    rest = [] /\ y ∈ possibilities /\ (cutoff <= ratio y word)%Q
    /\ forall z, z ∈ possibilities -> (ratio z word <= ratio y word)%Q
  end.
Proof. apply get_close_matches_closest. Qed.

(** ** The store behind the two callers *)

Lemma serve_run_call (db : database) (r : request) :
  serve db r = db \/ exists c, serve db r = run_call db c.
Proof.
  destruct r as [data|response receipt_text]; cbn [serve].
  - right. unfold save_receipt.
    destruct (sr_receipt_id data) as [id|].
    + destruct (id =? 0)%Z.
      * exists (Add (sr_store_name data) (sr_date data) (sr_items data)
                    (sr_total_amount data)).
        cbn [run_call]. now destruct (add_receipt _ _ _ _ _).
      * exists (Update id (sr_store_name data) (sr_date data)
                       (sr_items data) (sr_total_amount data)).
        cbn [run_call]. now destruct (update_receipt _ _ _ _ _ _).
    + exists (Add (sr_store_name data) (sr_date data) (sr_items data)
                  (sr_total_amount data)).
      cbn [run_call]. now destruct (add_receipt _ _ _ _ _).
  - unfold process_receipt.
    destruct response as [[|c response]|]; [now left| |now left].
    destruct (parse_response _) as [d|]; [|now left].
    destruct (negb _); [now left|]. destruct (negb _); [now left|].
    destruct (d_items d) as [|it its] eqn:Hits; [now left|].
    destruct (if truthy _ then _ else _) as [[total|]|];
      [|now left|now left].
    destruct (total =? 0)%Z; [now left|].
    right. exists (Add (default [] (d_store_name d))
                       (default [] (d_date d)) (it :: its) total).
    cbn [run_call]. now destruct (add_receipt _ _ _ _ _).
Qed.

Lemma fold_serve_in_taxonomy (requests : list request) :
  forall db,
    seeded db -> Forall (item_in_taxonomy db) (items db) ->
    seeded (fold_left serve requests db)
    /\ Forall (item_in_taxonomy (fold_left serve requests db))
              (items (fold_left serve requests db)).
Proof.
  induction requests as [|r requests IH]; intros db Hs Hall;
    cbn [fold_left]; [now split|].
  destruct (serve_run_call db r) as [->|[c ->]]; [now apply IH|].
  destruct (run_call_in_taxonomy db c Hs Hall) as [Hs1 Hall1].
  now apply IH.
Qed.

(** X26: whatever requests the two callers make of a fresh
    store, [save_receipt] of [server.py] and [process_receipt], the
    category tables stay as seeded and every item row carries the ids
    of a category and of a subcategory listed under it. *)
Theorem served_items_in_taxonomy (requests : list request) :
  let db := fold_left serve requests _init_db in
  seeded db /\ Forall (item_in_taxonomy db) (items db).
Proof.
  apply fold_serve_in_taxonomy; [apply init_db_seeded|].
  replace (items _init_db) with (@nil item_row) by (vm_compute; reflexivity).
  constructor.
Qed.

(** *** Numbering *)

Lemma numbered_next (seq : Z) (ids : list Z) (k : Z) :
  numbered seq ids -> next_id seq ids = Some k -> numbered k (ids ++ [k]).
Proof.
  intros (H0 & Hs & Hall) Hk. unfold next_id in Hk.
  fold (largest_id seq ids) in Hk.
  destruct (int64_ok _); [|discriminate Hk]. injection Hk as <-.
  pose proof (largest_id_ge_seq seq ids) as Hge.
  split; [lia|]. split.
  - apply StronglySorted_app_2; [|exact Hs|repeat constructor].
    intros x1 x2 H1 H2. apply list_elem_of_singleton in H2 as ->.
    pose proof (largest_id_ge seq ids x1 H1). lia.
  - apply Forall_app. split.
    + eapply Forall_impl; [exact Hall|]. cbv beta. intros. lia.
    + constructor; [lia|constructor].
Qed.

Lemma numbered_filter {A : Type} (f : A -> Z) (P : A -> Prop)
    `{forall x, Decision (P x)} (seq : Z) (l : list A) :
  numbered seq (map f l) -> numbered seq (map f (filter P l)).
Proof.
  intros (H0 & Hs & Hall). split; [exact H0|].
  induction l as [|x l IH]; [split; constructor|].
  cbn [map] in Hs, Hall. apply StronglySorted_inv in Hs as [Hs Hx].
  apply Forall_cons in Hall as [Hx1 Hall].
  destruct (IH Hs Hall) as [IH1 IH2].
  destruct (decide (P x)) as [Hp|Hp].
  - rewrite filter_cons_True by exact Hp. cbn [map]. split.
    + constructor; [exact IH1|]. apply Forall_forall. intros y Hy.
      rewrite Forall_forall in Hx. apply Hx.
      apply list_elem_of_fmap in Hy as (z & -> & Hz).
      apply list_elem_of_filter in Hz as [_ Hz].
      apply list_elem_of_fmap. now exists z.
    + now constructor.
  - rewrite filter_cons_False by exact Hp. now split.
Qed.

Lemma insert_item_numbered db id nm m s a db1 :
  well_numbered db -> insert_item db id nm m s a = Some db1 ->
  well_numbered db1.
Proof.
  intros [Hr Hi] H. unfold insert_item in H.
  destruct (_ && _); [|discriminate H].
  destruct (next_id _ _) as [k|] eqn:Hk; [|discriminate H].
  injection H as <-. split; cbn [receipts seq_receipts items seq_items].
  - exact Hr.
  - rewrite map_app. cbn [map i_id]. exact (numbered_next _ _ _ Hi Hk).
Qed.

Lemma insert_items_numbered committed id its :
  forall db,
    well_numbered db ->
    match insert_items committed id its db with
    | Completed db1 | Unresolved db1 => well_numbered db1
    | Raised => True
    end.
Proof.
  induction its as [|it its IH]; intros db Hdb; cbn [insert_items];
    [exact Hdb|].
  destruct (resolve committed it) as [[m s]|]; [|exact Hdb].
  destruct (insert_item _ _ _ _ _ _) as [db1|] eqn:Hins; [|exact I].
  apply IH. eapply insert_item_numbered; eassumption.
Qed.

Lemma run_call_numbered db c :
  well_numbered db -> well_numbered (run_call db c).
Proof.
  intros Hdb. destruct c as [st dt its tot|rid st dt its tot];
    unfold run_call.
  - unfold add_receipt.
    destruct (insert_receipt db st dt tot) as [[id db0]|] eqn:Hins;
      [|exact Hdb].
    assert (H0 : well_numbered db0).
    { destruct Hdb as [Hr Hi]. unfold insert_receipt in Hins.
      destruct (_ && _); [|discriminate Hins].
      destruct (next_id _ _) as [k|] eqn:Hk; [|discriminate Hins].
      injection Hins as <- <-.
      split; cbn [receipts seq_receipts items seq_items]; [|exact Hi].
      rewrite map_app. cbn [map r_id]. exact (numbered_next _ _ _ Hr Hk). }
    pose proof (insert_items_numbered db id its db0 H0) as H.
    destruct (insert_items db id its db0); [exact H|exact H|exact Hdb].
  - unfold update_receipt.
    destruct (update_receipt_row db rid st dt tot) as [db0|] eqn:Hupd;
      [|exact Hdb].
    assert (H0 : well_numbered (delete_items db0 rid)).
    { destruct Hdb as [Hr Hi]. unfold update_receipt_row in Hupd.
      destruct (_ && _); [|discriminate Hupd]. injection Hupd as <-.
      split; cbn [delete_items receipts seq_receipts items seq_items].
      - rewrite map_map.
        erewrite map_ext; [exact Hr|]. intros r. cbv beta.
        now destruct (r_id r =? rid)%Z.
      - apply (numbered_filter i_id). exact Hi. }
    pose proof (insert_items_numbered db rid its _ H0) as H.
    destruct (insert_items db rid its _); [exact H|exact H|exact Hdb].
Qed.

Lemma fold_serve_numbered (requests : list request) :
  forall db, well_numbered db -> well_numbered (fold_left serve requests db).
Proof.
  induction requests as [|r requests IH]; intros db Hdb; cbn [fold_left];
    [exact Hdb|].
  destruct (serve_run_call db r) as [->|[c ->]]; [now apply IH|].
  apply IH. now apply run_call_numbered.
Qed.

(** X27: whatever requests the two callers make of a fresh
    store, the ids of the receipts and the ids of the item rows are
    positive and increase in the order of insertion, so no two rows of
    a table share an id and no id is given twice, also after
    [update_receipt] deleted rows. *)
Theorem served_rows_numbered (requests : list request) :
  let db := fold_left serve requests _init_db in
  StronglySorted Z.lt (map r_id (receipts db))
  /\ StronglySorted Z.lt (map i_id (items db))
  /\ Forall (fun i => (0 < i <= seq_receipts db)%Z) (map r_id (receipts db))
  /\ Forall (fun i => (0 < i <= seq_items db)%Z) (map i_id (items db)).
Proof.
  cbv zeta.
  assert (H : well_numbered (fold_left serve requests _init_db)).
  { apply fold_serve_numbered.
    split; vm_compute; (split; [discriminate|split; constructor]). }
  destruct H as [(_ & H1 & H2) (_ & H3 & H4)]. auto.
Qed.

(** ** The store name *)

(** X28: the text [_parse_store_name] returns has no white space
    at either end: stripping it again changes nothing. *)
Theorem parse_store_name_stripped (line : str) :
  strip (_parse_store_name line) = _parse_store_name line.
Proof. unfold _parse_store_name. apply strip_idempotent. Qed.

(** ** The statistics of the store behind the callers *)

Lemma sum_amounts_app (l l' : list Z) :
  sum_amounts (l ++ l') = (sum_amounts l + sum_amounts l')%Z.
Proof.
  unfold sum_amounts. induction l as [|x l IH]; cbn [app fold_right]; lia.
Qed.

Lemma sum_amounts_cons (x : Z) (l : list Z) :
  sum_amounts (x :: l) = (x + sum_amounts l)%Z.
Proof. reflexivity. Qed.

Lemma StronglySorted_lt_NoDup (l : list Z) : StronglySorted Z.lt l -> NoDup l.
Proof.
  induction 1 as [|x l _ IH Hx]; constructor; [|exact IH].
  intros Hin. rewrite Forall_forall in Hx. specialize (Hx x Hin). lia.
Qed.

Section owned_items.

Variable strftime : str -> str -> option str.
Variable db : database.
Variable fmt : str.

Hypothesis tables : seeded db.

Lemma item_rows_amounts (r : receipt_row) (l : list item_row) :
  Forall (item_in_taxonomy db) l ->
  map j_amount
      (i ← l;
       mc ← filter (fun m => mc_id m = i_main_category_id i)
                   (main_categories db);
       sc ← filter (fun s => sc_id s = i_sub_category_id i)
                   (sub_categories db);
       [ {| j_period := strftime fmt (r_date r);
            j_main_category := mc_name mc; j_sub_category := sc_name sc;
            j_amount := i_amount i |} ])
  = map i_amount l.
Proof using tables.
  induction 1 as [|i l (cat & sub & _ & Hmc & Hsc) _ IH]; [reflexivity|].
  cbn [mbind list_bind]. rewrite map_app, IH. cbn [map]. f_equal.
  rewrite (seeded_main_id_unique db _ _ tables Hmc).
  cbn [mbind list_bind app].
  rewrite (seeded_sub_id_unique db _ _ _ tables Hsc). reflexivity.
Qed.

Lemma joined_rows_amounts :
  Forall (item_in_taxonomy db) (items db) ->
  NoDup (map r_id (receipts db)) ->
  sum_amounts (map j_amount (joined_rows strftime fmt db))
  = sum_amounts
      (map i_amount
           (filter (fun i => i_receipt_id i ∈ map r_id (receipts db))
                   (items db))).
Proof using tables.
  intros Hall Hnd.
  rewrite <- (sum_by_key i_receipt_id i_amount) by exact Hnd.
  unfold joined_rows. clear Hnd.
  induction (receipts db) as [|r rs IH]; [reflexivity|].
  cbn [mbind list_bind map]. rewrite map_app, sum_amounts_app, IH.
  rewrite sum_amounts_cons.
  f_equal. f_equal. unfold receipt_rows. apply item_rows_amounts.
  apply Forall_forall. intros i Hi.
  apply list_elem_of_filter in Hi as [_ Hi].
  rewrite Forall_forall in Hall. now apply Hall.
Qed.

End owned_items.

(** X29: whatever requests the two callers made of a fresh
    store, the period totals of a result of [get_statistics] add up to
    the sum of the amounts of the item rows whose receipt is in the
    store: every such row is counted once, and the rows
    [update_receipt] left for a receipt that does not exist are not
    counted. *)
Theorem served_statistics_total (requests : list request)
    (strftime : str -> str -> option str) (period : str)
    (stats : list (option str * period_stats)) :
  let db := fold_left serve requests _init_db in
  get_statistics strftime db period = Some stats ->
  grand_total stats
  = sum_amounts
      (map i_amount
           (filter (fun i => i_receipt_id i ∈ map r_id (receipts db))
                   (items db))).
Proof.
  intros db Hstats.
  rewrite (get_statistics_grand_total_aux _ _ _ _ Hstats).
  assert (Hdb : seeded db /\ Forall (item_in_taxonomy db) (items db)).
  { apply fold_serve_in_taxonomy; [apply init_db_seeded|].
    replace (items _init_db) with (@nil item_row)
      by (vm_compute; reflexivity).
    constructor. }
  destruct Hdb as [Hs Hall].
  apply joined_rows_amounts; [exact Hs|exact Hall|].
  apply StronglySorted_lt_NoDup.
  assert (H : well_numbered db).
  { apply fold_serve_numbered.
    split; vm_compute; (split; [discriminate|split; constructor]). }
  now destruct H as [(_ & H1 & _) _].
Qed.

(** Two saved receipts, of two months. *)
Lemma served_statistics_total_witness :
  let latte := {| name := u "카페라떼"; category := u "음식";
                  subcategory := u "음료"; amount := 10000 |} in
  let taxi := {| name := u "택시"; category := u "교통";
                 subcategory := u "택시"; amount := 7000 |} in
  let requests :=
    [ Save {| sr_receipt_id := None; sr_store_name := u "스타벅스";
              sr_date := u "2024-03-01"; sr_items := [latte; taxi];
              sr_total_amount := 17000 |};
      Save {| sr_receipt_id := None; sr_store_name := u "스타벅스";
              sr_date := u "2024-04-20"; sr_items := [latte];
              sr_total_amount := 10000 |} ] in
  let db := fold_left serve requests _init_db in
  let stats :=
    default [] (get_statistics strftime_of_date db (u "monthly")) in
  grand_total stats
  = sum_amounts
      (map i_amount
           (filter (fun i => i_receipt_id i ∈ map r_id (receipts db))
                   (items db))).
Proof.
  intros latte taxi requests db stats.
  apply (served_statistics_total requests strftime_of_date (u "monthly")
           stats).
  vm_compute. reflexivity.
Defined.
